(** * A shallow embedding of aws-c-auth's streaming XML scanner

    Source: [source/xml_parser.c].  The scanner walks a caller-owned byte
    buffer with an [aws_byte_cursor], decodes one tag at a time into an
    [aws_xml_node] and hands it to a callback.  Pointers are modelled as
    offsets into the document buffer, [size_t] values as [Z] with the
    wrap-around written out, and the callbacks as trees of the calls a
    handler may make back into the parser. *)

From Stdlib.Strings Require Import String Byte.
From Stdlib Require Import ZArith List Lia Bool.
Import ListNotations.
Open Scope Z_scope.

(** ** Bytes, pointers and cursors *)

Definition bytes (s : string) : list byte := list_byte_of_string s.

(** [size_t] on the 64-bit targets the library is built for. *)
Definition SIZE_MAX : Z := 2 ^ 64 - 1.
Definition to_size_t (z : Z) : Z := z mod (SIZE_MAX + 1).

(** A [uint8_t *]: either the null pointer or an offset into the buffer that
    holds the document. *)
Inductive pointer : Type :=
| NULL
| Addr (a : Z).

Definition ptr_add (p : pointer) (n : Z) : pointer :=
  match p with
  | NULL => NULL
  | Addr a => Addr (a + n)
  end.

Definition ptr_diff (p q : pointer) : Z :=
  match p, q with
  | Addr a, Addr b => a - b
  | _, _ => 0
  end.

(** [struct aws_byte_cursor { size_t len; uint8_t *ptr; }] *)
Record aws_byte_cursor : Type := mk_cursor { len : Z; ptr : pointer }.

(** The result of [AWS_ZERO_STRUCT] on a cursor. *)
Definition zero_cursor : aws_byte_cursor := {| len := 0; ptr := NULL |}.

(** ** Results

    The functions of the file return [AWS_OP_SUCCESS] or [AWS_OP_ERR] after
    raising [AWS_ERROR_MALFORMED_INPUT_STRING].  Two more outcomes belong to
    the model only: [Undefined] marks a run in which the C code would read
    outside the document buffer (or call a null callback), and [OutOfFuel]
    marks a run cut short by the step budget of the interpreter. *)

Inductive aws_error : Type :=
| AWS_ERROR_MALFORMED_INPUT_STRING.

Inductive outcome (A : Type) : Type :=
| AWS_OP_SUCCESS (a : A)
| AWS_OP_ERR (e : aws_error)
| Undefined
| OutOfFuel.

Arguments AWS_OP_SUCCESS {A} a.
Arguments AWS_OP_ERR {A} e.
Arguments Undefined {A}.
Arguments OutOfFuel {A}.

Definition malformed {A : Type} : outcome A :=
  AWS_OP_ERR AWS_ERROR_MALFORMED_INPUT_STRING.

(** ** Nodes, handlers and the parser state *)

Record aws_xml_attribute : Type :=
  mk_attribute { att_name : aws_byte_cursor; att_value : aws_byte_cursor }.

(** [struct aws_xml_node]; the attribute array list is modelled by the list
    of the entries pushed on it. *)
Record aws_xml_node : Type :=
  mk_node {
      name : aws_byte_cursor;
      attributes : list aws_xml_attribute;
      doc_at_body : aws_byte_cursor
    }.

(** What a callback of type [aws_xml_parser_on_node_encountered_fn] does with
    the parser: it returns a boolean, or it calls [aws_xml_node_as_body] or
    [aws_xml_node_traverse] and goes on with the value it got back. *)
Inductive action : Type :=
| Return (b : bool)
| Node_as_body (n : aws_xml_node) (k : outcome aws_byte_cursor -> action)
| Node_traverse (n : aws_xml_node) (h : aws_xml_node -> action)
    (k : outcome unit -> action).

Definition handler : Type := aws_xml_node -> action.

(** Ghost trace: which function invoked a callback, with which node, and what
    each [aws_xml_node_as_body] call handed back. *)
Inductive call_site : Type :=
| From_next_sibling
| From_traverse.

Inductive event : Type :=
| Ev_node (site : call_site) (n : aws_xml_node)
| Ev_body (n : aws_xml_node) (r : outcome aws_byte_cursor).

(** [struct aws_xml_parser]: the cursor over what is left of the document and
    the callback stack (its top is the head of the list), plus the ghost
    trace. *)
Record aws_xml_parser : Type :=
  mk_parser {
      doc : aws_byte_cursor;
      cb_stack : list handler;
      trace : list event
    }.

Definition set_doc (p : aws_xml_parser) (c : aws_byte_cursor) : aws_xml_parser :=
  {| doc := c; cb_stack := cb_stack p; trace := trace p |}.

Definition set_stack (p : aws_xml_parser) (s : list handler) : aws_xml_parser :=
  {| doc := doc p; cb_stack := s; trace := trace p |}.

Definition record (e : event) (p : aws_xml_parser) : aws_xml_parser :=
  {| doc := doc p; cb_stack := cb_stack p; trace := trace p ++ [e] |}.

(** A parser operation: state in, result and state out. *)
Definition M (A : Type) : Type := aws_xml_parser -> outcome A * aws_xml_parser.

(** ** Example documents *)

Definition doc_single : list byte := bytes "<a>text</a>".
Definition doc_nested : list byte := bytes "<a><a>inner</a></a>".
Definition doc_unclosed : list byte := bytes "<a>text".
Definition doc_siblings : list byte := bytes "<p><a>x</a><b>y</b></p>".
Definition doc_closing_first : list byte := bytes "</a>".
(** The byte [x22] is the double quote. *)
Definition doc_preamble : list byte :=
  bytes "<?xml version=" ++ [x22] ++ bytes "1.0" ++ [x22] ++ bytes "?><root/>".

Section Parser.

(** The buffer that holds the document; the parser never writes to it. *)
Variable buf : list byte.

(** Sizes of the arrays [parser->split_scratch] and [parser->attributes],
    declared in the header [aws/auth/private/xml_parser.h]. *)
Variable split_scratch_size : nat.
Variable attributes_size : nat.

(** *** Memory reads *)

(** The [n] bytes at [p], when they lie inside the buffer.  No byte is read
    when [n] is zero. *)
Definition slice (p : pointer) (n : Z) : option (list byte) :=
  if n =? 0 then Some []
  else
    match p with
    | NULL => None
    | Addr a =>
        if (0 <=? a) && (0 <=? n) && (a + n <=? Z.of_nat (length buf))
        then Some (firstn (Z.to_nat n) (skipn (Z.to_nat a) buf))
        else None
    end.

Definition cursor_bytes (c : aws_byte_cursor) : option (list byte) :=
  slice (ptr c) (len c).

(** [*p] *)
Definition load (p : pointer) : option byte :=
  match slice p 1 with
  | Some (b :: _) => Some b
  | _ => None
  end.

Fixpoint index_of (c : byte) (l : list byte) : option nat :=
  match l with
  | [] => None
  | x :: l' =>
      if Byte.eqb x c then Some 0%nat else option_map S (index_of c l')
  end.

(** [memchr(p, c, n)]: [None] when the range is not inside the buffer,
    otherwise the address of the first [c] or [NULL]. *)
Definition memchr (p : pointer) (c : byte) (n : Z) : option pointer :=
  match slice p n with
  | None => None
  | Some l =>
      match index_of c l with
      | Some i => Some (ptr_add p (Z.of_nat i))
      | None => Some NULL
      end
  end.

(** *** The byte-cursor library (aws-c-common) *)

(** [aws_byte_cursor_advance]: moves the cursor forward by [n] bytes, and
    leaves it alone when [n] exceeds its length (or either exceeds
    [SIZE_MAX >> 1]). *)
Definition aws_byte_cursor_advance (c : aws_byte_cursor) (n : Z)
  : aws_byte_cursor :=
  if (len c >? Z.shiftr SIZE_MAX 1) || (n >? Z.shiftr SIZE_MAX 1) || (n >? len c)
  then c
  else {| len := len c - n; ptr := ptr_add (ptr c) n |}.

(** [aws_byte_cursor_from_array] *)
Definition aws_byte_cursor_from_array (p : pointer) (n : Z) : aws_byte_cursor :=
  {| len := n; ptr := p |}.

(** The tokens of [l] between occurrences of [c]: an input without [c] is
    one token, and an empty token stands between two adjacent [c]s and
    after a trailing one. *)
Fixpoint split_on (c : byte) (l : list byte) : list (list byte) :=
  match l with
  | [] => [[]]
  | x :: l' =>
      if Byte.eqb x c then [] :: split_on c l'
      else
        match split_on c l' with
        | t :: ts => (x :: t) :: ts
        | [] => [[x]]
        end
  end.

(** The views of the tokens, the first one starting at [p]; a token starts
    one byte after the end of the one before it. *)
Fixpoint cursors_of (p : pointer) (toks : list (list byte))
  : list aws_byte_cursor :=
  match toks with
  | [] => []
  | t :: ts =>
      {| len := Z.of_nat (length t); ptr := p |}
        :: cursors_of (ptr_add p (Z.of_nat (length t) + 1)) ts
  end.

(** [aws_byte_cursor_split_on_char] into a static array list of [capacity]
    entries.  The tokens are views into the input; an input without the
    delimiter gives one token, the input itself.  The call fails, with the
    list full, when there are more tokens than [capacity].  Returns the
    list and whether the call succeeded; [None] when the input is not
    inside the buffer. *)
Definition aws_byte_cursor_split_on_char
  (input : aws_byte_cursor) (split_on_c : byte) (capacity : nat)
  : option (list aws_byte_cursor * bool) :=
  match cursor_bytes input with
  | None => None
  | Some l =>
      let toks := cursors_of (ptr input) (split_on split_on_c l) in
      Some (firstn capacity toks, (length toks <=? capacity)%nat)
  end.

Fixpoint count_while (pred : byte -> bool) (l : list byte) : nat :=
  match l with
  | [] => 0%nat
  | x :: l' => if pred x then S (count_while pred l') else 0%nat
  end.

(** [aws_byte_cursor_trim_pred]: drops the bytes satisfying [pred] from the
    left end, then from the right end. *)
Definition aws_byte_cursor_trim_pred
  (source : aws_byte_cursor) (pred : byte -> bool) : option aws_byte_cursor :=
  match cursor_bytes source with
  | None => None
  | Some l =>
      let nl := count_while pred l in
      let nr := count_while pred (rev (skipn nl l)) in
      Some {| len := len source - Z.of_nat nl - Z.of_nat nr;
              ptr := ptr_add (ptr source) (Z.of_nat nl) |}
  end.

Fixpoint is_prefix (needle l : list byte) : bool :=
  match needle, l with
  | [], _ => true
  | _ :: _, [] => false
  | x :: needle', y :: l' => Byte.eqb x y && is_prefix needle' l'
  end.

Fixpoint find_sub (needle l : list byte) : option nat :=
  if is_prefix needle l then Some 0%nat
  else
    match l with
    | [] => None
    | _ :: l' => option_map S (find_sub needle l')
    end.

(** [aws_byte_cursor_find_exact]: the input cursor advanced to the first
    occurrence of [to_find], or an error when there is none, when [to_find]
    is longer than the input or when it is empty.  [None] when the input has
    to be read and is not inside the buffer. *)
Definition aws_byte_cursor_find_exact
  (input : aws_byte_cursor) (to_find : list byte)
  : option (option aws_byte_cursor) :=
  if Z.of_nat (length to_find) >? len input then Some None
  else if Z.of_nat (length to_find) <? 1 then Some None
  else
    match cursor_bytes input with
    | None => None
    | Some l =>
        match find_sub to_find l with
        | None => Some None
        | Some i =>
            Some (Some {| len := len input - Z.of_nat i;
                          ptr := ptr_add (ptr input) (Z.of_nat i) |})
        end
    end.

(** [aws_array_list_push_back] on a static list of [capacity] entries: the
    element is dropped when the list is full. *)
Definition push_back_static {A : Type} (capacity : nat) (l : list A) (x : A)
  : list A :=
  if (length l <? capacity)%nat then l ++ [x] else l.

(** *** [s_trim_quotes_fn] *)
Definition s_trim_quotes_fn (value : byte) : bool :=
  Byte.eqb value x22.

(** *** [s_load_node_decl] *)

(** The body of the [for] loop over the tokens after the name. *)
Fixpoint load_attributes (pairs : list aws_byte_cursor)
  (atts : list aws_xml_attribute) : option (list aws_xml_attribute) :=
  match pairs with
  | [] => Some atts
  | attribute_pair :: rest =>
      match aws_byte_cursor_split_on_char attribute_pair "="%byte 2 with
      | None => None
      | Some (att_val_pair, true) =>
          match aws_byte_cursor_trim_pred (nth 1 att_val_pair zero_cursor)
                  s_trim_quotes_fn with
          | None => None
          | Some v =>
              let attribute :=
                {| att_name := nth 0 att_val_pair zero_cursor; att_value := v |} in
              load_attributes rest (push_back_static attributes_size atts attribute)
          end
      | Some (_, false) => load_attributes rest atts
      end
  end.

Definition s_load_node_decl (decl_body : aws_byte_cursor) (node : aws_xml_node)
  : outcome aws_xml_node :=
  match aws_byte_cursor_split_on_char decl_body " "%byte split_scratch_size with
  | None => Undefined
  | Some (_, false) => malformed
  | Some (splits, true) =>
      if (length splits <? 1)%nat then malformed
      else
        let node_name := nth 0 splits zero_cursor in
        if (1 <? length splits)%nat then
          match load_attributes (tl splits) [] with
          | None => Undefined
          | Some atts =>
              AWS_OP_SUCCESS
                {| name := node_name; attributes := atts;
                   doc_at_body := doc_at_body node |}
          end
        else
          AWS_OP_SUCCESS
            {| name := node_name; attributes := attributes node;
               doc_at_body := doc_at_body node |}
  end.

(** *** [s_advance_to_closing_tag] and [aws_xml_node_as_body] *)

Definition advance_doc (n : Z) (p : aws_xml_parser) : aws_xml_parser :=
  set_doc p (aws_byte_cursor_advance (doc p) n).

(** Returns the body that the C function stores through [out_body]; a
    caller that passes [NULL] there drops it. *)
Definition s_advance_to_closing_tag (node : aws_xml_node) : M aws_byte_cursor :=
  fun p =>
    let closing_name_len := to_size_t (len (name node) + 3) in
    if closing_name_len >? len (doc_at_body node) then (malformed, p)
    else if 259 <? closing_name_len then (malformed, p)
    else
      match cursor_bytes (name node) with
      | None => (Undefined, p)
      | Some node_name =>
          let cmp_buf := bytes "</" ++ node_name ++ bytes ">" in
          match aws_byte_cursor_find_exact (doc_at_body node) cmp_buf with
          | None => (Undefined, p)
          | Some None => (malformed, p)
          | Some (Some find_result) =>
              let l :=
                to_size_t (ptr_diff (ptr find_result) (ptr (doc_at_body node))) in
              let p' := advance_doc (to_size_t (l + Z.of_nat (length cmp_buf))) p in
              (AWS_OP_SUCCESS
                 (aws_byte_cursor_from_array (ptr (doc_at_body node)) l), p')
          end
      end.

Definition aws_xml_node_as_body (node : aws_xml_node) : M aws_byte_cursor :=
  s_advance_to_closing_tag node.

(** *** Running a callback, and [aws_xml_node_traverse] *)

Definition empty_node (body : aws_byte_cursor) : aws_xml_node :=
  {| name := zero_cursor; attributes := []; doc_at_body := body |}.

Fixpoint run_handler (fuel : nat) (a : action) : M bool :=
  fun p =>
    match fuel with
    | O => (OutOfFuel, p)
    | S fuel' =>
        match a with
        | Return b => (AWS_OP_SUCCESS b, p)
        | Node_as_body n k =>
            match aws_xml_node_as_body n p with
            | (Undefined, p') => (Undefined, p')
            | (OutOfFuel, p') => (OutOfFuel, p')
            | (r, p') => run_handler fuel' (k r) (record (Ev_body n r) p')
            end
        | Node_traverse n h k =>
            (* [aws_xml_node_traverse n h]: the push, then the loop *)
            match traverse_loop fuel' n h (set_stack p (h :: cb_stack p)) with
            | (Undefined, p') => (Undefined, p')
            | (OutOfFuel, p') => (OutOfFuel, p')
            | (r, p') => run_handler fuel' (k r) p'
            end
        end
    end

(** The [while (true)] loop of [aws_xml_node_traverse], with the
    [aws_array_list_pop_back] that follows the loop done at the [break]. *)
with traverse_loop (fuel : nat) (node : aws_xml_node)
       (on_node_encountered : handler) : M unit :=
  fun p =>
    match fuel with
    | O => (OutOfFuel, p)
    | S fuel' =>
        match memchr (ptr (doc p)) "<"%byte (len (doc p)) with
        | None => (Undefined, p)
        | Some NULL => (malformed, p)
        | Some next_location =>
            match memchr (ptr (doc p)) ">"%byte (len (doc p)) with
            | None => (Undefined, p)
            | Some NULL => (malformed, p)
            | Some end_location =>
                match load (ptr_add next_location 1) with
                | None => (Undefined, p)
                | Some c =>
                    let parent_closed := Byte.eqb c "/"%byte in
                    let node_name_len :=
                      to_size_t (ptr_diff end_location next_location) in
                    let p1 :=
                      advance_doc
                        (to_size_t (ptr_diff end_location (ptr (doc p)) + 1)) p in
                    if parent_closed
                    then (AWS_OP_SUCCESS tt, set_stack p1 (tl (cb_stack p1)))
                    else
                      let decl_body :=
                        aws_byte_cursor_from_array (ptr_add next_location 1)
                          (to_size_t (node_name_len - 1)) in
                      match s_load_node_decl decl_body (empty_node (doc p1)) with
                      | AWS_OP_SUCCESS next_node =>
                          match run_handler fuel' (on_node_encountered next_node)
                                  (record (Ev_node From_traverse next_node) p1) with
                          | (AWS_OP_SUCCESS false, p2) => (AWS_OP_SUCCESS tt, p2)
                          | (AWS_OP_SUCCESS true, p2) =>
                              match s_advance_to_closing_tag node p2 with
                              | (AWS_OP_SUCCESS _, p3) =>
                                  traverse_loop fuel' node on_node_encountered p3
                              | (AWS_OP_ERR e, p3) => (AWS_OP_ERR e, p3)
                              | (Undefined, p3) => (Undefined, p3)
                              | (OutOfFuel, p3) => (OutOfFuel, p3)
                              end
                          | (AWS_OP_ERR e, p2) => (AWS_OP_ERR e, p2)
                          | (Undefined, p2) => (Undefined, p2)
                          | (OutOfFuel, p2) => (OutOfFuel, p2)
                          end
                      | AWS_OP_ERR e => (AWS_OP_ERR e, p1)
                      | Undefined => (Undefined, p1)
                      | OutOfFuel => (OutOfFuel, p1)
                      end
                end
            end
        end
    end.

(** The dynamic callback stack grows on demand; allocation is taken to
    succeed, so the push never fails. *)
Definition aws_xml_node_traverse (fuel : nat) (node : aws_xml_node)
  (on_node_encountered : handler) : M unit :=
  fun p =>
    traverse_loop fuel node on_node_encountered
      (set_stack p (on_node_encountered :: cb_stack p)).

(** *** [s_node_next_sibling] *)

(** The value the callback returns is not looked at: once the callback is
    back, the call is a success. *)
Definition ignore_return (r : outcome bool * aws_xml_parser)
  : outcome unit * aws_xml_parser :=
  match r with
  | (AWS_OP_SUCCESS _, p) => (AWS_OP_SUCCESS tt, p)
  | (AWS_OP_ERR _, p) => (AWS_OP_SUCCESS tt, p)
  | (Undefined, p) => (Undefined, p)
  | (OutOfFuel, p) => (OutOfFuel, p)
  end.

Definition s_node_next_sibling (fuel : nat) : M unit :=
  fun p =>
    match memchr (ptr (doc p)) "<"%byte (len (doc p)) with
    | None => (Undefined, p)
    | Some NULL => (AWS_OP_SUCCESS tt, p)
    | Some next_location =>
        let p1 :=
          advance_doc (to_size_t (ptr_diff next_location (ptr (doc p)))) p in
        match memchr (ptr (doc p1)) ">"%byte (len (doc p1)) with
        | None => (Undefined, p1)
        | Some NULL => (malformed, p1)
        | Some end_location =>
            let node_name_len :=
              to_size_t (ptr_diff end_location next_location) in
            let p2 :=
              advance_doc
                (to_size_t (ptr_diff end_location (ptr (doc p1)) + 1)) p1 in
            let node_decl_body :=
              aws_byte_cursor_from_array (ptr_add next_location 1)
                (to_size_t (node_name_len - 1)) in
            match s_load_node_decl node_decl_body (empty_node (doc p2)) with
            | AWS_OP_SUCCESS sibling_node =>
                match cb_stack p2 with
                | [] => (Undefined, p2)
                | cb :: _ =>
                    ignore_return
                      (run_handler fuel (cb sibling_node)
                         (record (Ev_node From_next_sibling sibling_node) p2))
                end
            | AWS_OP_ERR e => (AWS_OP_ERR e, p2)
            | Undefined => (Undefined, p2)
            | OutOfFuel => (OutOfFuel, p2)
            end
        end
    end.

(** *** [aws_xml_parser_init] and [aws_xml_parser_parse] *)

Definition aws_xml_parser_init (document : aws_byte_cursor) : aws_xml_parser :=
  {| doc := document; cb_stack := []; trace := [] |}.

(** The loop that burns what precedes the first node. *)
Fixpoint skip_preamble (fuel : nat) : M unit :=
  fun p =>
    match fuel with
    | O => (OutOfFuel, p)
    | S fuel' =>
        if len (doc p) =? 0 then (AWS_OP_SUCCESS tt, p)
        else
          match memchr (ptr (doc p)) "<"%byte (len (doc p)) with
          | None => (Undefined, p)
          | Some NULL => (malformed, p)
          | Some start =>
              match memchr (ptr (doc p)) ">"%byte (len (doc p)) with
              | None => (Undefined, p)
              | Some NULL => (malformed, p)
              | Some location =>
                  let p1 :=
                    advance_doc (to_size_t (ptr_diff start (ptr (doc p)))) p in
                  match load (ptr_add (ptr (doc p1)) 1) with
                  | None => (Undefined, p1)
                  | Some c =>
                      if Byte.eqb c "?"%byte || Byte.eqb c "!"%byte then
                        let advance :=
                          to_size_t (ptr_diff location (ptr (doc p1)) + 1) in
                        skip_preamble fuel' (advance_doc advance p1)
                      else (AWS_OP_SUCCESS tt, p1)
                  end
              end
          end
    end.

Definition aws_xml_parser_parse (fuel : nat) (on_node_encountered : handler)
  : M unit :=
  fun p =>
    let p0 := set_stack p [] in
    match skip_preamble fuel p0 with
    | (AWS_OP_SUCCESS _, p1) =>
        s_node_next_sibling fuel (set_stack p1 (on_node_encountered :: cb_stack p1))
    | (r, p1) => (r, p1)
    end.

End Parser.

(** ** Vocabulary of the statements *)

(** The cursor over a whole buffer, as a caller hands it to
    [aws_xml_parser_init]. *)
Definition whole (b : list byte) : aws_byte_cursor :=
  {| len := Z.of_nat (length b); ptr := Addr 0 |}.

(** The cursor over the bytes [rest] that follow the bytes [pre] in the
    buffer. *)
Definition cur_at (pre rest : list byte) : aws_byte_cursor :=
  {| len := Z.of_nat (length rest); ptr := Addr (Z.of_nat (length pre)) |}.

(** A buffer is an object of at most [SIZE_MAX >> 1] bytes. *)
Definition fits (b : list byte) : Prop :=
  Z.of_nat (length b) <= Z.shiftr SIZE_MAX 1.

(** The text [</name>] that closes a node. *)
Definition closing_tag (nm : list byte) : list byte :=
  bytes "</" ++ nm ++ bytes ">".

(** An element [<name>body</name>]. *)
Definition element (nm body : list byte) : list byte :=
  bytes "<" ++ nm ++ bytes ">" ++ body ++ closing_tag nm.

(** The tokens put back together around the delimiter. *)
Fixpoint join (c : byte) (toks : list (list byte)) : list byte :=
  match toks with
  | [] => []
  | [t] => t
  | t :: ts => t ++ c :: join c ts
  end.

Fixpoint drop_while (pred : byte -> bool) (l : list byte) : list byte :=
  match l with
  | [] => []
  | x :: l' => if pred x then drop_while pred l' else l
  end.

(** The bytes satisfying [pred] removed from both ends. *)
Definition trim_bytes (pred : byte -> bool) (l : list byte) : list byte :=
  rev (drop_while pred (rev (drop_while pred l))).

(** What a declaration token after the name adds to the attribute list, as
    (name, value) byte strings: a token without [=] is an attribute with an
    empty value, a token with one [=] is a pair whose value loses the double
    quotes at its ends, and a token with more [=] adds nothing. *)
Definition attribute_entry (tok : list byte) : list (list byte * list byte) :=
  match split_on "="%byte tok with
  | [n] => [(n, [])]
  | [n; v] => [(n, trim_bytes s_trim_quotes_fn v)]
  | _ => []
  end.

(** The attribute token [key=value]. *)
Definition pair_token (kv : list byte * list byte) : list byte :=
  fst kv ++ "="%byte :: snd kv.

(** An attribute of a node read as (name, value) byte strings. *)
Definition attribute_is (b : list byte) (a : aws_xml_attribute)
  (kv : list byte * list byte) : Prop :=
  cursor_bytes b (att_name a) = Some (fst kv) /\
  cursor_bytes b (att_value a) = Some (snd kv).

(** [c'] is [c] after some bytes were consumed at its front: the end stays,
    the start moves forward, the length goes down. *)
Definition cursor_within (c' c : aws_byte_cursor) : Prop :=
  c' = c \/
  exists n, 0 <= n <= len c /\
            c' = {| len := len c - n; ptr := ptr_add (ptr c) n |}.

(** The same callback with the boolean it returns passed through [f]. *)
Fixpoint map_return (f : bool -> bool) (a : action) : action :=
  match a with
  | Return b => Return (f b)
  | Node_as_body n k => Node_as_body n (fun r => map_return f (k r))
  | Node_traverse n h k => Node_traverse n h (fun r => map_return f (k r))
  end.

Definition is_root_call (e : event) : bool :=
  match e with
  | Ev_node From_next_sibling _ => true
  | _ => false
  end.

Definition is_child_call (e : event) : bool :=
  match e with
  | Ev_node From_traverse _ => true
  | _ => false
  end.

(** How many times the sibling walk invoked the callback on top of the
    stack. *)
Definition root_calls (t : list event) : nat :=
  length (filter is_root_call t).

(** The nodes handed to callbacks by [aws_xml_node_traverse], in order. *)
Fixpoint traversed (t : list event) : list aws_xml_node :=
  match t with
  | [] => []
  | Ev_node From_traverse n :: t' => n :: traversed t'
  | _ :: t' => traversed t'
  end.

(** A call of the public interface. *)
Inductive api_call : Type :=
| Call_parse (h : handler)
| Call_traverse (n : aws_xml_node) (h : handler)
| Call_as_body (n : aws_xml_node).

Definition run_call (b : list byte) (sc ac fuel : nat) (c : api_call)
  (p : aws_xml_parser) : aws_xml_parser :=
  match c with
  | Call_parse h => snd (aws_xml_parser_parse b sc ac fuel h p)
  | Call_traverse n h => snd (aws_xml_node_traverse b sc ac fuel n h p)
  | Call_as_body n => snd (aws_xml_node_as_body b n p)
  end.

Definition run_calls (b : list byte) (sc ac fuel : nat) (cs : list api_call)
  (p : aws_xml_parser) : aws_xml_parser :=
  fold_left (fun q c => run_call b sc ac fuel c q) cs p.

(** Callbacks used in the statements. *)
Definition always (b : bool) : handler := fun _ => Return b.

Definition take_body : handler :=
  fun n => Node_as_body n (fun _ => Return true).

Definition descend (h : handler) : handler :=
  fun n => Node_traverse n h (fun _ => Return true).

(** [doc_within p' p]: the cursor of [p'] is the cursor of [p] moved
    forward. *)
Definition doc_within (p' p : aws_xml_parser) : Prop :=
  cursor_within (doc p') (doc p).

Definition map_outcome {A B : Type} (f : A -> B) (r : outcome A) : outcome B :=
  match r with
  | AWS_OP_SUCCESS a => AWS_OP_SUCCESS (f a)
  | AWS_OP_ERR e => AWS_OP_ERR e
  | Undefined => Undefined
  | OutOfFuel => OutOfFuel
  end.

(** The part of the parser state that the scan reads: the callback stack is
    only pushed and popped. *)
Definition core (p : aws_xml_parser) : aws_byte_cursor * list event :=
  (doc p, trace p).

(** The cursors [curs] are views of the byte strings [toks], in order. *)
Definition views (buf : list byte) (curs : list aws_byte_cursor)
  (toks : list (list byte)) : Prop :=
  Forall2 (fun cur t => cursor_bytes buf cur = Some t) curs toks.

(** [needle] occurs in [l]. *)
Definition occurs (needle l : list byte) : Prop :=
  exists pre post, l = pre ++ needle ++ post.

(** [needle] occurs in [l] at offset [i]. *)
Definition occurs_at (needle l : list byte) (i : nat) : Prop :=
  exists post, skipn i l = needle ++ post.

(** A declaration of the preamble: the text [lead] before it, then [<], the
    byte [mark], the text [inside] and [>]. *)
Record preamble_decl : Type :=
  mk_preamble_decl { lead : list byte; mark : byte; inside : list byte }.

Definition region (r : preamble_decl) : list byte :=
  lead r ++ "<"%byte :: mark r :: inside r ++ [">"%byte].

Definition preamble (rs : list preamble_decl) : list byte :=
  concat (map region rs).

(** The declaration starts with [<?] or [<!] and its first [>] is its
    last byte. *)
Definition is_preamble (r : preamble_decl) : Prop :=
  ~ In "<"%byte (lead r) /\ ~ In ">"%byte (lead r) /\
  (mark r = "?"%byte \/ mark r = "!"%byte) /\
  ~ In ">"%byte (inside r).

(** The first occurrence of [needle] in [l] is at offset [i]. *)
Definition first_occurrence (needle l : list byte) (i : nat) : Prop :=
  occurs_at needle l i /\ forall j, (j < i)%nat -> ~ occurs_at needle l j.

(** The node that the scan decodes from the document [element nm text], and
    the view of [text] in that document. *)
Definition single_node (nm text : list byte) : aws_xml_node :=
  {| name := cur_at (bytes "<") nm;
     attributes := [];
     doc_at_body := cur_at (bytes "<" ++ nm ++ bytes ">") (text ++ closing_tag nm) |}.

Definition single_body (nm text : list byte) : aws_byte_cursor :=
  cur_at (bytes "<" ++ nm ++ bytes ">") text.

(** A name without the bytes that end a token or a tag or open a preamble
    declaration, short enough for the comparison buffer. *)
Definition plain_name (nm : list byte) : Prop :=
  ~ In " "%byte nm /\ ~ In ">"%byte nm /\
  ~ In "?"%byte nm /\ ~ In "!"%byte nm /\
  (length nm <= 256)%nat.

(** The node decoded from the outer tag of [doc_nested], and the body that
    [aws_xml_node_as_body] returns for it. *)
Definition nested_outer : aws_xml_node :=
  {| name := {| len := 1; ptr := Addr 1 |};
     attributes := [];
     doc_at_body := {| len := 16; ptr := Addr 3 |} |}.

Definition nested_body : aws_byte_cursor := {| len := 8; ptr := Addr 3 |}.

(** The node decoded from [doc_unclosed]. *)
Definition unclosed_node : aws_xml_node :=
  {| name := {| len := 1; ptr := Addr 1 |};
     attributes := [];
     doc_at_body := {| len := 4; ptr := Addr 3 |} |}.

(** The node decoded from the tag [<root/>] of [doc_preamble]: its name is
    the five bytes [root/]. *)
Definition preamble_root : aws_xml_node :=
  {| name := {| len := 5; ptr := Addr 22 |};
     attributes := [];
     doc_at_body := {| len := 0; ptr := Addr 28 |} |}.

(** The nodes of [doc_siblings]: the parent [p] and its first child [a]. *)
Definition siblings_parent : aws_xml_node :=
  {| name := {| len := 1; ptr := Addr 1 |};
     attributes := [];
     doc_at_body := {| len := 20; ptr := Addr 3 |} |}.

Definition siblings_first : aws_xml_node :=
  {| name := {| len := 1; ptr := Addr 4 |};
     attributes := [];
     doc_at_body := {| len := 17; ptr := Addr 6 |} |}.

(** The parser inside [aws_xml_node_traverse] on [siblings_parent], when the
    callback has returned true for the child [a]: the cursor is just after
    the tag [<a>]. *)
Definition siblings_after_first : aws_xml_parser :=
  {| doc := {| len := 17; ptr := Addr 6 |};
     cb_stack := [always true];
     trace := [Ev_node From_traverse siblings_first] |}.

(** The node decoded from [doc_closing_first]: its name is [/a]. *)
Definition closing_first_node : aws_xml_node :=
  {| name := {| len := 2; ptr := Addr 1 |};
     attributes := [];
     doc_at_body := {| len := 0; ptr := Addr 4 |} |}.

(** Declarations used as examples: a token without [=], a value between
    single quotes, a value between double quotes. *)
Definition decl_plain : list byte := bytes "a b".
Definition decl_single_quoted : list byte := bytes "a k='v'".
Definition decl_double_quoted : list byte :=
  bytes "a k=" ++ [x22] ++ bytes "v" ++ [x22].

(** The declaration [<?xml version="1.0"?>] of [doc_preamble]. *)
Definition xml_declaration : preamble_decl :=
  {| lead := [];
     mark := "?"%byte;
     inside := bytes "xml version=" ++ [x22] ++ bytes "1.0" ++ [x22] ++ bytes "?" |}.

(** The attributes of a decoded node read as byte strings. *)
Definition attribute_bytes (buf : list byte) (r : outcome aws_xml_node)
  : list (option (list byte) * option (list byte)) :=
  match r with
  | AWS_OP_SUCCESS n =>
      map (fun a => (cursor_bytes buf (att_name a), cursor_bytes buf (att_value a)))
        (attributes n)
  | _ => []
  end.

(** What is left of the document, as a number of bytes. *)
Definition room (p : aws_xml_parser) : nat := Z.to_nat (len (doc p)).

(** The run came to an end within its fuel. *)
Definition finishes {A : Type} (r : outcome A * aws_xml_parser) : Prop :=
  fst r <> OutOfFuel.

(** ** Vocabulary of the further properties *)

(** The number of spaces in a declaration. *)
Definition spaces (d : list byte) : nat :=
  count_occ Byte.byte_eq_dec d " "%byte.

(** The bytes of [l] before its first [c]. *)
Fixpoint before (c : byte) (l : list byte) : list byte :=
  match l with
  | [] => []
  | x :: l' => if Byte.eqb x c then [] else x :: before c l'
  end.

(** [s] is what is left of [s'] when some entries are taken off its top. *)
Definition stack_below (s s' : list handler) : Prop :=
  exists u, s' = u ++ s.

(** A child of a node: the text [child_gap] that precedes it, then
    [<child_tag>child_text</child_tag>]. *)
Record child : Type :=
  mk_child { child_gap : list byte; child_tag : list byte; child_text : list byte }.










(** * Properties *)

Arguments ptr_diff : simpl never.
Arguments ptr_add : simpl never.
Arguments to_size_t : simpl never.
Arguments advance_doc : simpl never.
Arguments aws_byte_cursor_advance : simpl never.

(** ** The cursor only moves forward *)

Lemma ptr_add_0 (p : pointer) : ptr_add p 0 = p.
Proof. destruct p; unfold ptr_add; [reflexivity | f_equal; lia]. Qed.

Lemma ptr_add_add (p : pointer) (a b : Z) :
  ptr_add (ptr_add p a) b = ptr_add p (a + b).
Proof. destruct p; unfold ptr_add; [reflexivity | f_equal; lia]. Qed.

Lemma to_size_t_nonneg (z : Z) : 0 <= to_size_t z.
Proof. unfold to_size_t, SIZE_MAX. apply Z.mod_pos_bound. lia. Qed.

Lemma to_size_t_small (z : Z) : 0 <= z <= SIZE_MAX -> to_size_t z = z.
Proof. unfold to_size_t. intros H. apply Z.mod_small. lia. Qed.

Lemma cursor_within_refl (c : aws_byte_cursor) : cursor_within c c.
Proof. left; reflexivity. Qed.

Lemma cursor_within_trans (c1 c2 c3 : aws_byte_cursor) :
  cursor_within c1 c2 -> cursor_within c2 c3 -> cursor_within c1 c3.
Proof.
  intros [-> | (n & Hn & ->)] [-> | (m & Hm & ->)].
  - left; reflexivity.
  - right; exists m; auto.
  - right; exists n; auto.
  - right; exists (m + n); simpl in *. split; [lia |].
    rewrite ptr_add_add. f_equal; lia.
Qed.

Lemma advance_within (c : aws_byte_cursor) (z : Z) :
  cursor_within (aws_byte_cursor_advance c (to_size_t z)) c.
Proof.
  unfold aws_byte_cursor_advance.
  destruct (_ || _) eqn:E; [left; reflexivity |].
  right. exists (to_size_t z). split; [| reflexivity].
  apply orb_false_iff in E as [_ E].
  pose proof (to_size_t_nonneg z). lia.
Qed.

Lemma doc_within_refl p : doc_within p p.
Proof. apply cursor_within_refl. Qed.

Lemma doc_within_trans p1 p2 p3 :
  doc_within p1 p2 -> doc_within p2 p3 -> doc_within p1 p3.
Proof. apply cursor_within_trans. Qed.

Lemma advance_doc_within z p : doc_within (advance_doc (to_size_t z) p) p.
Proof. apply advance_within. Qed.

Lemma closing_tag_within buf node p :
  doc_within (snd (s_advance_to_closing_tag buf node p)) p.
Proof.
  unfold s_advance_to_closing_tag.
  repeat match goal with
         | |- context [match ?x with _ => _ end] => destruct x
         | |- context [if ?x then _ else _] => destruct x
         end; simpl; try apply doc_within_refl.
  apply advance_doc_within.
Qed.

Create HintDb within.
#[local] Hint Resolve doc_within_refl advance_doc_within closing_tag_within : within.

Lemma handler_and_loop_within buf sc ac fuel :
  (forall a p, doc_within (snd (run_handler buf sc ac fuel a p)) p) /\
  (forall node h p, doc_within (snd (traverse_loop buf sc ac fuel node h p)) p).
Proof.
  induction fuel as [| fuel [IHh IHt]]; [split; intros; apply doc_within_refl |].
  split.
  - intros a p. simpl. destruct a as [b | n k | n h k].
    + apply doc_within_refl.
    + pose proof (closing_tag_within buf n p) as Hb.
      unfold aws_xml_node_as_body.
      destruct (s_advance_to_closing_tag buf n p) as [r p']; simpl in Hb.
      destruct r; cbn [snd]; auto;
        (eapply doc_within_trans; [apply IHh | exact Hb]).
    + pose proof (IHt n h (set_stack p (h :: cb_stack p))) as Ht.
      destruct (traverse_loop _ _ _ _ _ _ _) as [r p']; simpl in Ht.
      destruct r; cbn [snd]; auto;
        (eapply doc_within_trans; [apply IHh | exact Ht]).
  - intros node h p. simpl.
    destruct (memchr buf _ _ _) as [[| nl] |]; cbn [snd]; auto with within.
    destruct (memchr buf _ _ _) as [[| el] |]; cbn [snd]; auto with within.
    destruct (load buf _); cbn [snd]; auto with within.
    set (p1 := advance_doc _ p).
    assert (H1 : doc_within p1 p) by apply advance_doc_within.
    destruct (Byte.eqb _ _); simpl; [exact H1 |].
    destruct (s_load_node_decl _ _ _ _ _) as [next_node | | |]; cbn [snd]; auto.
    pose proof (IHh (h next_node) (record (Ev_node From_traverse next_node) p1)) as H2.
    destruct (run_handler _ _ _ _ _ _) as [r p2]; simpl in H2.
    assert (H12 : doc_within p2 p) by (eapply doc_within_trans; eauto).
    destruct r as [[|] | | |]; cbn [snd]; auto.
    pose proof (closing_tag_within buf node p2) as H3.
    destruct (s_advance_to_closing_tag buf node p2) as [r3 p3]; simpl in H3.
    assert (H13 : doc_within p3 p) by (eapply doc_within_trans; eauto).
    destruct r3; cbn [snd]; auto.
    eapply doc_within_trans; [apply IHt | exact H13].
Qed.

Lemma traverse_within buf sc ac fuel node h p :
  doc_within (snd (aws_xml_node_traverse buf sc ac fuel node h p)) p.
Proof.
  unfold aws_xml_node_traverse.
  apply (proj2 (handler_and_loop_within buf sc ac fuel) node h
           (set_stack p (h :: cb_stack p))).
Qed.

Lemma next_sibling_within buf sc ac fuel p :
  doc_within (snd (s_node_next_sibling buf sc ac fuel p)) p.
Proof.
  unfold s_node_next_sibling.
  destruct (memchr buf _ _ _) as [[| nl] |]; cbn [snd]; auto with within.
  set (p1 := advance_doc _ p).
  assert (H1 : doc_within p1 p) by apply advance_doc_within.
  destruct (memchr buf _ _ _) as [[| el] |]; cbn [snd]; auto.
  set (p2 := advance_doc _ p1).
  assert (H2 : doc_within p2 p).
  { eapply doc_within_trans; [apply advance_doc_within | exact H1]. }
  destruct (s_load_node_decl _ _ _ _ _) as [sibling | | |]; cbn [snd]; auto.
  destruct (cb_stack p2) as [| cb stack] eqn:Hs; cbn [snd]; auto.
  pose proof (proj1 (handler_and_loop_within buf sc ac fuel) (cb sibling)
                (record (Ev_node From_next_sibling sibling) p2)) as H3.
  destruct (run_handler _ _ _ _ _ _) as [r p3]; simpl in H3.
  assert (H13 : doc_within p3 p) by (eapply doc_within_trans; eauto).
  destruct r; cbn [snd ignore_return]; auto.
Qed.

Lemma skip_preamble_within buf fuel p :
  doc_within (snd (skip_preamble buf fuel p)) p.
Proof.
  revert p. induction fuel as [| fuel IH]; intros p; [apply doc_within_refl | simpl].
  destruct (len (doc p) =? 0); cbn [snd]; auto with within.
  destruct (memchr buf _ _ _) as [[| st] |]; cbn [snd]; auto with within.
  destruct (memchr buf _ _ _) as [[| loc] |]; cbn [snd]; auto with within.
  set (p1 := advance_doc _ p).
  assert (H1 : doc_within p1 p) by apply advance_doc_within.
  destruct (load buf _); cbn [snd]; auto.
  destruct (_ || _); cbn [snd]; auto.
  eapply doc_within_trans; [apply IH |].
  eapply doc_within_trans; [apply advance_doc_within | exact H1].
Qed.

Lemma parse_within buf sc ac fuel h p :
  doc_within (snd (aws_xml_parser_parse buf sc ac fuel h p)) p.
Proof.
  unfold aws_xml_parser_parse.
  pose proof (skip_preamble_within buf fuel (set_stack p [])) as H1.
  destruct (skip_preamble buf fuel (set_stack p [])) as [r p1]; simpl in H1.
  destruct r; cbn [snd]; auto.
  eapply doc_within_trans; [apply next_sibling_within | exact H1].
Qed.

Lemma run_call_within buf sc ac fuel c p :
  doc_within (run_call buf sc ac fuel c p) p.
Proof.
  destruct c; simpl.
  - apply parse_within.
  - apply traverse_within.
  - apply closing_tag_within.
Qed.

Lemma run_calls_within buf sc ac fuel cs p :
  doc_within (run_calls buf sc ac fuel cs p) p.
Proof.
  revert p. induction cs as [| c cs IH]; intros p; simpl.
  - apply doc_within_refl.
  - eapply doc_within_trans; [apply IH | apply run_call_within].
Qed.

(** ** The boolean returned by the root callback is dropped *)

Lemma run_handler_map_return buf sc ac f fuel :
  forall a p,
    run_handler buf sc ac fuel (map_return f a) p =
    (map_outcome f (fst (run_handler buf sc ac fuel a p)),
     snd (run_handler buf sc ac fuel a p)).
Proof.
  induction fuel as [| fuel IH]; intros a p; [reflexivity |].
  destruct a as [b | n k | n h k]; simpl.
  - reflexivity.
  - destruct (aws_xml_node_as_body buf n p) as [[body | e | |] p'];
      try reflexivity; apply IH.
  - destruct (traverse_loop _ _ _ _ _ _ _) as [[u | e | |] p'];
      try reflexivity; apply IH.
Qed.

Lemma closing_tag_core buf node p q :
  core p = core q ->
  fst (s_advance_to_closing_tag buf node p) = fst (s_advance_to_closing_tag buf node q) /\
  core (snd (s_advance_to_closing_tag buf node p)) =
  core (snd (s_advance_to_closing_tag buf node q)).
Proof.
  destruct p as [d s1 t], q as [d' s2 t']. unfold core; simpl.
  intros [= <- <-]. unfold s_advance_to_closing_tag.
  repeat match goal with
         | |- context [match ?x with _ => _ end] => destruct x
         | |- context [if ?x then _ else _] => destruct x
         end; simpl; auto.
Qed.

Lemma handler_and_loop_core buf sc ac fuel :
  (forall a p q,
      core p = core q ->
      fst (run_handler buf sc ac fuel a p) = fst (run_handler buf sc ac fuel a q) /\
      core (snd (run_handler buf sc ac fuel a p)) =
      core (snd (run_handler buf sc ac fuel a q))) /\
  (forall node h p q,
      core p = core q ->
      fst (traverse_loop buf sc ac fuel node h p) =
      fst (traverse_loop buf sc ac fuel node h q) /\
      core (snd (traverse_loop buf sc ac fuel node h p)) =
      core (snd (traverse_loop buf sc ac fuel node h q))).
Proof.
  induction fuel as [| fuel [IHh IHt]]; [split; intros; simpl; auto |].
  split.
  - intros a p q Hpq. simpl. destruct a as [b | n k | n h k].
    + simpl; auto.
    + destruct (closing_tag_core buf n p q Hpq) as [Hr Hc].
      unfold aws_xml_node_as_body.
      destruct (s_advance_to_closing_tag buf n p) as [r p'],
               (s_advance_to_closing_tag buf n q) as [r' q'].
      simpl in Hr, Hc. subst r'.
      destruct r; simpl; auto; apply IHh;
        unfold core in *; simpl; congruence.
    + assert (Hs : core (set_stack p (h :: cb_stack p)) =
                   core (set_stack q (h :: cb_stack q))) by exact Hpq.
      destruct (IHt n h _ _ Hs) as [Hr Hc].
      destruct (traverse_loop _ _ _ _ _ _ (set_stack p _)) as [r p'],
               (traverse_loop _ _ _ _ _ _ (set_stack q _)) as [r' q'].
      simpl in Hr, Hc. subst r'.
      destruct r; simpl; auto.
  - intros node h p q Hpq. simpl.
    assert (Hd : doc p = doc q) by (unfold core in Hpq; congruence).
    rewrite <- Hd.
    destruct (memchr buf _ _ _) as [[| nl] |]; simpl; auto.
    destruct (memchr buf _ _ _) as [[| el] |]; simpl; auto.
    destruct (load buf _); simpl; auto.
    set (n1 := to_size_t (ptr_diff _ _ + 1)).
    assert (H1 : core (advance_doc n1 p) = core (advance_doc n1 q)).
    { unfold core, advance_doc in *; simpl; congruence. }
    destruct (Byte.eqb _ _); simpl.
    { split; [reflexivity | exact H1]. }
    assert (Hd1 : doc (advance_doc n1 p) = doc (advance_doc n1 q)).
    { unfold core in H1; congruence. }
    try rewrite <- Hd1.
    destruct (s_load_node_decl _ _ _ _ _) as [next_node | | |]; simpl; auto.
    assert (H2 : core (record (Ev_node From_traverse next_node) (advance_doc n1 p)) =
                 core (record (Ev_node From_traverse next_node) (advance_doc n1 q))).
    { unfold core in *; simpl; congruence. }
    destruct (IHh (h next_node) _ _ H2) as [Hr Hc].
    destruct (run_handler _ _ _ _ _ (record _ (advance_doc n1 p))) as [r p2],
             (run_handler _ _ _ _ _ (record _ (advance_doc n1 q))) as [r' q2].
    simpl in Hr, Hc. subst r'.
    destruct r as [[|] | | |]; simpl; auto.
    destruct (closing_tag_core buf node p2 q2 Hc) as [Hr3 Hc3].
    destruct (s_advance_to_closing_tag buf node p2) as [r3 p3],
             (s_advance_to_closing_tag buf node q2) as [r3' q3].
    simpl in Hr3, Hc3. subst r3'.
    destruct r3; simpl; auto.
Qed.

Lemma skip_preamble_core buf fuel :
  forall p q,
    core p = core q ->
    fst (skip_preamble buf fuel p) = fst (skip_preamble buf fuel q) /\
    core (snd (skip_preamble buf fuel p)) = core (snd (skip_preamble buf fuel q)).
Proof.
  induction fuel as [| fuel IH]; intros p q Hpq; simpl; auto.
  assert (Hd : doc p = doc q) by (unfold core in Hpq; congruence).
  rewrite <- Hd.
  destruct (len (doc p) =? 0); simpl; auto.
  destruct (memchr buf _ _ _) as [[| st] |]; simpl; auto.
  destruct (memchr buf _ _ _) as [[| loc] |]; simpl; auto.
  set (n1 := to_size_t (ptr_diff _ _)).
  assert (H1 : core (advance_doc n1 p) = core (advance_doc n1 q)).
  { unfold core, advance_doc in *; simpl; congruence. }
  assert (Hd1 : doc (advance_doc n1 p) = doc (advance_doc n1 q)).
  { unfold core in H1; congruence. }
  try rewrite <- Hd1.
  destruct (load buf _); simpl; auto.
  destruct (_ || _); simpl; auto.
  apply IH. unfold core, advance_doc in *; simpl; congruence.
Qed.

(** Events of the sibling walk come from the sibling walk only. *)
Lemma root_calls_app t e :
  root_calls (t ++ [e]) = (root_calls t + (if is_root_call e then 1 else 0))%nat.
Proof.
  unfold root_calls. rewrite filter_app, length_app. simpl.
  destruct (is_root_call e); reflexivity.
Qed.

Lemma closing_tag_trace buf node p :
  trace (snd (s_advance_to_closing_tag buf node p)) = trace p.
Proof.
  unfold s_advance_to_closing_tag.
  repeat match goal with
         | |- context [match ?x with _ => _ end] => destruct x
         | |- context [if ?x then _ else _] => destruct x
         end; reflexivity.
Qed.

Lemma handler_and_loop_root_calls buf sc ac fuel :
  (forall a p,
      root_calls (trace (snd (run_handler buf sc ac fuel a p))) = root_calls (trace p)) /\
  (forall node h p,
      root_calls (trace (snd (traverse_loop buf sc ac fuel node h p))) =
      root_calls (trace p)).
Proof.
  induction fuel as [| fuel [IHh IHt]]; [split; intros; reflexivity |].
  split.
  - intros a p. simpl. destruct a as [b | n k | n h k].
    + reflexivity.
    + pose proof (closing_tag_trace buf n p) as Hb.
      unfold aws_xml_node_as_body.
      destruct (s_advance_to_closing_tag buf n p) as [r p']; simpl in Hb.
      destruct r; simpl; try (rewrite Hb; reflexivity);
        rewrite IHh; simpl; rewrite root_calls_app, Hb; simpl; lia.
    + pose proof (IHt n h (set_stack p (h :: cb_stack p))) as Ht.
      destruct (traverse_loop _ _ _ _ _ _ _) as [r p']; simpl in Ht.
      destruct r; simpl; auto; rewrite IHh; exact Ht.
  - intros node h p. simpl.
    destruct (memchr buf _ _ _) as [[| nl] |]; simpl; auto.
    destruct (memchr buf _ _ _) as [[| el] |]; simpl; auto.
    destruct (load buf _); simpl; auto.
    destruct (Byte.eqb _ _); simpl; auto.
    destruct (s_load_node_decl _ _ _ _ _) as [next_node | | |]; simpl; auto.
    match goal with
    | |- context [run_handler _ _ _ _ ?a ?q] =>
        pose proof (IHh a q) as H2; destruct (run_handler buf sc ac fuel a q) as [r p2]
    end.
    simpl in H2. rewrite root_calls_app in H2. simpl in H2.
    rewrite Nat.add_0_r in H2.
    destruct r as [[|] | | |]; simpl; auto.
    pose proof (closing_tag_trace buf node p2) as H3.
    destruct (s_advance_to_closing_tag buf node p2) as [r3 p3]; simpl in H3.
    destruct r3; simpl; [rewrite IHt | | |]; congruence.
Qed.

Lemma skip_preamble_trace buf fuel :
  forall p, trace (snd (skip_preamble buf fuel p)) = trace p.
Proof.
  induction fuel as [| fuel IH]; intros p; simpl; auto.
  repeat match goal with
         | |- context [match ?x with _ => _ end] => destruct x
         | |- context [if ?x then _ else _] => destruct x
         end; simpl; auto.
  rewrite IH. reflexivity.
Qed.

Lemma next_sibling_root_calls buf sc ac fuel p :
  (root_calls (trace (snd (s_node_next_sibling buf sc ac fuel p)))
   <= root_calls (trace p) + 1)%nat /\
  match fst (s_node_next_sibling buf sc ac fuel p) with
  | AWS_OP_ERR _ => trace (snd (s_node_next_sibling buf sc ac fuel p)) = trace p
  | _ => True
  end.
Proof.
  unfold s_node_next_sibling.
  destruct (memchr buf _ _ _) as [[| nl] |]; simpl; try (split; [lia | auto]).
  destruct (memchr buf _ _ _) as [[| el] |]; simpl; try (split; [lia | auto]).
  destruct (s_load_node_decl _ _ _ _ _) as [sibling | | |]; simpl;
    try (split; [lia | auto]).
  destruct (cb_stack p) as [| cb stack]; simpl; try (split; [lia | auto]).
  match goal with
  | |- context [run_handler _ _ _ _ ?a ?q] =>
      pose proof (proj1 (handler_and_loop_root_calls buf sc ac fuel) a q) as H;
      destruct (run_handler buf sc ac fuel a q) as [r p3]
  end.
  simpl in H. rewrite root_calls_app in H. simpl in H.
  destruct r; simpl; split; auto; lia.
Qed.

Lemma next_sibling_map_return buf sc ac fuel h f stack stack' p :
  let r := s_node_next_sibling buf sc ac fuel (set_stack p (h :: stack)) in
  let r' :=
    s_node_next_sibling buf sc ac fuel
      (set_stack p ((fun n => map_return f (h n)) :: stack')) in
  fst r' = fst r /\ core (snd r') = core (snd r).
Proof.
  unfold s_node_next_sibling. simpl.
  destruct (memchr buf _ _ _) as [[| nl] |]; simpl; auto.
  destruct (memchr buf _ _ _) as [[| el] |]; simpl; auto.
  destruct (s_load_node_decl _ _ _ _ _) as [sibling | | |]; simpl; auto.
  rewrite run_handler_map_return.
  match goal with
  | |- context [run_handler _ _ _ _ ?a ?q'] =>
      match goal with
      | |- context [run_handler _ _ _ _ a ?q] =>
          tryif constr_eq q q' then fail else
            destruct (proj1 (handler_and_loop_core buf sc ac fuel) a q' q
                        eq_refl) as [Hr Hc]
      end
  end.
  simpl in Hr, Hc.
  match type of Hr with
  | fst ?x = fst ?y => destruct x as [r' p'], y as [r p3]
  end.
  simpl in *. subst r'. destruct r; simpl; auto.
Qed.

(** ** Reading the buffer *)

Lemma slice_app buf pre mid post :
  buf = pre ++ mid ++ post ->
  slice buf (Addr (Z.of_nat (length pre))) (Z.of_nat (length mid)) = Some mid.
Proof.
  intros ->. unfold slice.
  destruct (Z.of_nat (length mid) =? 0) eqn:E.
  - apply Z.eqb_eq in E. destruct mid; [reflexivity | simpl in E; lia].
  - rewrite !length_app.
    replace (_ && _ && _) with true.
    + rewrite !Nat2Z.id, skipn_app, skipn_all, Nat.sub_diag. simpl.
      rewrite firstn_app, firstn_all, Nat.sub_diag. simpl.
      rewrite app_nil_r. reflexivity.
    + symmetry. rewrite !andb_true_iff, !Z.leb_le. lia.
Qed.

Lemma slice_inv buf p n l :
  slice buf p n = Some l ->
  n = Z.of_nat (length l) /\
  (l = [] \/
   exists pre post, p = Addr (Z.of_nat (length pre)) /\ buf = pre ++ l ++ post).
Proof.
  unfold slice. destruct (n =? 0) eqn:E.
  - apply Z.eqb_eq in E. intros [= <-]. auto.
  - destruct p as [| a]; [discriminate |].
    destruct (_ && _ && _) eqn:C; [| discriminate].
    rewrite !andb_true_iff, !Z.leb_le in C. destruct C as [[Ha Hn] Hl].
    intros [= <-].
    assert (Hlen : length (firstn (Z.to_nat n) (skipn (Z.to_nat a) buf)) = Z.to_nat n).
    { rewrite length_firstn, length_skipn. lia. }
    split; [lia |]. right.
    exists (firstn (Z.to_nat a) buf), (skipn (Z.to_nat n) (skipn (Z.to_nat a) buf)).
    split.
    + rewrite length_firstn. f_equal. lia.
    + rewrite firstn_skipn. rewrite firstn_skipn. reflexivity.
Qed.

Lemma slice_length buf p n l : slice buf p n = Some l -> n = Z.of_nat (length l).
Proof. intros H. apply slice_inv in H. tauto. Qed.

Lemma slice_sub buf p n a t b :
  slice buf p n = Some (a ++ t ++ b) ->
  slice buf (ptr_add p (Z.of_nat (length a))) (Z.of_nat (length t)) = Some t.
Proof.
  intros H. destruct t as [| x t]; [reflexivity |].
  apply slice_inv in H as [_ [H | (pre & post & -> & Hb)]].
  - destruct a; discriminate.
  - unfold ptr_add. rewrite <- Nat2Z.inj_add, <- length_app.
    apply slice_app with (post := b ++ post).
    rewrite Hb, <- !app_assoc. reflexivity.
Qed.

Lemma cursor_bytes_cur_at buf pre rest post :
  buf = pre ++ rest ++ post -> cursor_bytes buf (cur_at pre rest) = Some rest.
Proof. intros H. unfold cursor_bytes, cur_at; simpl. eapply slice_app; eauto. Qed.

Lemma load_at buf pre c rest :
  buf = pre ++ c :: rest -> load buf (Addr (Z.of_nat (length pre))) = Some c.
Proof.
  intros H. unfold load.
  pose proof (slice_app buf pre [c] rest H) as E. simpl in E.
  rewrite E. reflexivity.
Qed.

Lemma index_of_notin c l : ~ In c l -> index_of c l = None.
Proof.
  induction l as [| x l IH]; simpl; intros H; [reflexivity |].
  destruct (Byte.eqb x c) eqn:E.
  - apply Byte.byte_dec_bl in E. tauto.
  - rewrite IH; tauto.
Qed.

Lemma index_of_first c l1 l2 :
  ~ In c l1 -> index_of c (l1 ++ c :: l2) = Some (length l1).
Proof.
  induction l1 as [| x l1 IH]; simpl; intros H.
  - rewrite Byte.byte_dec_lb; reflexivity.
  - destruct (Byte.eqb x c) eqn:E.
    + apply Byte.byte_dec_bl in E. tauto.
    + rewrite IH; tauto.
Qed.

Lemma memchr_first buf pre l1 c l2 post :
  buf = pre ++ (l1 ++ c :: l2) ++ post ->
  ~ In c l1 ->
  memchr buf (Addr (Z.of_nat (length pre))) c (Z.of_nat (length (l1 ++ c :: l2))) =
  Some (Addr (Z.of_nat (length pre) + Z.of_nat (length l1))).
Proof.
  intros H Hn. unfold memchr.
  rewrite (slice_app buf pre _ post H), index_of_first by assumption.
  reflexivity.
Qed.

Lemma memchr_none buf pre l c post :
  buf = pre ++ l ++ post ->
  ~ In c l ->
  memchr buf (Addr (Z.of_nat (length pre))) c (Z.of_nat (length l)) = Some NULL.
Proof.
  intros H Hn. unfold memchr.
  rewrite (slice_app buf pre _ post H), index_of_notin by assumption.
  reflexivity.
Qed.

(** ** Arithmetic on [size_t] *)

Lemma half_size_max : Z.shiftr SIZE_MAX 1 = 9223372036854775807.
Proof. reflexivity. Qed.

Lemma size_max_val : SIZE_MAX = 18446744073709551615.
Proof. reflexivity. Qed.

Lemma to_size_t_fits buf (z : Z) :
  fits buf -> 0 <= z <= Z.of_nat (length buf) + 259 -> to_size_t z = z.
Proof.
  unfold fits. rewrite half_size_max. intros Hf Hz.
  apply to_size_t_small. rewrite size_max_val. lia.
Qed.

Lemma advance_cur_at buf pre l1 l2 (z : Z) :
  fits buf ->
  (length (pre ++ l1 ++ l2) <= length buf)%nat ->
  z = Z.of_nat (length l1) ->
  aws_byte_cursor_advance (cur_at pre (l1 ++ l2)) (to_size_t z) = cur_at (pre ++ l1) l2.
Proof.
  intros Hf Hl ->. rewrite !length_app in Hl.
  rewrite (to_size_t_fits buf) by (auto; lia).
  unfold fits in Hf. rewrite half_size_max in Hf.
  unfold aws_byte_cursor_advance, cur_at. simpl len. simpl ptr.
  rewrite half_size_max, !length_app.
  replace (_ || _ || _) with false.
  - unfold ptr_add. f_equal; [lia | f_equal; lia].
  - symmetry. rewrite !orb_false_iff, !Z.gtb_ltb, !Z.ltb_ge. lia.
Qed.

(** ** Splitting and trimming *)

Lemma split_on_not_nil c l : split_on c l <> [].
Proof.
  destruct l as [| x l]; simpl; [discriminate |].
  destruct (Byte.eqb x c); [discriminate |].
  destruct (split_on c l); discriminate.
Qed.

Lemma join_cons c t ts :
  ts <> [] -> join c (t :: ts) = t ++ c :: join c ts.
Proof. destruct ts; [congruence | reflexivity]. Qed.

Lemma join_split_on c l : join c (split_on c l) = l.
Proof.
  induction l as [| x l IH]; [reflexivity |].
  simpl. destruct (Byte.eqb x c) eqn:E.
  - apply Byte.byte_dec_bl in E. subst x.
    rewrite join_cons by apply split_on_not_nil. simpl. congruence.
  - pose proof (split_on_not_nil c l) as Hn.
    destruct (split_on c l) as [| t ts]; [congruence |].
    destruct ts as [| t' ts]; simpl in *; congruence.
Qed.

Lemma split_on_notin c l : ~ In c l -> split_on c l = [l].
Proof.
  induction l as [| x l IH]; simpl; intros H; [reflexivity |].
  destruct (Byte.eqb x c) eqn:E.
  - apply Byte.byte_dec_bl in E. tauto.
  - rewrite IH by tauto. reflexivity.
Qed.

Lemma split_on_app c l1 l2 :
  ~ In c l1 -> split_on c (l1 ++ c :: l2) = l1 :: split_on c l2.
Proof.
  induction l1 as [| x l1 IH]; simpl; intros H.
  - rewrite Byte.byte_dec_lb; reflexivity.
  - destruct (Byte.eqb x c) eqn:E.
    + apply Byte.byte_dec_bl in E. tauto.
    + rewrite IH by tauto. reflexivity.
Qed.

(** Splitting the joined tokens gives the tokens back when none of them
    holds the delimiter. *)
Lemma split_on_join c toks :
  toks <> [] ->
  Forall (fun t => ~ In c t) toks ->
  split_on c (join c toks) = toks.
Proof.
  induction toks as [| t ts IH]; [congruence |].
  intros _ H. inversion H as [| ? ? Ht Hts]; subst.
  destruct ts as [| t' ts].
  - simpl. apply split_on_notin. assumption.
  - rewrite join_cons by discriminate.
    rewrite split_on_app by assumption.
    rewrite IH; [reflexivity | discriminate | assumption].
Qed.

Lemma cursors_of_views buf c toks :
  forall a b p n,
    slice buf p n = Some (a ++ join c toks ++ b) ->
    views buf (cursors_of (ptr_add p (Z.of_nat (length a))) toks) toks.
Proof.
  induction toks as [| t ts IH]; intros a b p n H; simpl; [constructor |].
  destruct ts as [| t' ts].
  - constructor; [| constructor].
    unfold cursor_bytes; simpl. eapply slice_sub. exact H.
  - rewrite join_cons in H by discriminate.
    constructor.
    + unfold cursor_bytes; simpl. eapply slice_sub with (b := (c :: join c (t' :: ts)) ++ b).
      rewrite <- app_assoc in H. exact H.
    + rewrite ptr_add_add.
      replace (Z.of_nat (length a) + (Z.of_nat (length t) + 1))
        with (Z.of_nat (length (a ++ t ++ [c]))) by (rewrite !length_app; simpl; lia).
      apply (IH (a ++ t ++ [c]) b p n).
      rewrite H, <- !app_assoc. reflexivity.
Qed.

Lemma split_on_char_spec buf input c capacity l :
  cursor_bytes buf input = Some l ->
  exists curs,
    views buf curs (split_on c l) /\
    aws_byte_cursor_split_on_char buf input c capacity =
    Some (firstn capacity curs, (length (split_on c l) <=? capacity)%nat).
Proof.
  intros H. unfold aws_byte_cursor_split_on_char. rewrite H.
  exists (cursors_of (ptr input) (split_on c l)).
  assert (Hv : views buf (cursors_of (ptr input) (split_on c l)) (split_on c l)).
  { rewrite <- (ptr_add_0 (ptr input)).
    apply (cursors_of_views buf c (split_on c l) [] [] (ptr input) (len input)).
    simpl. rewrite app_nil_r, join_split_on. exact H. }
  split; [exact Hv |].
  rewrite (Forall2_length Hv). reflexivity.
Qed.

Lemma count_while_le pred l : (count_while pred l <= length l)%nat.
Proof.
  induction l as [| x l IH]; simpl; [lia |].
  destruct (pred x); simpl; lia.
Qed.

Lemma drop_while_skipn pred l : drop_while pred l = skipn (count_while pred l) l.
Proof.
  induction l as [| x l IH]; simpl; [reflexivity |].
  destruct (pred x); simpl; auto.
Qed.

Lemma trim_bytes_firstn pred l :
  let nl := count_while pred l in
  let nr := count_while pred (rev (skipn nl l)) in
  trim_bytes pred l = firstn (length l - nl - nr) (skipn nl l).
Proof.
  cbv zeta. unfold trim_bytes.
  rewrite !drop_while_skipn, skipn_rev, rev_involutive, length_skipn.
  reflexivity.
Qed.

Lemma trim_pred_spec buf cur pred v :
  cursor_bytes buf cur = Some v ->
  exists cur',
    aws_byte_cursor_trim_pred buf cur pred = Some cur' /\
    cursor_bytes buf cur' = Some (trim_bytes pred v).
Proof.
  intros H. unfold aws_byte_cursor_trim_pred. rewrite H.
  eexists; split; [reflexivity |].
  set (nl := count_while pred v).
  set (nr := count_while pred (rev (skipn nl v))).
  pose proof (count_while_le pred v) as Hl. fold nl in Hl.
  pose proof (count_while_le pred (rev (skipn nl v))) as Hr. fold nr in Hr.
  rewrite length_rev, length_skipn in Hr.
  pose proof (trim_bytes_firstn pred v) as Ht. cbv zeta in Ht.
  fold nl nr in Ht.
  unfold cursor_bytes in *; simpl.
  pose proof (slice_length _ _ _ _ H) as Hlen.
  assert (Hsplit : v = firstn nl v ++ trim_bytes pred v ++
                         skipn (length v - nl - nr) (skipn nl v)).
  { rewrite Ht, firstn_skipn, firstn_skipn. reflexivity. }
  rewrite Hsplit in H.
  apply slice_sub in H.
  rewrite length_firstn in H.
  replace (Nat.min nl (length v)) with nl in H by lia.
  replace (length (trim_bytes pred v)) with (length v - nl - nr)%nat in H.
  - replace (len cur - Z.of_nat nl - Z.of_nat nr)
      with (Z.of_nat (length v - nl - nr)) by lia.
    exact H.
  - rewrite Ht, length_firstn, length_skipn. lia.
Qed.

(** ** Decoding a declaration *)

Lemma zero_cursor_bytes buf : cursor_bytes buf zero_cursor = Some [].
Proof. reflexivity. Qed.

Lemma firstn_app_exact {A : Type} (l1 l2 : list A) :
  firstn (length l1) (l1 ++ l2) = l1.
Proof.
  rewrite firstn_app, Nat.sub_diag, firstn_all. simpl. apply app_nil_r.
Qed.

Lemma load_attributes_spec buf ac pairs toks :
  views buf pairs toks ->
  forall atts0 es0,
    Forall2 (attribute_is buf) atts0 es0 ->
    (length es0 <= ac)%nat ->
    exists atts,
      load_attributes buf ac pairs atts0 = Some atts /\
      Forall2 (attribute_is buf) atts
        (firstn ac (es0 ++ flat_map attribute_entry toks)).
Proof.
  induction 1 as [| cur t pairs toks Hcur Hrest IH]; intros atts0 es0 H0 Hcap.
  - simpl. exists atts0. split; [reflexivity |].
    rewrite app_nil_r, firstn_all2 by assumption. exact H0.
  - simpl load_attributes.
    destruct (split_on_char_spec buf cur "="%byte 2 t Hcur) as (curs & Hv & ->).
    unfold attribute_entry. simpl flat_map.
    pose proof (split_on_not_nil "="%byte t) as Hne.
    destruct (split_on "="%byte t) as [| n [| v [| w ws]]]; [congruence | | |].
    + (* no [=] in the token *)
      inversion Hv as [| c0 ? ? ? Hc0 Hnil]; subst. inversion Hnil; subst.
      simpl. unfold push_back_static.
      pose proof (Forall2_length H0) as Hl.
      destruct (length atts0 <? ac)%nat eqn:E.
      * apply Nat.ltb_lt in E.
        destruct (IH (atts0 ++ [{| att_name := c0; att_value := zero_cursor |}])
                    (es0 ++ [(n, [])])) as (atts & Ha & Hf).
        { apply Forall2_app; [exact H0 |].
          constructor; [| constructor]. split; [exact Hc0 | reflexivity]. }
        { rewrite length_app; simpl; lia. }
        exists atts. split; [exact Ha |].
        rewrite <- app_assoc in Hf. exact Hf.
      * apply Nat.ltb_ge in E.
        destruct (IH atts0 es0 H0 Hcap) as (atts & Ha & Hf).
        exists atts. split; [exact Ha |].
        assert (Hes : length es0 = ac) by lia.
        rewrite <- Hes, firstn_app_exact in *. exact Hf.
    + (* one [=] *)
      inversion Hv as [| c0 ? ? ? Hc0 Hv1]; subst.
      inversion Hv1 as [| c1 ? ? ? Hc1 Hnil]; subst. inversion Hnil; subst.
      simpl.
      destruct (trim_pred_spec buf c1 s_trim_quotes_fn v Hc1) as (v' & -> & Hv').
      unfold push_back_static.
      pose proof (Forall2_length H0) as Hl.
      destruct (length atts0 <? ac)%nat eqn:E.
      * apply Nat.ltb_lt in E.
        destruct (IH (atts0 ++ [{| att_name := c0; att_value := v' |}])
                    (es0 ++ [(n, trim_bytes s_trim_quotes_fn v)])) as (atts & Ha & Hf).
        { apply Forall2_app; [exact H0 |].
          constructor; [| constructor]. split; [exact Hc0 | exact Hv']. }
        { rewrite length_app; simpl; lia. }
        exists atts. split; [exact Ha |].
        rewrite <- app_assoc in Hf. exact Hf.
      * apply Nat.ltb_ge in E.
        destruct (IH atts0 es0 H0 Hcap) as (atts & Ha & Hf).
        exists atts. split; [exact Ha |].
        assert (Hes : length es0 = ac) by lia.
        rewrite <- Hes, firstn_app_exact in *. exact Hf.
    + (* two or more [=]: the split fails and the token is skipped *)
      simpl. apply IH; assumption.
Qed.

Lemma s_load_node_decl_spec buf sc ac decl body d :
  cursor_bytes buf decl = Some d ->
  (length (split_on " "%byte d) <= sc)%nat ->
  exists node,
    s_load_node_decl buf sc ac decl (empty_node body) = AWS_OP_SUCCESS node /\
    cursor_bytes buf (name node) = Some (hd [] (split_on " "%byte d)) /\
    doc_at_body node = body /\
    Forall2 (attribute_is buf) (attributes node)
      (firstn ac (flat_map attribute_entry (tl (split_on " "%byte d)))).
Proof.
  intros Hd Hss. unfold s_load_node_decl.
  destruct (split_on_char_spec buf decl " "%byte sc d Hd) as (curs & Hv & ->).
  apply Nat.leb_le in Hss. rewrite Hss.
  apply Nat.leb_le in Hss.
  pose proof (Forall2_length Hv) as Hl.
  rewrite firstn_all2 by lia.
  pose proof (split_on_not_nil " "%byte d) as Hne.
  destruct Hv as [| c0 t curs toks Hc0 Hrest]; [congruence |].
  simpl length. simpl nth. simpl tl. simpl hd.
  replace (S (length curs) <? 1)%nat with false by (symmetry; apply Nat.ltb_ge; lia).
  destruct (1 <? S (length curs))%nat eqn:E.
  - destruct (load_attributes_spec buf ac curs toks Hrest [] []) as (atts & -> & Hf).
    { constructor. }
    { simpl; lia. }
    eexists; repeat split; simpl; eauto.
  - apply Nat.ltb_ge in E.
    assert (curs = []) by (destruct curs; [reflexivity | simpl in E; lia]).
    subst curs. inversion Hrest; subst.
    eexists; repeat split; simpl; eauto.
    rewrite firstn_nil. constructor.
Qed.

Lemma s_load_node_decl_overflow buf sc ac decl node d :
  cursor_bytes buf decl = Some d ->
  (sc < length (split_on " "%byte d))%nat ->
  s_load_node_decl buf sc ac decl node = malformed.
Proof.
  intros Hd Hss. unfold s_load_node_decl.
  destruct (split_on_char_spec buf decl " "%byte sc d Hd) as (curs & Hv & ->).
  replace (_ <=? _)%nat with false; [reflexivity |].
  symmetry. apply Nat.leb_gt. exact Hss.
Qed.

Lemma attribute_entry_plain t :
  ~ In "="%byte t -> attribute_entry t = [(t, [])].
Proof. intros H. unfold attribute_entry. rewrite split_on_notin by assumption. reflexivity. Qed.

Lemma attribute_entry_pair k v :
  ~ In "="%byte k -> ~ In "="%byte v ->
  attribute_entry (pair_token (k, v)) = [(k, trim_bytes s_trim_quotes_fn v)].
Proof.
  intros Hk Hv. unfold attribute_entry, pair_token. simpl fst; simpl snd.
  rewrite split_on_app, split_on_notin by assumption. reflexivity.
Qed.

Lemma attribute_entry_many a b c :
  ~ In "="%byte a -> ~ In "="%byte b ->
  attribute_entry (a ++ "="%byte :: b ++ "="%byte :: c) = [].
Proof.
  intros Ha Hb. unfold attribute_entry.
  rewrite !split_on_app by assumption.
  pose proof (split_on_not_nil "="%byte c).
  destruct (split_on "="%byte c); [congruence | reflexivity].
Qed.

Lemma drop_while_none pred l :
  (forall x, In x l -> pred x = false) -> drop_while pred l = l.
Proof.
  destruct l as [| x l]; simpl; intros H; [reflexivity |].
  rewrite H by auto. reflexivity.
Qed.

Lemma trim_bytes_none pred l :
  (forall x, In x l -> pred x = false) -> trim_bytes pred l = l.
Proof.
  intros H. unfold trim_bytes.
  rewrite (drop_while_none pred l H), drop_while_none.
  - apply rev_involutive.
  - intros x Hx. apply H. apply in_rev. exact Hx.
Qed.

Lemma trim_bytes_quoted pred q l :
  pred q = true ->
  (forall x, In x l -> pred x = false) ->
  trim_bytes pred (q :: l ++ [q]) = l.
Proof.
  intros Hq H. unfold trim_bytes. simpl drop_while at 2. rewrite Hq.
  destruct l as [| x l].
  - simpl. rewrite Hq. reflexivity.
  - assert (Hd : drop_while pred ((x :: l) ++ [q]) = (x :: l) ++ [q]).
    { simpl. rewrite (H x) by (left; reflexivity). reflexivity. }
    rewrite Hd. remember (x :: l) as m eqn:Hm.
    rewrite rev_app_distr. simpl. rewrite Hq.
    rewrite drop_while_none.
    + apply rev_involutive.
    + intros y Hy. apply H. apply in_rev. exact Hy.
Qed.

Lemma flat_map_pair_tokens kvs :
  Forall (fun kv => ~ In "="%byte (fst kv) /\ ~ In "="%byte (snd kv)) kvs ->
  flat_map attribute_entry (map pair_token kvs) =
  map (fun kv => (fst kv, trim_bytes s_trim_quotes_fn (snd kv))) kvs.
Proof.
  induction 1 as [| [k v] kvs [Hk Hv] _ IH]; [reflexivity |].
  simpl map. simpl flat_map. rewrite attribute_entry_pair by assumption.
  rewrite IH. reflexivity.
Qed.

(** ** The closing-tag search *)

Lemma is_prefix_iff needle l :
  is_prefix needle l = true <-> exists post, l = needle ++ post.
Proof.
  revert l. induction needle as [| x needle IH]; intros l; simpl.
  - split; [eexists; reflexivity | reflexivity].
  - destruct l as [| y l].
    + split; [discriminate | intros (post & H); discriminate].
    + rewrite andb_true_iff, IH. split.
      * intros (E & post & ->). apply Byte.byte_dec_bl in E. subst.
        eexists; reflexivity.
      * intros (post & [= -> ->]). split; [apply Byte.byte_dec_lb; reflexivity |].
        eexists; reflexivity.
Qed.

Lemma find_sub_some needle l i :
  find_sub needle l = Some i ->
  occurs_at needle l i /\
  (i + length needle <= length l)%nat /\
  (forall j, (j < i)%nat -> ~ occurs_at needle l j).
Proof.
  revert i. induction l as [| x l IH]; intros i; simpl.
  - destruct (is_prefix needle []) eqn:E; [| discriminate].
    intros [= <-]. apply is_prefix_iff in E as (post & E).
    split; [exists post; exact E |].
    split; [| intros j Hj; lia].
    apply (f_equal (@length byte)) in E. rewrite length_app in E. simpl in *. lia.
  - destruct (is_prefix needle (x :: l)) eqn:E.
    + intros [= <-]. apply is_prefix_iff in E as (post & E).
      split; [exists post; exact E |].
      split; [| intros j Hj; lia].
      apply (f_equal (@length byte)) in E. rewrite length_app in E. simpl in *. lia.
    + destruct (find_sub needle l) as [k |] eqn:F; [| discriminate].
      intros [= <-]. destruct (IH k eq_refl) as (Hat & Hlen & Hmin).
      split; [exact Hat |]. split; [simpl; lia |].
      intros [| j] Hj.
      * intros (post & H). simpl in H.
        assert (is_prefix needle (x :: l) = true) by (apply is_prefix_iff; eauto).
        congruence.
      * apply Hmin. lia.
Qed.

Lemma find_sub_none needle l :
  find_sub needle l = None -> forall j, ~ occurs_at needle l j.
Proof.
  induction l as [| x l IH]; simpl.
  - destruct (is_prefix needle []) eqn:E; [discriminate |].
    intros _ j (post & H). rewrite skipn_nil in H.
    assert (is_prefix needle [] = true) by (apply is_prefix_iff; eauto).
    congruence.
  - destruct (is_prefix needle (x :: l)) eqn:E; [discriminate |].
    destruct (find_sub needle l) eqn:F; [discriminate |].
    intros _ [| j].
    + intros (post & H). simpl in H.
      assert (is_prefix needle (x :: l) = true) by (apply is_prefix_iff; eauto).
      congruence.
    + apply IH. reflexivity.
Qed.

Lemma occurs_iff_at needle l : occurs needle l <-> exists i, occurs_at needle l i.
Proof.
  split.
  - intros (pre & post & ->). exists (length pre), post.
    rewrite skipn_app, skipn_all, Nat.sub_diag. reflexivity.
  - intros (i & post & H). exists (firstn i l), post.
    rewrite <- H. symmetry. apply firstn_skipn.
Qed.

Lemma find_sub_none_iff needle l :
  find_sub needle l = None <-> ~ occurs needle l.
Proof.
  rewrite occurs_iff_at. split.
  - intros H (i & Hi). exact (find_sub_none needle l H i Hi).
  - intros H. destruct (find_sub needle l) as [i |] eqn:F; [| reflexivity].
    exfalso. apply H. exists i. apply find_sub_some in F. tauto.
Qed.

(** The first occurrence is found where the text before it is free of the
    needle's first byte. *)
Lemma find_sub_first c needle pre post :
  ~ In c pre ->
  find_sub (c :: needle) (pre ++ (c :: needle) ++ post) = Some (length pre).
Proof.
  intros Hn. induction pre as [| x pre IH].
  - rewrite app_nil_l.
    assert (E : is_prefix (c :: needle) ((c :: needle) ++ post) = true).
    { apply is_prefix_iff. eauto. }
    remember ((c :: needle) ++ post) as m eqn:Hm.
    destruct m as [| y m]; [discriminate Hm |].
    cbn [find_sub]. rewrite E. reflexivity.
  - assert (E : is_prefix (c :: needle) ((x :: pre) ++ (c :: needle) ++ post) = false).
    { simpl. destruct (Byte.eqb c x) eqn:Ec; [| reflexivity].
      apply Byte.byte_dec_bl in Ec. subst x. simpl in Hn. tauto. }
    remember ((c :: needle) ++ post) as m eqn:Hm.
    change ((x :: pre) ++ m) with (x :: (pre ++ m)) in *.
    cbn [find_sub]. rewrite E.
    rewrite IH by (simpl in Hn; tauto). reflexivity.
Qed.

Lemma slice_le buf p n l : slice buf p n = Some l -> (length l <= length buf)%nat.
Proof.
  intros H. apply slice_inv in H as [_ [-> | (pre & post & _ & ->)]].
  - simpl; lia.
  - rewrite !length_app. lia.
Qed.

Lemma closing_tag_length nm : length (closing_tag nm) = (length nm + 3)%nat.
Proof. unfold closing_tag. rewrite !length_app. simpl. lia. Qed.

Lemma closing_tag_spec buf node p nm body :
  fits buf ->
  cursor_bytes buf (name node) = Some nm ->
  cursor_bytes buf (doc_at_body node) = Some body ->
  s_advance_to_closing_tag buf node p =
  match (if (256 <? length nm)%nat then None else find_sub (closing_tag nm) body) with
  | None => (malformed, p)
  | Some i =>
      (AWS_OP_SUCCESS {| len := Z.of_nat i; ptr := ptr (doc_at_body node) |},
       set_doc p (aws_byte_cursor_advance (doc p)
                    (Z.of_nat (i + length (closing_tag nm)))))
  end.
Proof.
  intros Hf Hn Hb. unfold s_advance_to_closing_tag.
  pose proof (slice_length _ _ _ _ Hn) as Ln.
  pose proof (slice_length _ _ _ _ Hb) as Lb.
  pose proof (slice_le _ _ _ _ Hn) as Bn.
  pose proof (slice_le _ _ _ _ Hb) as Bb.
  rewrite Ln, Lb.
  rewrite (to_size_t_fits buf) by (auto; lia).
  destruct (Z.of_nat (length nm) + 3 >? Z.of_nat (length body)) eqn:E1.
  { (* the closing tag is longer than what is left *)
    apply Z.gtb_lt in E1.
    destruct (256 <? length nm)%nat; [reflexivity |].
    destruct (find_sub (closing_tag nm) body) as [i |] eqn:F; [| reflexivity].
    apply find_sub_some in F as (_ & F & _).
    rewrite closing_tag_length in F. lia. }
  rewrite Z.gtb_ltb in E1. apply Z.ltb_ge in E1.
  destruct (259 <? Z.of_nat (length nm) + 3) eqn:E2.
  { apply Z.ltb_lt in E2.
    replace (256 <? length nm)%nat with true; [reflexivity |].
    symmetry. apply Nat.ltb_lt. lia. }
  apply Z.ltb_ge in E2.
  replace (256 <? length nm)%nat with false by (symmetry; apply Nat.ltb_ge; lia).
  rewrite Hn. fold (closing_tag nm).
  unfold aws_byte_cursor_find_exact. rewrite Hb, Lb, closing_tag_length.
  replace (Z.of_nat (length nm + 3) >? Z.of_nat (length body)) with false
    by (symmetry; rewrite Z.gtb_ltb; apply Z.ltb_ge; lia).
  replace (Z.of_nat (length nm + 3) <? 1) with false
    by (symmetry; apply Z.ltb_ge; lia).
  destruct (find_sub (closing_tag nm) body) as [i |] eqn:F; [| reflexivity].
  apply find_sub_some in F as (_ & F & _). rewrite closing_tag_length in F.
  simpl ptr.
  assert (Hd : ptr_diff (ptr_add (ptr (doc_at_body node)) (Z.of_nat i))
                 (ptr (doc_at_body node)) = Z.of_nat i).
  { apply slice_inv in Hb as [_ [-> | (pre & post & -> & _)]].
    - simpl in *. lia.
    - unfold ptr_add, ptr_diff. lia. }
  rewrite Hd.
  rewrite (to_size_t_fits buf (Z.of_nat i)) by (auto; lia).
  rewrite (to_size_t_fits buf) by (auto; lia).
  unfold advance_doc, aws_byte_cursor_from_array.
  repeat f_equal. lia.
Qed.

(** ** One tag at a time *)


Lemma ptr_diff_addr a b : ptr_diff (Addr a) (Addr b) = a - b.
Proof. reflexivity. Qed.

Lemma ptr_add_addr a n : ptr_add (Addr a) n = Addr (a + n).
Proof. reflexivity. Qed.

Lemma set_doc_doc p c : doc (set_doc p c) = c.
Proof. reflexivity. Qed.

Lemma advance_doc_cur_at buf pre l1 l2 z p :
  fits buf ->
  (length (pre ++ l1 ++ l2) <= length buf)%nat ->
  doc p = cur_at pre (l1 ++ l2) ->
  z = Z.of_nat (length l1) ->
  advance_doc (to_size_t z) p = set_doc p (cur_at (pre ++ l1) l2).
Proof.
  intros Hf Hl Hd Hz. unfold advance_doc. rewrite Hd.
  rewrite (advance_cur_at buf) by assumption. reflexivity.
Qed.

Lemma set_doc_twice p c c' : set_doc (set_doc p c) c' = set_doc p c'.
Proof. reflexivity. Qed.

(** The sibling walk at a tag [<decl>], after text [ws] without [<]: the
    declaration is the text between the brackets and the node's body starts
    after the [>]. *)
Lemma next_sibling_steps buf sc ac fuel p pre ws decl rest :
  fits buf ->
  buf = pre ++ ws ++ "<"%byte :: decl ++ ">"%byte :: rest ->
  ~ In "<"%byte ws ->
  ~ In ">"%byte decl ->
  doc p = cur_at pre (ws ++ "<"%byte :: decl ++ ">"%byte :: rest) ->
  s_node_next_sibling buf sc ac fuel p =
  let p2 := set_doc p (cur_at (pre ++ ws ++ "<"%byte :: decl ++ [">"%byte]) rest) in
  match s_load_node_decl buf sc ac (cur_at (pre ++ ws ++ ["<"%byte]) decl)
          (empty_node (doc p2)) with
  | AWS_OP_SUCCESS sibling_node =>
      match cb_stack p with
      | [] => (Undefined, p2)
      | cb :: _ =>
          ignore_return
            (run_handler buf sc ac fuel (cb sibling_node)
               (record (Ev_node From_next_sibling sibling_node) p2))
      end
  | AWS_OP_ERR e => (AWS_OP_ERR e, p2)
  | Undefined => (Undefined, p2)
  | OutOfFuel => (OutOfFuel, p2)
  end.
Proof.
  intros Hf Hb Hws Hdecl Hd.
  destruct p as [d stack t]. simpl in Hd. subst d.
  unfold s_node_next_sibling, advance_doc, set_doc.
  cbn [doc cb_stack trace].
  set (T := "<"%byte :: decl ++ ">"%byte :: rest) in *.
  change (ptr (cur_at pre (ws ++ T))) with (Addr (Z.of_nat (length pre))).
  change (len (cur_at pre (ws ++ T))) with (Z.of_nat (length (ws ++ T))).
  unfold T at 1.
  rewrite (memchr_first buf pre ws "<"%byte (decl ++ ">"%byte :: rest) [])
    by (rewrite ?app_nil_r; assumption).
  fold T.
  assert (HlT : length T = S (length decl + S (length rest))).
  { unfold T. simpl. rewrite length_app. reflexivity. }
  assert (Hlen : length buf = (length pre + length ws + length T)%nat).
  { subst buf. rewrite !length_app. lia. }
  rewrite (advance_cur_at buf pre ws T _ Hf)
    by (rewrite ?length_app; unfold ptr_diff; lia).
  change (ptr (cur_at (pre ++ ws) T)) with (Addr (Z.of_nat (length (pre ++ ws)))).
  change (len (cur_at (pre ++ ws) T))
    with (Z.of_nat (length (("<"%byte :: decl) ++ ">"%byte :: rest))).
  assert (Hgt : ~ In ">"%byte ("<"%byte :: decl)).
  { simpl. intros [H | H]; [discriminate | tauto]. }
  rewrite (memchr_first buf (pre ++ ws) ("<"%byte :: decl) ">"%byte rest [])
    by (rewrite ?app_nil_r, <- ?app_assoc; assumption).
  assert (HT : T = ("<"%byte :: decl ++ [">"%byte]) ++ rest).
  { unfold T. simpl. rewrite <- app_assoc. reflexivity. }
  rewrite HT.
  rewrite (advance_cur_at buf (pre ++ ws) ("<"%byte :: decl ++ [">"%byte]) rest _ Hf)
    by (rewrite <- ?HT, ?length_app; unfold ptr_diff; simpl length;
        rewrite ?length_app; simpl length; lia).
  rewrite <- (app_assoc pre ws).
  assert (H3 : aws_byte_cursor_from_array
                 (ptr_add (Addr (Z.of_nat (length pre) + Z.of_nat (length ws))) 1)
                 (to_size_t
                    (to_size_t
                       (ptr_diff
                          (Addr (Z.of_nat (length (pre ++ ws)) +
                                 Z.of_nat (length ("<"%byte :: decl))))
                          (Addr (Z.of_nat (length pre) + Z.of_nat (length ws)))) - 1)) =
               cur_at (pre ++ ws ++ ["<"%byte]) decl).
  { assert (Hl : (length decl <= length buf)%nat).
    { lia. }
    unfold ptr_diff, ptr_add. rewrite length_app. simpl length.
    replace (Z.of_nat (length pre + length ws) + Z.of_nat (S (length decl)) -
               (Z.of_nat (length pre) + Z.of_nat (length ws)))
      with (Z.of_nat (length decl) + 1) by lia.
    rewrite (to_size_t_fits buf (Z.of_nat (length decl) + 1)) by (auto; lia).
    rewrite (to_size_t_fits buf) by (auto; lia).
    unfold aws_byte_cursor_from_array, cur_at.
    rewrite !length_app. simpl length. f_equal; [lia | f_equal; lia]. }
  rewrite H3. reflexivity.
Qed.

(** ** Skipping the preamble *)

Lemma index_of_in c l : In c l -> exists i, index_of c l = Some i.
Proof.
  induction l as [| x l IH]; simpl; [tauto |].
  intros H. destruct (Byte.eqb x c) eqn:E; [eauto |].
  destruct H as [-> | H].
  - rewrite Byte.byte_dec_lb in E by reflexivity. discriminate.
  - destruct (IH H) as (i & ->). simpl. eauto.
Qed.

Lemma memchr_in buf pre l c post :
  buf = pre ++ l ++ post ->
  In c l ->
  exists a, memchr buf (Addr (Z.of_nat (length pre))) c (Z.of_nat (length l)) =
            Some (Addr a).
Proof.
  intros H Hin. unfold memchr.
  rewrite (slice_app buf pre _ post H).
  destruct (index_of_in c l Hin) as (i & ->). unfold ptr_add. eauto.
Qed.

Lemma skip_preamble_region buf fuel p pre r rest :
  fits buf ->
  buf = pre ++ region r ++ rest ->
  is_preamble r ->
  doc p = cur_at pre (region r ++ rest) ->
  skip_preamble buf (S fuel) p =
  skip_preamble buf fuel (set_doc p (cur_at (pre ++ region r) rest)).
Proof.
  intros Hf Hb (Hws & Hws' & Hmark & Hin) Hd.
  destruct r as [ws c body]. unfold region in *. simpl in *.
  destruct p as [d stack t]. simpl in Hd. subst d.
  set (T := "<"%byte :: c :: body ++ [">"%byte]) in *.
  assert (HlT : length T = S (S (length body + 1))).
  { unfold T. simpl. rewrite length_app. reflexivity. }
  assert (Hlen : length buf = (length pre + (length ws + length T) + length rest)%nat).
  { subst buf. rewrite !length_app. lia. }
  cbn [skip_preamble]. unfold advance_doc, set_doc. cbn [doc cb_stack trace].
  change (ptr (cur_at pre ((ws ++ T) ++ rest))) with (Addr (Z.of_nat (length pre))).
  change (len (cur_at pre ((ws ++ T) ++ rest)))
    with (Z.of_nat (length ((ws ++ T) ++ rest))).
  replace (Z.of_nat (length ((ws ++ T) ++ rest)) =? 0) with false
    by (symmetry; apply Z.eqb_neq; rewrite !length_app; lia).
  assert (E1 : (ws ++ T) ++ rest = ws ++ "<"%byte :: (c :: body ++ [">"%byte]) ++ rest).
  { unfold T. rewrite <- app_assoc. reflexivity. }
  rewrite E1 at 1.
  rewrite (memchr_first buf pre ws "<"%byte ((c :: body ++ [">"%byte]) ++ rest) [])
    by (rewrite ?app_nil_r, <- ?E1; assumption).
  assert (E2 : (ws ++ T) ++ rest = (ws ++ "<"%byte :: c :: body) ++ ">"%byte :: rest).
  { unfold T. simpl. rewrite <- !app_assoc. simpl. rewrite <- app_assoc. reflexivity. }
  assert (Hgt : ~ In ">"%byte (ws ++ "<"%byte :: c :: body)).
  { intros H. apply in_app_or in H as [H | [H | [H | H]]];
      [tauto | discriminate | destruct Hmark; subst c; discriminate | tauto]. }
  rewrite E2 at 1.
  rewrite (memchr_first buf pre (ws ++ "<"%byte :: c :: body) ">"%byte rest [])
    by (rewrite ?app_nil_r, <- ?E2; assumption).
  rewrite <- app_assoc.
  rewrite (advance_cur_at buf pre ws (T ++ rest) _ Hf)
    by (rewrite ?length_app; unfold ptr_diff; lia).
  change (ptr (cur_at (pre ++ ws) (T ++ rest)))
    with (Addr (Z.of_nat (length (pre ++ ws)))).
  assert (Hload : load buf (ptr_add (Addr (Z.of_nat (length (pre ++ ws)))) 1) = Some c).
  { unfold ptr_add.
    replace (Z.of_nat (length (pre ++ ws)) + 1)
      with (Z.of_nat (length (pre ++ ws ++ ["<"%byte])))
      by (rewrite !length_app; simpl; lia).
    apply load_at with (rest := body ++ [">"%byte] ++ rest).
    subst buf. unfold T. rewrite <- !app_assoc. simpl. rewrite <- !app_assoc.
    reflexivity. }
  rewrite Hload.
  replace (Byte.eqb c "?"%byte || Byte.eqb c "!"%byte) with true
    by (destruct Hmark; subst c; reflexivity).
  rewrite (advance_cur_at buf (pre ++ ws) T rest _ Hf)
    by (rewrite ?length_app; unfold ptr_diff; simpl length;
        rewrite ?length_app; simpl length; lia).
  rewrite <- (app_assoc pre ws). reflexivity.
Qed.

Lemma skip_preamble_stop buf fuel p pre ws c rest :
  fits buf ->
  buf = pre ++ ws ++ "<"%byte :: c :: rest ->
  ~ In "<"%byte ws ->
  In ">"%byte (ws ++ "<"%byte :: c :: rest) ->
  c <> "?"%byte -> c <> "!"%byte ->
  doc p = cur_at pre (ws ++ "<"%byte :: c :: rest) ->
  skip_preamble buf (S fuel) p =
  (AWS_OP_SUCCESS tt, set_doc p (cur_at (pre ++ ws) ("<"%byte :: c :: rest))).
Proof.
  intros Hf Hb Hws Hgt Hc1 Hc2 Hd.
  destruct p as [d stack t]. simpl in Hd. subst d.
  set (T := "<"%byte :: c :: rest) in *.
  assert (Hlen : length buf = (length pre + (length ws + length T))%nat).
  { subst buf. rewrite !length_app. lia. }
  assert (HlT : length T = S (S (length rest))) by reflexivity.
  cbn [skip_preamble]. unfold advance_doc, set_doc. cbn [doc cb_stack trace].
  change (ptr (cur_at pre (ws ++ T))) with (Addr (Z.of_nat (length pre))).
  change (len (cur_at pre (ws ++ T))) with (Z.of_nat (length (ws ++ T))).
  replace (Z.of_nat (length (ws ++ T)) =? 0) with false
    by (symmetry; apply Z.eqb_neq; rewrite !length_app; lia).
  unfold T at 1.
  rewrite (memchr_first buf pre ws "<"%byte (c :: rest) [])
    by (rewrite ?app_nil_r; assumption).
  fold T.
  destruct (memchr_in buf pre (ws ++ T) ">"%byte [] ) as (a & ->);
    [rewrite app_nil_r; assumption | assumption |].
  rewrite (advance_cur_at buf pre ws T _ Hf)
    by (rewrite ?length_app; unfold ptr_diff; lia).
  change (ptr (cur_at (pre ++ ws) T)) with (Addr (Z.of_nat (length (pre ++ ws)))).
  assert (Hload : load buf (ptr_add (Addr (Z.of_nat (length (pre ++ ws)))) 1) = Some c).
  { unfold ptr_add.
    replace (Z.of_nat (length (pre ++ ws)) + 1)
      with (Z.of_nat (length (pre ++ ws ++ ["<"%byte])))
      by (rewrite !length_app; simpl; lia).
    apply load_at with (rest := rest).
    subst buf. unfold T. rewrite <- !app_assoc. reflexivity. }
  rewrite Hload.
  replace (Byte.eqb c "?"%byte || Byte.eqb c "!"%byte) with false; [reflexivity |].
  symmetry. apply orb_false_iff. split.
  - destruct (Byte.eqb c "?"%byte) eqn:E; [| reflexivity].
    apply Byte.byte_dec_bl in E. contradiction.
  - destruct (Byte.eqb c "!"%byte) eqn:E; [| reflexivity].
    apply Byte.byte_dec_bl in E. contradiction.
Qed.

Lemma skip_preamble_malformed buf fuel p pre l post :
  buf = pre ++ l ++ post ->
  doc p = cur_at pre l ->
  l <> [] ->
  ~ In "<"%byte l \/ ~ In ">"%byte l ->
  skip_preamble buf (S fuel) p = (malformed, p).
Proof.
  intros Hb Hd Hl Hno.
  cbn [skip_preamble]. rewrite Hd.
  change (ptr (cur_at pre l)) with (Addr (Z.of_nat (length pre))).
  change (len (cur_at pre l)) with (Z.of_nat (length l)).
  replace (Z.of_nat (length l) =? 0) with false
    by (symmetry; apply Z.eqb_neq; destruct l; [congruence | simpl; lia]).
  destruct (in_dec Byte.byte_eq_dec "<"%byte l) as [Hin | Hnin].
  - destruct (memchr_in buf pre l "<"%byte post Hb Hin) as (a & ->).
    destruct Hno as [Hno | Hno]; [contradiction |].
    rewrite (memchr_none buf pre l ">"%byte post Hb Hno). reflexivity.
  - rewrite (memchr_none buf pre l "<"%byte post Hb Hnin). reflexivity.
Qed.

Lemma skip_preamble_empty buf fuel p pre :
  doc p = cur_at pre [] ->
  skip_preamble buf (S fuel) p = (AWS_OP_SUCCESS tt, p).
Proof. intros Hd. cbn [skip_preamble]. rewrite Hd. reflexivity. Qed.

Lemma preamble_cons r rs : preamble (r :: rs) = region r ++ preamble rs.
Proof. reflexivity. Qed.

(** Every declaration of the preamble costs one round of the loop. *)
Lemma skip_preamble_all buf rs :
  forall fuel p pre rest,
    fits buf ->
    buf = pre ++ preamble rs ++ rest ->
    Forall is_preamble rs ->
    doc p = cur_at pre (preamble rs ++ rest) ->
    skip_preamble buf (length rs + fuel) p =
    skip_preamble buf fuel (set_doc p (cur_at (pre ++ preamble rs) rest)).
Proof.
  induction rs as [| r rs IH]; intros fuel p pre rest Hf Hb Hrs Hd.
  - simpl. rewrite app_nil_r. destruct p; simpl in *. subst. reflexivity.
  - apply Forall_cons_iff in Hrs as [Hr Hrs'].
    rewrite preamble_cons, <- app_assoc in Hb, Hd.
    simpl length. simpl Nat.add.
    rewrite (skip_preamble_region buf _ p pre r (preamble rs ++ rest)) by assumption.
    rewrite (IH fuel _ (pre ++ region r) rest); try assumption.
    + rewrite set_doc_twice, preamble_cons, <- app_assoc. reflexivity.
    + rewrite <- app_assoc. assumption.
    + reflexivity.
Qed.

Lemma find_sub_first_occurrence needle l i :
  first_occurrence needle l i -> find_sub needle l = Some i.
Proof.
  intros [Hat Hmin].
  destruct (find_sub needle l) as [k |] eqn:F.
  - apply find_sub_some in F as (Hk & _ & Hkmin).
    destruct (Nat.lt_trichotomy k i) as [H | [H | H]].
    + exfalso. exact (Hmin k H Hk).
    + congruence.
    + exfalso. exact (Hkmin i H Hat).
  - exfalso. exact (find_sub_none needle l F i Hat).
Qed.

Lemma s_load_node_decl_plain buf sc ac decl body nm :
  cursor_bytes buf decl = Some nm ->
  ~ In " "%byte nm ->
  (1 <= sc)%nat ->
  s_load_node_decl buf sc ac decl (empty_node body) =
  AWS_OP_SUCCESS
    {| name := {| len := Z.of_nat (length nm); ptr := ptr decl |};
       attributes := [];
       doc_at_body := body |}.
Proof.
  intros Hd Hn Hss. unfold s_load_node_decl, aws_byte_cursor_split_on_char.
  rewrite Hd, split_on_notin by assumption. simpl cursors_of.
  destruct sc as [| sc]; [lia |]. simpl. rewrite ?firstn_nil. reflexivity.
Qed.

Lemma closing_tag_cons nm :
  closing_tag nm = "<"%byte :: ("/"%byte :: nm ++ [">"%byte]).
Proof. reflexivity. Qed.


Lemma run_take_body buf sc ac fuel node p nm text post pre :
  fits buf ->
  buf = pre ++ (text ++ closing_tag nm) ++ post ->
  cursor_bytes buf (name node) = Some nm ->
  doc_at_body node = cur_at pre (text ++ closing_tag nm) ->
  doc p = cur_at pre ((text ++ closing_tag nm) ++ post) ->
  (length nm <= 256)%nat ->
  ~ In "<"%byte text ->
  run_handler buf sc ac (S (S fuel)) (take_body node) p =
  (AWS_OP_SUCCESS true,
   record (Ev_body node (AWS_OP_SUCCESS (cur_at pre text)))
     (set_doc p (cur_at (pre ++ text ++ closing_tag nm) post))).
Proof.
  intros Hf Hb Hn Hbody Hd Hlen Htext.
  assert (Hcb : cursor_bytes buf (doc_at_body node) = Some (text ++ closing_tag nm)).
  { rewrite Hbody. eapply cursor_bytes_cur_at. exact Hb. }
  cbn [run_handler take_body]. unfold aws_xml_node_as_body.
  rewrite (closing_tag_spec buf node p nm _ Hf Hn Hcb).
  replace (256 <? length nm)%nat with false by (symmetry; apply Nat.ltb_ge; lia).
  assert (Hfind : find_sub (closing_tag nm) (text ++ closing_tag nm) = Some (length text)).
  { rewrite closing_tag_cons.
    replace (text ++ "<"%byte :: "/"%byte :: nm ++ [">"%byte])
      with (text ++ ("<"%byte :: "/"%byte :: nm ++ [">"%byte]) ++ [])
      by (rewrite app_nil_r; reflexivity).
    apply find_sub_first. assumption. }
  rewrite Hfind.
  rewrite Hd, Hbody.
  assert (Hadv : aws_byte_cursor_advance (cur_at pre ((text ++ closing_tag nm) ++ post))
                   (Z.of_nat (length text + length (closing_tag nm))) =
                 cur_at (pre ++ text ++ closing_tag nm) post).
  { rewrite <- (to_size_t_fits buf (Z.of_nat (length text + length (closing_tag nm))))
      by (auto; subst buf; rewrite !length_app; lia).
    apply (advance_cur_at buf); auto.
    - subst buf. rewrite !length_app. lia.
    - rewrite length_app. reflexivity. }
  rewrite Hadv. reflexivity.
Qed.

(** ** [aws_xml_parser_parse] on a document with a preamble *)

Lemma hd_tl_close decl rest :
  decl ++ ">"%byte :: rest = hd ">"%byte decl :: tl (decl ++ ">"%byte :: rest).
Proof. destruct decl; reflexivity. Qed.

Lemma parse_steps buf sc ac fuel h rs ws decl rest :
  fits buf ->
  buf = preamble rs ++ ws ++ "<"%byte :: decl ++ ">"%byte :: rest ->
  Forall is_preamble rs ->
  ~ In "<"%byte ws ->
  ~ In ">"%byte decl ->
  hd ">"%byte decl <> "?"%byte ->
  hd ">"%byte decl <> "!"%byte ->
  (length rs < fuel)%nat ->
  aws_xml_parser_parse buf sc ac fuel h (aws_xml_parser_init (whole buf)) =
  let p2 :=
    {| doc := cur_at (preamble rs ++ ws ++ "<"%byte :: decl ++ [">"%byte]) rest;
       cb_stack := [h];
       trace := [] |} in
  match s_load_node_decl buf sc ac (cur_at (preamble rs ++ ws ++ ["<"%byte]) decl)
          (empty_node (doc p2)) with
  | AWS_OP_SUCCESS root =>
      ignore_return
        (run_handler buf sc ac fuel (h root)
           (record (Ev_node From_next_sibling root) p2))
  | AWS_OP_ERR e => (AWS_OP_ERR e, p2)
  | Undefined => (Undefined, p2)
  | OutOfFuel => (OutOfFuel, p2)
  end.
Proof.
  intros Hf Hb Hrs Hws Hdecl Hq Hx Hfuel.
  destruct (Nat.le_exists_sub (S (length rs)) fuel Hfuel) as (f & Hfu & _).
  replace fuel with (length rs + S f)%nat by lia. clear Hfu Hfuel fuel.
  unfold aws_xml_parser_parse, aws_xml_parser_init, set_stack.
  cbn [doc cb_stack trace].
  set (tail := ws ++ "<"%byte :: decl ++ ">"%byte :: rest) in *.
  rewrite (skip_preamble_all buf rs (S f) _ [] tail Hf Hb Hrs)
    by (rewrite Hb; reflexivity).
  rewrite app_nil_l. unfold set_doc. cbn [doc cb_stack trace].
  assert (Htail : tail = ws ++ "<"%byte :: hd ">"%byte decl ::
                           tl (decl ++ ">"%byte :: rest)).
  { unfold tail. rewrite <- hd_tl_close. reflexivity. }
  rewrite (skip_preamble_stop buf f _ (preamble rs) ws (hd ">"%byte decl)
             (tl (decl ++ ">"%byte :: rest)) Hf);
    [ | rewrite <- Htail; exact Hb | exact Hws
      | rewrite <- Htail; unfold tail;
        apply in_or_app; right; right; apply in_or_app; right; left; reflexivity
      | exact Hq | exact Hx | cbn [doc]; rewrite Htail; reflexivity ].
  rewrite <- hd_tl_close.
  unfold set_doc. cbn [doc cb_stack trace].
  rewrite (next_sibling_steps buf sc ac _ _ (preamble rs ++ ws) [] decl rest Hf);
    [ | rewrite <- app_assoc; exact Hb | simpl; tauto | exact Hdecl | reflexivity ].
  cbv zeta. unfold set_doc. cbn [doc cb_stack trace].
  rewrite !app_nil_l, <- !app_assoc. reflexivity.
Qed.

Lemma split_on_hd_cons c x l :
  x <> c -> exists t, hd [] (split_on c (x :: l)) = x :: t.
Proof.
  intros Hx. simpl.
  destruct (Byte.eqb x c) eqn:E.
  - apply Byte.byte_dec_bl in E. contradiction.
  - destruct (split_on c l) as [| t ts]; simpl; eauto.
Qed.

Lemma run_handler_return buf sc ac fuel b p :
  run_handler buf sc ac (S fuel) (Return b) p = (AWS_OP_SUCCESS b, p).
Proof. reflexivity. Qed.

Lemma next_sibling_at_end buf sc ac fuel p pre :
  doc p = cur_at pre [] ->
  s_node_next_sibling buf sc ac fuel p = (AWS_OP_SUCCESS tt, p).
Proof. intros Hd. unfold s_node_next_sibling. rewrite Hd. reflexivity. Qed.


(** ** Enough fuel *)

(** A run that did not stop for lack of fuel gives the same result with
    more fuel. *)
Lemma handler_and_loop_fuel buf sc ac fuel :
  (forall a p r p',
      run_handler buf sc ac fuel a p = (r, p') ->
      r <> OutOfFuel ->
      forall fuel', (fuel <= fuel')%nat ->
                    run_handler buf sc ac fuel' a p = (r, p')) /\
  (forall node h p r p',
      traverse_loop buf sc ac fuel node h p = (r, p') ->
      r <> OutOfFuel ->
      forall fuel', (fuel <= fuel')%nat ->
                    traverse_loop buf sc ac fuel' node h p = (r, p')).
Proof.
  induction fuel as [| fuel [IHh IHt]].
  { split; intros; simpl in *; congruence. }
  split.
  - intros a p r p' Hrun Hr [| fuel'] Hle; [lia |].
    assert (Hle' : (fuel <= fuel')%nat) by lia.
    simpl in Hrun |- *. destruct a as [b | n k | n h k].
    + exact Hrun.
    + destruct (aws_xml_node_as_body buf n p) as [[body | e | |] q]; auto;
        eapply IHh; eauto.
    + destruct (traverse_loop buf sc ac fuel n h _) as [r1 q] eqn:E.
      destruct r1 as [u | e | |];
        try (rewrite (IHt _ _ _ _ _ E ltac:(discriminate) fuel' Hle'));
        try (eapply IHh; eauto); try exact Hrun.
      congruence.
  - intros node h p r p' Hrun Hr [| fuel'] Hle; [lia |].
    assert (Hle' : (fuel <= fuel')%nat) by lia.
    simpl in Hrun |- *.
    destruct (memchr buf _ _ _) as [[| nl] |]; auto.
    destruct (memchr buf _ _ _) as [[| el] |]; auto.
    destruct (load buf _); auto.
    destruct (Byte.eqb _ _); auto.
    destruct (s_load_node_decl _ _ _ _ _) as [next_node | | |]; auto.
    destruct (run_handler buf sc ac fuel _ _) as [r2 p2] eqn:E2.
    destruct r2 as [[|] | e | |];
      try (rewrite (IHh _ _ _ _ E2 ltac:(discriminate) fuel' Hle'));
      try exact Hrun; try congruence.
    destruct (s_advance_to_closing_tag buf node p2) as [[body | e | |] p3]; auto;
      try (eapply IHt; eauto).
Qed.

Lemma skip_preamble_fuel buf fuel :
  forall p r p',
    skip_preamble buf fuel p = (r, p') ->
    r <> OutOfFuel ->
    forall fuel', (fuel <= fuel')%nat -> skip_preamble buf fuel' p = (r, p').
Proof.
  induction fuel as [| fuel IH]; intros p r p' Hrun Hr fuel' Hle.
  { simpl in Hrun. congruence. }
  destruct fuel' as [| fuel']; [lia |].
  simpl in Hrun |- *.
  destruct (len (doc p) =? 0); auto.
  destruct (memchr buf _ _ _) as [[| st] |]; auto.
  destruct (memchr buf _ _ _) as [[| loc] |]; auto.
  destruct (load buf _); auto.
  destruct (_ || _); auto.
  eapply IH; eauto. lia.
Qed.

Lemma next_sibling_fuel buf sc ac fuel p r p' :
  s_node_next_sibling buf sc ac fuel p = (r, p') ->
  r <> OutOfFuel ->
  forall fuel', (fuel <= fuel')%nat ->
                s_node_next_sibling buf sc ac fuel' p = (r, p').
Proof.
  intros Hrun Hr fuel' Hle. unfold s_node_next_sibling in *.
  destruct (memchr buf _ _ _) as [[| nl] |]; auto.
  destruct (memchr buf _ _ _) as [[| el] |]; auto.
  destruct (s_load_node_decl _ _ _ _ _) as [sibling | | |]; auto.
  destruct (cb_stack _) as [| cb stack]; auto.
  destruct (run_handler buf sc ac fuel _ _) as [r2 p2] eqn:E2.
  assert (Hr2 : r2 <> OutOfFuel).
  { intros ->. simpl in Hrun. congruence. }
  rewrite (proj1 (handler_and_loop_fuel buf sc ac fuel) _ _ _ _ E2 Hr2 fuel' Hle).
  exact Hrun.
Qed.

(** What is left of the document, as a number of bytes. *)
Lemma memchr_addr buf p c n x :
  memchr buf p c n = Some (Addr x) ->
  exists a i, p = Addr a /\ x = a + Z.of_nat i /\
              Z.of_nat i < n /\ n <= Z.of_nat (length buf).
Proof.
  unfold memchr. destruct (slice buf p n) as [l |] eqn:Hs; [| discriminate].
  destruct (index_of c l) as [i |] eqn:Hi; [| discriminate].
  intros [= Hx].
  destruct p as [| a]; [discriminate |]. unfold ptr_add in Hx. injection Hx as <-.
  exists a, i. repeat split.
  - assert (Hlt : (i < length l)%nat).
    { clear Hs. revert i Hi. induction l as [| y l IH]; simpl; [discriminate |].
      intros i. destruct (Byte.eqb y c).
      - intros [= <-]. lia.
      - destruct (index_of c l) as [j |]; [| discriminate].
        simpl. intros [= <-]. specialize (IH j eq_refl). lia. }
    rewrite (slice_length _ _ _ _ Hs). lia.
  - rewrite (slice_length _ _ _ _ Hs). pose proof (slice_le _ _ _ _ Hs). lia.
Qed.

Lemma room_within p' p :
  doc_within p' p -> (room p' <= room p)%nat.
Proof.
  unfold doc_within, cursor_within, room.
  intros [-> | (n & Hn & ->)]; [lia |]. simpl. lia.
Qed.

Lemma room_record e p : room (record e p) = room p.
Proof. reflexivity. Qed.

Lemma room_set_stack p s : room (set_stack p s) = room p.
Proof. reflexivity. Qed.

Lemma advance_room buf p a i :
  fits buf ->
  ptr (doc p) = Addr a ->
  0 <= i < len (doc p) ->
  len (doc p) <= Z.of_nat (length buf) ->
  (room (advance_doc (to_size_t (ptr_diff (Addr (a + i)) (ptr (doc p)) + 1)) p)
   < room p)%nat.
Proof.
  intros Hf Hp Hi Hl. unfold fits in Hf. rewrite half_size_max in Hf.
  rewrite Hp. unfold ptr_diff.
  replace (a + i - a + 1) with (i + 1) by lia.
  rewrite (to_size_t_fits buf) by (unfold fits; rewrite ?half_size_max; lia).
  unfold room, advance_doc, aws_byte_cursor_advance. rewrite half_size_max.
  replace (_ || _ || _) with false
    by (symmetry; rewrite !orb_false_iff, !Z.gtb_ltb, !Z.ltb_ge; lia).
  simpl. lia.
Qed.

Lemma closing_tag_finishes buf node p :
  finishes (s_advance_to_closing_tag buf node p).
Proof.
  unfold finishes, s_advance_to_closing_tag.
  repeat match goal with
         | |- context [match ?x with _ => _ end] => destruct x
         | |- context [if ?x then _ else _] => destruct x
         end; simpl; discriminate.
Qed.

Lemma load_node_decl_finishes buf sc ac decl node :
  s_load_node_decl buf sc ac decl node <> OutOfFuel.
Proof.
  unfold s_load_node_decl.
  repeat match goal with
         | |- context [match ?x with _ => _ end] => destruct x
         | |- context [if ?x then _ else _] => destruct x
         end; discriminate.
Qed.

Lemma handler_terminates buf sc ac L :
  (forall node h p,
      (room p <= L)%nat -> exists N, finishes (traverse_loop buf sc ac N node h p)) ->
  forall a p,
    (room p <= L)%nat -> exists N, finishes (run_handler buf sc ac N a p).
Proof.
  intros Hloop. induction a as [b | n k IH | n h _ k IH]; intros p Hp.
  - exists 1%nat. simpl. discriminate.
  - pose proof (closing_tag_within buf n p) as Hw.
    pose proof (closing_tag_finishes buf n p) as Hfin.
    unfold finishes in Hfin.
    destruct (s_advance_to_closing_tag buf n p) as [r q] eqn:E.
    simpl in Hw, Hfin. apply room_within in Hw.
    destruct r as [body | e | |]; try congruence.
    + destruct (IH (AWS_OP_SUCCESS body) (record (Ev_body n (AWS_OP_SUCCESS body)) q))
        as (N & HN); [rewrite room_record; lia |].
      exists (S N). simpl. unfold aws_xml_node_as_body. rewrite E. exact HN.
    + destruct (IH (AWS_OP_ERR e) (record (Ev_body n (AWS_OP_ERR e)) q))
        as (N & HN); [rewrite room_record; lia |].
      exists (S N). simpl. unfold aws_xml_node_as_body. rewrite E. exact HN.
    + exists 1%nat. simpl. unfold aws_xml_node_as_body. rewrite E.
      unfold finishes. simpl. discriminate.
  - destruct (Hloop n h (set_stack p (h :: cb_stack p))) as (N1 & H1);
      [rewrite room_set_stack; exact Hp |].
    unfold finishes in H1.
    pose proof (proj2 (handler_and_loop_within buf sc ac N1) n h
                  (set_stack p (h :: cb_stack p))) as Hw.
    destruct (traverse_loop buf sc ac N1 n h _) as [r q] eqn:E.
    simpl in Hw, H1. apply room_within in Hw. rewrite room_set_stack in Hw.
    destruct r as [u | e | |]; try congruence.
    + destruct (IH (AWS_OP_SUCCESS u) q) as (N2 & H2); [lia |].
      unfold finishes in H2.
      destruct (run_handler buf sc ac N2 _ q) as [r2 q2] eqn:E2. simpl in H2.
      exists (S (Nat.max N1 N2)). simpl.
      rewrite (proj2 (handler_and_loop_fuel buf sc ac N1) _ _ _ _ _ E
                 ltac:(discriminate) (Nat.max N1 N2) ltac:(lia)).
      rewrite (proj1 (handler_and_loop_fuel buf sc ac N2) _ _ _ _ E2 H2
                 (Nat.max N1 N2) ltac:(lia)).
      exact H2.
    + destruct (IH (AWS_OP_ERR e) q) as (N2 & H2); [lia |].
      unfold finishes in H2.
      destruct (run_handler buf sc ac N2 _ q) as [r2 q2] eqn:E2. simpl in H2.
      exists (S (Nat.max N1 N2)). simpl.
      rewrite (proj2 (handler_and_loop_fuel buf sc ac N1) _ _ _ _ _ E
                 ltac:(discriminate) (Nat.max N1 N2) ltac:(lia)).
      rewrite (proj1 (handler_and_loop_fuel buf sc ac N2) _ _ _ _ E2 H2
                 (Nat.max N1 N2) ltac:(lia)).
      exact H2.
    + exists (S N1). simpl. rewrite E. unfold finishes. simpl. discriminate.
Qed.

Lemma traverse_loop_S buf sc ac fuel node h p :
  traverse_loop buf sc ac (S fuel) node h p =
  match memchr buf (ptr (doc p)) "<"%byte (len (doc p)) with
  | None => (Undefined, p)
  | Some NULL => (malformed, p)
  | Some next_location =>
      match memchr buf (ptr (doc p)) ">"%byte (len (doc p)) with
      | None => (Undefined, p)
      | Some NULL => (malformed, p)
      | Some end_location =>
          match load buf (ptr_add next_location 1) with
          | None => (Undefined, p)
          | Some c =>
              let p1 :=
                advance_doc (to_size_t (ptr_diff end_location (ptr (doc p)) + 1)) p in
              if Byte.eqb c "/"%byte
              then (AWS_OP_SUCCESS tt, set_stack p1 (tl (cb_stack p1)))
              else
                match s_load_node_decl buf sc ac
                        (aws_byte_cursor_from_array (ptr_add next_location 1)
                           (to_size_t
                              (to_size_t (ptr_diff end_location next_location) - 1)))
                        (empty_node (doc p1)) with
                | AWS_OP_SUCCESS next_node =>
                    match run_handler buf sc ac fuel (h next_node)
                            (record (Ev_node From_traverse next_node) p1) with
                    | (AWS_OP_SUCCESS false, p2) => (AWS_OP_SUCCESS tt, p2)
                    | (AWS_OP_SUCCESS true, p2) =>
                        match s_advance_to_closing_tag buf node p2 with
                        | (AWS_OP_SUCCESS _, p3) => traverse_loop buf sc ac fuel node h p3
                        | (AWS_OP_ERR e, p3) => (AWS_OP_ERR e, p3)
                        | (Undefined, p3) => (Undefined, p3)
                        | (OutOfFuel, p3) => (OutOfFuel, p3)
                        end
                    | (AWS_OP_ERR e, p2) => (AWS_OP_ERR e, p2)
                    | (Undefined, p2) => (Undefined, p2)
                    | (OutOfFuel, p2) => (OutOfFuel, p2)
                    end
                | AWS_OP_ERR e => (AWS_OP_ERR e, p1)
                | Undefined => (Undefined, p1)
                | OutOfFuel => (OutOfFuel, p1)
                end
          end
      end
  end.
Proof. reflexivity. Qed.

Lemma skip_preamble_S buf fuel p :
  skip_preamble buf (S fuel) p =
  if len (doc p) =? 0 then (AWS_OP_SUCCESS tt, p)
  else
    match memchr buf (ptr (doc p)) "<"%byte (len (doc p)) with
    | None => (Undefined, p)
    | Some NULL => (malformed, p)
    | Some start =>
        match memchr buf (ptr (doc p)) ">"%byte (len (doc p)) with
        | None => (Undefined, p)
        | Some NULL => (malformed, p)
        | Some location =>
            let p1 := advance_doc (to_size_t (ptr_diff start (ptr (doc p)))) p in
            match load buf (ptr_add (ptr (doc p1)) 1) with
            | None => (Undefined, p1)
            | Some c =>
                if Byte.eqb c "?"%byte || Byte.eqb c "!"%byte then
                  skip_preamble buf fuel
                    (advance_doc (to_size_t (ptr_diff location (ptr (doc p1)) + 1)) p1)
                else (AWS_OP_SUCCESS tt, p1)
            end
        end
    end.
Proof. reflexivity. Qed.

Ltac step E := rewrite E; cbv beta iota zeta.

Lemma loop_terminates buf sc ac :
  fits buf ->
  forall L node h p,
    (room p <= L)%nat -> exists N, finishes (traverse_loop buf sc ac N node h p).
Proof.
  intros Hf L. induction L as [L IHL] using lt_wf_ind. intros node h p Hp.
  unfold finishes.
  destruct (memchr buf (ptr (doc p)) "<"%byte (len (doc p))) as [[| nl] |] eqn:E1;
    try (exists 1%nat; rewrite traverse_loop_S; step E1; simpl; discriminate).
  destruct (memchr buf (ptr (doc p)) ">"%byte (len (doc p))) as [[| el] |] eqn:E2;
    try (exists 1%nat; rewrite traverse_loop_S; step E1; step E2;
         simpl; discriminate).
  destruct (load buf (ptr_add (Addr nl) 1)) as [c |] eqn:E3;
    [| exists 1%nat; rewrite traverse_loop_S; step E1; step E2; step E3;
       simpl; discriminate].
  destruct (Byte.eqb c "/"%byte) eqn:E4;
    [exists 1%nat; rewrite traverse_loop_S; step E1; step E2; step E3; step E4;
     simpl; discriminate |].
  remember (advance_doc (to_size_t (ptr_diff (Addr el) (ptr (doc p)) + 1)) p)
    as p1 eqn:Hp1.
  assert (Hroom : (room p1 < room p)%nat).
  { destruct (memchr_addr _ _ _ _ _ E2) as (a & i & Ha & -> & Hi & Hl).
    rewrite Hp1. apply (advance_room buf p a (Z.of_nat i)); auto. lia. }
  destruct (s_load_node_decl buf sc ac
              (aws_byte_cursor_from_array (ptr_add (Addr nl) 1)
                 (to_size_t (to_size_t (ptr_diff (Addr el) (Addr nl)) - 1)))
              (empty_node (doc p1))) as [next_node | e | |] eqn:E5;
    try (exists 1%nat; rewrite traverse_loop_S; step E1; step E2; step E3; step E4;
         rewrite <- Hp1; step E5; simpl; discriminate);
    try (exfalso; exact (load_node_decl_finishes _ _ _ _ _ E5)).
  assert (Hlt : (room p1 < L)%nat) by lia.
  destruct (handler_terminates buf sc ac (room p1) (IHL (room p1) Hlt)
              (h next_node) (record (Ev_node From_traverse next_node) p1))
    as (N1 & H1); [rewrite room_record; lia |].
  unfold finishes in H1.
  pose proof (proj1 (handler_and_loop_within buf sc ac N1) (h next_node)
                (record (Ev_node From_traverse next_node) p1)) as Hw.
  destruct (run_handler buf sc ac N1 (h next_node)
              (record (Ev_node From_traverse next_node) p1)) as [r2 p2] eqn:E6.
  simpl in H1, Hw. apply room_within in Hw. rewrite room_record in Hw.
  destruct r2 as [[|] | e | |]; try congruence;
    try (exists (S N1); rewrite traverse_loop_S; step E1; step E2; step E3; step E4;
         rewrite <- Hp1; step E5; step E6; simpl; discriminate).
  pose proof (closing_tag_within buf node p2) as Hw3.
  destruct (s_advance_to_closing_tag buf node p2) as [r3 p3] eqn:E7.
  simpl in Hw3. apply room_within in Hw3.
  pose proof (closing_tag_finishes buf node p2) as Hfin3.
  unfold finishes in Hfin3. rewrite E7 in Hfin3. simpl in Hfin3.
  destruct r3 as [body | e | |]; try congruence;
    try (exists (S N1); rewrite traverse_loop_S; step E1; step E2; step E3; step E4;
         rewrite <- Hp1; step E5; step E6; step E7; simpl; discriminate).
  destruct (IHL (room p1) Hlt node h p3) as (N2 & H2); [lia |].
  unfold finishes in H2.
  destruct (traverse_loop buf sc ac N2 node h p3) as [r4 p4] eqn:E8.
  simpl in H2.
  exists (S (Nat.max N1 N2)). rewrite traverse_loop_S.
  step E1. step E2. step E3. step E4. rewrite <- Hp1. step E5.
  rewrite (proj1 (handler_and_loop_fuel buf sc ac N1) _ _ _ _ E6
             ltac:(discriminate) (Nat.max N1 N2) ltac:(lia)).
  cbv beta iota. rewrite E7. cbv beta iota.
  rewrite (proj2 (handler_and_loop_fuel buf sc ac N2) _ _ _ _ _ E8 H2
             (Nat.max N1 N2) ltac:(lia)).
  exact H2.
Qed.

Lemma run_handler_terminates buf sc ac a p :
  fits buf -> exists N, finishes (run_handler buf sc ac N a p).
Proof.
  intros Hf.
  apply (handler_terminates buf sc ac (room p)); [| lia].
  intros node h q Hq. apply (loop_terminates buf sc ac Hf (room p)); exact Hq.
Qed.

Lemma next_sibling_terminates buf sc ac p :
  fits buf -> exists N, finishes (s_node_next_sibling buf sc ac N p).
Proof.
  intros Hf. unfold finishes, s_node_next_sibling.
  destruct (memchr buf _ _ _) as [[| nl] |]; try (exists 0%nat; simpl; discriminate).
  destruct (memchr buf _ _ _) as [[| el] |]; try (exists 0%nat; simpl; discriminate).
  destruct (s_load_node_decl _ _ _ _ _) as [sibling | | |] eqn:E5;
    try (exists 0%nat; simpl; discriminate);
    try (exfalso; exact (load_node_decl_finishes _ _ _ _ _ E5)).
  destruct (cb_stack _) as [| cb stack]; try (exists 0%nat; simpl; discriminate).
  match goal with
  | |- context [run_handler _ _ _ _ ?a ?q] =>
      destruct (run_handler_terminates buf sc ac a q Hf) as (N & HN)
  end.
  exists N. unfold finishes in HN.
  destruct (run_handler buf sc ac N _ _) as [[b | e | |] q]; simpl in *;
    congruence.
Qed.

Lemma skip_preamble_terminates buf :
  fits buf ->
  forall L p, (room p <= L)%nat -> exists N, finishes (skip_preamble buf N p).
Proof.
  intros Hf L. induction L as [L IHL] using lt_wf_ind. intros p Hp.
  unfold finishes.
  destruct (len (doc p) =? 0) eqn:E0;
    [exists 1%nat; rewrite skip_preamble_S; step E0; simpl; discriminate |].
  destruct (memchr buf (ptr (doc p)) "<"%byte (len (doc p))) as [[| st] |] eqn:E1;
    try (exists 1%nat; rewrite skip_preamble_S; step E0; step E1;
         simpl; discriminate).
  destruct (memchr buf (ptr (doc p)) ">"%byte (len (doc p))) as [[| loc] |] eqn:E2;
    try (exists 1%nat; rewrite skip_preamble_S; step E0; step E1; step E2;
         simpl; discriminate).
  remember (advance_doc (to_size_t (ptr_diff (Addr st) (ptr (doc p)))) p)
    as p1 eqn:Hp1.
  destruct (load buf (ptr_add (ptr (doc p1)) 1)) as [c |] eqn:E3;
    [| exists 1%nat; rewrite skip_preamble_S; step E0; step E1; step E2;
       rewrite <- Hp1; step E3; simpl; discriminate].
  destruct (Byte.eqb c "?"%byte || Byte.eqb c "!"%byte) eqn:E4;
    [| exists 1%nat; rewrite skip_preamble_S; step E0; step E1; step E2;
       rewrite <- Hp1; step E3; step E4; simpl; discriminate].
  remember (advance_doc (to_size_t (ptr_diff (Addr loc) (ptr (doc p1)) + 1)) p1)
    as p2 eqn:Hp2.
  assert (Hroom : (room p2 < room p)%nat).
  { destruct (memchr_addr _ _ _ _ _ E1) as (a & s & Ha & -> & Hs & Hl).
    destruct (memchr_addr _ _ _ _ _ E2) as (a' & l & Ha' & -> & Hlt & _).
    rewrite Ha in Ha'. injection Ha' as <-.
    pose proof Hf as Hf'. unfold fits in Hf'. rewrite half_size_max in Hf'.
    assert (Hd1 : doc p1 = {| len := len (doc p) - Z.of_nat s;
                              ptr := Addr (a + Z.of_nat s) |}).
    { rewrite Hp1. unfold advance_doc. rewrite set_doc_doc, Ha. unfold ptr_diff.
      replace (a + Z.of_nat s - a) with (Z.of_nat s) by lia.
      rewrite (to_size_t_fits buf) by (auto; lia).
      unfold aws_byte_cursor_advance. rewrite half_size_max.
      replace (_ || _ || _) with false
        by (symmetry; rewrite !orb_false_iff, !Z.gtb_ltb, !Z.ltb_ge; lia).
      rewrite Ha. reflexivity. }
    destruct (Z_lt_le_dec (Z.of_nat l) (Z.of_nat s)) as [Hls | Hls].
    - (* the first [>] comes before the [<]: the second advance may do
         nothing, but the first one moved at least one byte *)
      assert (Hw : (room p2 <= room p1)%nat).
      { rewrite Hp2. apply room_within. apply advance_doc_within. }
      unfold room in *. rewrite Hd1 in Hw. simpl in Hw. lia.
    - assert (H2 : (room p2 < room p1)%nat).
      { rewrite Hp2.
        replace (a + Z.of_nat l) with ((a + Z.of_nat s) + (Z.of_nat l - Z.of_nat s))
          by lia.
        apply (advance_room buf p1 (a + Z.of_nat s) (Z.of_nat l - Z.of_nat s) Hf).
        - rewrite Hd1. reflexivity.
        - rewrite Hd1. simpl. lia.
        - rewrite Hd1. simpl. lia. }
      unfold room in *. rewrite Hd1 in H2. simpl in H2. lia. }
  destruct (IHL (room p2) ltac:(lia) p2 ltac:(lia)) as (N & HN).
  exists (S N). unfold finishes in HN. rewrite skip_preamble_S.
  step E0. step E1. step E2. rewrite <- Hp1. step E3. step E4. rewrite <- Hp2.
  exact HN.
Qed.

Lemma parse_fuel buf sc ac fuel h p r p' :
  aws_xml_parser_parse buf sc ac fuel h p = (r, p') ->
  r <> OutOfFuel ->
  forall fuel', (fuel <= fuel')%nat ->
                aws_xml_parser_parse buf sc ac fuel' h p = (r, p').
Proof.
  unfold aws_xml_parser_parse. intros Hrun Hr fuel' Hle.
  destruct (skip_preamble buf fuel (set_stack p [])) as [r1 p1] eqn:E1.
  assert (Hr1 : r1 <> OutOfFuel).
  { intros ->. congruence. }
  rewrite (skip_preamble_fuel buf fuel _ _ _ E1 Hr1 fuel' Hle).
  destruct r1 as [u | e | |]; try exact Hrun.
  eapply next_sibling_fuel; eauto.
Qed.

Lemma parse_terminates buf sc ac h p :
  fits buf ->
  exists N, forall fuel, (N <= fuel)%nat ->
                         finishes (aws_xml_parser_parse buf sc ac fuel h p).
Proof.
  intros Hf.
  assert (H : exists N, finishes (aws_xml_parser_parse buf sc ac N h p)).
  { unfold aws_xml_parser_parse.
    destruct (skip_preamble_terminates buf Hf (room (set_stack p [])) (set_stack p []))
      as (N1 & H1); [lia |].
    unfold finishes in H1.
    destruct (skip_preamble buf N1 (set_stack p [])) as [r1 p1] eqn:E1. simpl in H1.
    destruct r1 as [u | e | |]; try congruence.
    - destruct (next_sibling_terminates buf sc ac
                  (set_stack p1 (h :: cb_stack p1)) Hf) as (N2 & H2).
      unfold finishes in H2.
      destruct (s_node_next_sibling buf sc ac N2 _) as [r2 p2] eqn:E2. simpl in H2.
      exists (Nat.max N1 N2).
      rewrite (skip_preamble_fuel buf N1 _ _ _ E1 H1 (Nat.max N1 N2) ltac:(lia)).
      rewrite (next_sibling_fuel buf sc ac N2 _ _ _ E2 H2 (Nat.max N1 N2) ltac:(lia)).
      exact H2.
    - exists N1. rewrite E1. unfold finishes. simpl. discriminate.
    - exists N1. rewrite E1. unfold finishes. simpl. discriminate. }
  destruct H as (N & HN). exists N. intros fuel Hle.
  unfold finishes in *.
  destruct (aws_xml_parser_parse buf sc ac N h p) as [r q] eqn:E. simpl in HN.
  rewrite (parse_fuel buf sc ac N h p r q E HN fuel Hle). exact HN.
Qed.

Lemma traverse_terminates buf sc ac node h p :
  fits buf ->
  exists N, forall fuel, (N <= fuel)%nat ->
                         finishes (aws_xml_node_traverse buf sc ac fuel node h p).
Proof.
  intros Hf. unfold aws_xml_node_traverse.
  destruct (loop_terminates buf sc ac Hf (room p) node h
              (set_stack p (h :: cb_stack p))) as (N & HN); [rewrite room_set_stack; lia |].
  exists N. intros fuel Hle. unfold finishes in *.
  destruct (traverse_loop buf sc ac N node h _) as [r q] eqn:E. simpl in HN.
  rewrite (proj2 (handler_and_loop_fuel buf sc ac N) _ _ _ _ _ E HN fuel Hle).
  exact HN.
Qed.

Lemma parse_map_return buf sc ac fuel h f p :
  let r := aws_xml_parser_parse buf sc ac fuel h p in
  let r' :=
    aws_xml_parser_parse buf sc ac fuel (fun n => map_return f (h n)) p in
  fst r' = fst r /\
  doc (snd r') = doc (snd r) /\
  trace (snd r') = trace (snd r) /\
  (root_calls (trace (snd r)) <= root_calls (trace p) + 1)%nat /\
  match fst r with
  | AWS_OP_ERR _ => trace (snd r) = trace p
  | _ => True
  end.
Proof.
  unfold aws_xml_parser_parse.
  pose proof (skip_preamble_trace buf fuel (set_stack p [])) as Ht.
  destruct (skip_preamble buf fuel (set_stack p [])) as [r1 p1]. simpl in Ht.
  destruct r1 as [[] | e | |]; cbv zeta; simpl;
    try (rewrite Ht; repeat split; auto; lia).
  pose proof (next_sibling_map_return buf sc ac fuel h f
                (cb_stack p1) (cb_stack p1) p1) as [Hr Hc].
  pose proof (next_sibling_root_calls buf sc ac fuel
                (set_stack p1 (h :: cb_stack p1))) as [Hn He].
  simpl in Hn, He. rewrite Ht in Hn, He.
  unfold core in Hc. injection Hc as Hd Htr.
  repeat split; auto.
Qed.
(** * The claims *)

Ltac not_in :=
  let H := fresh in
  intro H; simpl in H;
  repeat (destruct H as [H | H]; [discriminate H |]);
  exact H.

Ltac fits_small := unfold fits; rewrite half_size_max; simpl; lia.


(** C1 (code bug): in [aws_xml_node_traverse], after the callback returned
    true for the child [a] of [<p><a>x</a><b>y</b></p>], the code calls the
    closing-tag matcher with the parent node [p]: it finds [</p>] sixteen
    bytes into the parent's body and asks for an advance of twenty bytes,
    more than the seventeen left, so the cursor stays after [<a>].  The
    matcher applied with the child would have moved the cursor past [</a>].
    The loop then reads [</a>] as the parent's closing tag and stops: with
    any fuel that lets the run end, the traversal ends with [a] as the only
    node handed to the callback. *)
Theorem traverse_matches_parent_closing_tag (fuel : nat) :
  (3 <= fuel)%nat ->
  s_advance_to_closing_tag doc_siblings siblings_parent siblings_after_first =
  (AWS_OP_SUCCESS {| len := 16; ptr := Addr 3 |}, siblings_after_first) /\
  s_advance_to_closing_tag doc_siblings siblings_first siblings_after_first =
  (AWS_OP_SUCCESS {| len := 1; ptr := Addr 6 |},
   set_doc siblings_after_first {| len := 12; ptr := Addr 11 |}) /\
  aws_xml_node_traverse doc_siblings 10 10 fuel siblings_parent (always true)
    {| doc := doc_at_body siblings_parent; cb_stack := []; trace := [] |} =
  (AWS_OP_SUCCESS tt,
   {| doc := {| len := 12; ptr := Addr 11 |};
      cb_stack := [];
      trace := [Ev_node From_traverse siblings_first] |}) /\
  cursor_bytes doc_siblings {| len := 12; ptr := Addr 11 |} =
  Some (bytes "<b>y</b></p>").
Proof.
  intros Hfuel.
  split; [vm_compute; reflexivity |].
  split; [vm_compute; reflexivity |].
  split; [| vm_compute; reflexivity].
  unfold aws_xml_node_traverse.
  apply (proj2 (handler_and_loop_fuel doc_siblings 10 10 3)); [| discriminate | exact Hfuel].
  vm_compute. reflexivity.
Qed.

(** An instance of C1 with the least fuel. *)
Lemma traverse_matches_parent_closing_tag_witness :
  (3 <= 3)%nat /\
  aws_xml_node_traverse doc_siblings 10 10 3 siblings_parent (always true)
    {| doc := doc_at_body siblings_parent; cb_stack := []; trace := [] |} =
  (AWS_OP_SUCCESS tt,
   {| doc := {| len := 12; ptr := Addr 11 |};
      cb_stack := [];
      trace := [Ev_node From_traverse siblings_first] |}).
Proof.
  assert (H : (3 <= 3)%nat) by lia.
  split; [exact H |].
  exact (proj1 (proj2 (proj2 (traverse_matches_parent_closing_tag 3 H)))).
Defined.

(** C2 (code bug): [<p><a>x</a><b>y</b></p>] has two well-formed siblings
    under [p], yet traversing [p] with a callback that always returns true
    invokes it once, for [a] only; with any fuel that lets the run end, the
    parse ends in success with [<b>] still unread. *)
Theorem traverse_visits_one_of_two_siblings (fuel : nat) :
  (4 <= fuel)%nat ->
  let r :=
    aws_xml_parser_parse doc_siblings 10 10 fuel (descend (always true))
      (aws_xml_parser_init (whole doc_siblings)) in
  fst r = AWS_OP_SUCCESS tt /\
  traversed (trace (snd r)) = [siblings_first] /\
  length (filter is_child_call (trace (snd r))) = 1%nat /\
  cursor_bytes doc_siblings (doc (snd r)) = Some (bytes "<b>y</b></p>").
Proof.
  intros Hfuel. cbv zeta.
  set (x := aws_xml_parser_parse doc_siblings 10 10 4 (descend (always true))
              (aws_xml_parser_init (whole doc_siblings))).
  assert (E : x = (fst x, snd x)) by (destruct x; reflexivity).
  assert (Hx : fst x <> OutOfFuel) by (vm_compute; discriminate).
  rewrite (parse_fuel doc_siblings 10 10 4 _ _ _ _ E Hx fuel Hfuel).
  vm_compute. auto.
Qed.

(** An instance of C2 with the least fuel. *)
Lemma traverse_visits_one_of_two_siblings_witness :
  (4 <= 4)%nat /\
  traversed
    (trace (snd (aws_xml_parser_parse doc_siblings 10 10 4 (descend (always true))
                   (aws_xml_parser_init (whole doc_siblings))))) = [siblings_first].
Proof.
  assert (H : (4 <= 4)%nat) by lia.
  split; [exact H |].
  exact (proj1 (proj2 (traverse_visits_one_of_two_siblings 4 H))).
Defined.

(** C3: the closing-tag match of [aws_xml_node_as_body] is an exact, forward,
    first-occurrence search for [</name>].  For every document
    [<name>text</name>] with a plain name and a text without [<], parsing with
    a callback that takes the body hands back exactly [text] and leaves the
    cursor at the end of the document.  In general the body returned runs
    from the start of the node's search region to the first occurrence of the
    closing tag, and the cursor moves by that length plus the length of the
    tag.  On [<a><a>inner</a></a>] the body of the outer node is
    [<a>inner]: the search closes on the inner [</a>] and leaves the outer
    one unread. *)
Theorem node_as_body_returns_text_before_first_closing_tag
  (sc ac fuel : nat) (nm text : list byte) :
  fits (element nm text) ->
  plain_name nm ->
  ~ In "<"%byte text ->
  (1 <= sc)%nat ->
  (2 <= fuel)%nat ->
  (aws_xml_parser_parse (element nm text) sc ac fuel take_body
     (aws_xml_parser_init (whole (element nm text))) =
   (AWS_OP_SUCCESS tt,
    {| doc := cur_at (element nm text) [];
       cb_stack := [take_body];
       trace := [Ev_node From_next_sibling (single_node nm text);
                 Ev_body (single_node nm text)
                   (AWS_OP_SUCCESS (single_body nm text))] |}) /\
   cursor_bytes (element nm text) (single_body nm text) = Some text) /\
  (forall buf node p nm' body i,
      fits buf ->
      cursor_bytes buf (name node) = Some nm' ->
      cursor_bytes buf (doc_at_body node) = Some body ->
      (length nm' <= 256)%nat ->
      first_occurrence (closing_tag nm') body i ->
      aws_xml_node_as_body buf node p =
      (AWS_OP_SUCCESS {| len := Z.of_nat i; ptr := ptr (doc_at_body node) |},
       set_doc p (aws_byte_cursor_advance (doc p)
                    (Z.of_nat (i + length (closing_tag nm'))))) /\
      cursor_bytes buf {| len := Z.of_nat i; ptr := ptr (doc_at_body node) |} =
      Some (firstn i body)) /\
  (aws_xml_parser_parse doc_nested 10 10 2 take_body
     (aws_xml_parser_init (whole doc_nested)) =
   (AWS_OP_SUCCESS tt,
    {| doc := {| len := 4; ptr := Addr 15 |};
       cb_stack := [take_body];
       trace := [Ev_node From_next_sibling nested_outer;
                 Ev_body nested_outer (AWS_OP_SUCCESS nested_body)] |}) /\
   cursor_bytes doc_nested nested_body = Some (bytes "<a>inner") /\
   cursor_bytes doc_nested {| len := 4; ptr := Addr 15 |} = Some (bytes "</a>")).
Proof.
  intros Hf (Hsp & Hgt & Hq & Hx & Hlen) Htext Hss Hfuel.
  destruct fuel as [| [| fuel]]; try lia.
  assert (Hhd : forall c, ~ In c nm -> c <> ">"%byte -> hd ">"%byte nm <> c).
  { intros c Hc Hne. destruct nm as [| x nm']; simpl in *; [congruence | tauto]. }
  split; [| split].
  - split.
    + rewrite (parse_steps (element nm text) sc ac _ take_body [] [] nm
                 (text ++ closing_tag nm) Hf);
        [ | reflexivity | constructor | simpl; tauto | assumption
          | apply Hhd; [assumption | discriminate]
          | apply Hhd; [assumption | discriminate]
          | simpl; lia ].
      cbv zeta. cbn [doc preamble map concat]. rewrite !app_nil_l.
      rewrite (s_load_node_decl_plain (element nm text) sc ac _ _ nm);
        [ | apply cursor_bytes_cur_at with (post := ">"%byte :: text ++ closing_tag nm);
            reflexivity
          | assumption | assumption ].
      fold (single_node nm text).
      rewrite (run_take_body (element nm text) sc ac fuel _ _ nm text []
                 ("<"%byte :: nm ++ [">"%byte]) Hf);
        [ | rewrite app_nil_r; simpl; rewrite <- app_assoc; reflexivity
          | apply cursor_bytes_cur_at with (post := ">"%byte :: text ++ closing_tag nm);
            reflexivity
          | reflexivity
          | cbn [doc record]; rewrite app_nil_r; reflexivity
          | assumption | assumption ].
      unfold ignore_return, record, set_doc. cbn [doc cb_stack trace].
      repeat f_equal.
      unfold element. simpl. rewrite <- app_assoc. reflexivity.
    + unfold single_body.
      apply cursor_bytes_cur_at with (post := closing_tag nm).
      unfold element. rewrite <- !app_assoc. reflexivity.
  - intros buf node p nm' body i Hfb Hn Hb Hl Hfirst.
    unfold aws_xml_node_as_body.
    rewrite (closing_tag_spec buf node p nm' body Hfb Hn Hb).
    replace (256 <? length nm')%nat with false by (symmetry; apply Nat.ltb_ge; lia).
    rewrite (find_sub_first_occurrence _ _ _ Hfirst).
    split; [reflexivity |].
    pose proof (find_sub_some _ _ _ (find_sub_first_occurrence _ _ _ Hfirst))
      as (_ & Hi & _).
    unfold cursor_bytes in *. simpl.
    rewrite <- (firstn_skipn i body) in Hb.
    change (firstn i body ++ skipn i body)
      with ([] ++ firstn i body ++ skipn i body) in Hb.
    apply slice_sub in Hb. simpl length in Hb. simpl Z.of_nat in Hb.
    rewrite ptr_add_0, length_firstn in Hb.
    replace (Nat.min i (length body)) with i in Hb by lia.
    exact Hb.
  - vm_compute. auto.
Qed.

(** An instance of C3 on a small document, with every premise checked. *)
Lemma node_as_body_returns_text_before_first_closing_tag_witness :
  fits (element (bytes "a") (bytes "text")) /\
  plain_name (bytes "a") /\
  ~ In "<"%byte (bytes "text") /\
  aws_xml_parser_parse doc_single 10 10 2 take_body
    (aws_xml_parser_init (whole doc_single)) =
  (AWS_OP_SUCCESS tt,
   {| doc := {| len := 0; ptr := Addr 11 |};
      cb_stack := [take_body];
      trace := [Ev_node From_next_sibling (single_node (bytes "a") (bytes "text"));
                Ev_body (single_node (bytes "a") (bytes "text"))
                  (AWS_OP_SUCCESS {| len := 4; ptr := Addr 3 |})] |}) /\
  cursor_bytes doc_single {| len := 4; ptr := Addr 3 |} = Some (bytes "text").
Proof.
  assert (H1 : fits (element (bytes "a") (bytes "text"))) by fits_small.
  assert (H2 : plain_name (bytes "a")).
  { unfold plain_name. repeat split; try not_in. simpl; lia. }
  assert (H3 : ~ In "<"%byte (bytes "text")) by not_in.
  assert (H4 : (1 <= 10)%nat) by lia.
  assert (H5 : (2 <= 2)%nat) by lia.
  split; [exact H1 |]. split; [exact H2 |]. split; [exact H3 |].
  exact (proj1 (node_as_body_returns_text_before_first_closing_tag
                  10 10 2 (bytes "a") (bytes "text") H1 H2 H3 H4 H5)).
Defined.

(** C4: [aws_xml_node_as_body] fails with [AWS_ERROR_MALFORMED_INPUT_STRING]
    exactly when the node's name is longer than 256 bytes or [</name>] does
    not occur in what is left of the document at the node's body.  The error
    is a returned value and the parser is left as it was; in every other case
    the call succeeds.  On [<a>text] the callback gets this error back. *)
Theorem node_as_body_fails_exactly_without_closing_tag
  (buf : list byte) (node : aws_xml_node) (p : aws_xml_parser)
  (nm body : list byte) :
  fits buf ->
  cursor_bytes buf (name node) = Some nm ->
  cursor_bytes buf (doc_at_body node) = Some body ->
  (fst (aws_xml_node_as_body buf node p) = malformed <->
   (256 < length nm)%nat \/ ~ occurs (closing_tag nm) body) /\
  (aws_xml_node_as_body buf node p = (malformed, p) \/
   exists i, fst (aws_xml_node_as_body buf node p) =
             AWS_OP_SUCCESS {| len := Z.of_nat i; ptr := ptr (doc_at_body node) |}) /\
  aws_xml_parser_parse doc_unclosed 10 10 2 take_body
    (aws_xml_parser_init (whole doc_unclosed)) =
  (AWS_OP_SUCCESS tt,
   {| doc := {| len := 4; ptr := Addr 3 |};
      cb_stack := [take_body];
      trace := [Ev_node From_next_sibling unclosed_node;
                Ev_body unclosed_node malformed] |}).
Proof.
  intros Hf Hn Hb. unfold aws_xml_node_as_body.
  rewrite (closing_tag_spec buf node p nm body Hf Hn Hb).
  rewrite <- find_sub_none_iff.
  split; [| split].
  - destruct (256 <? length nm)%nat eqn:E.
    + apply Nat.ltb_lt in E. simpl. tauto.
    + apply Nat.ltb_ge in E.
      destruct (find_sub (closing_tag nm) body) as [i |]; simpl.
      * split; [discriminate | intros [H | H]; [lia | discriminate]].
      * tauto.
  - destruct (if (256 <? length nm)%nat then None else find_sub (closing_tag nm) body)
      as [i |]; simpl; eauto.
  - vm_compute. reflexivity.
Qed.

(** An instance of C4 on a small document, with every premise checked. *)
Lemma node_as_body_fails_exactly_without_closing_tag_witness :
  fits doc_unclosed /\
  cursor_bytes doc_unclosed (name unclosed_node) = Some (bytes "a") /\
  cursor_bytes doc_unclosed (doc_at_body unclosed_node) = Some (bytes "text") /\
  (fst (aws_xml_node_as_body doc_unclosed unclosed_node
          (aws_xml_parser_init (doc_at_body unclosed_node))) = malformed <->
   (256 < length (bytes "a"))%nat \/ ~ occurs (closing_tag (bytes "a")) (bytes "text")).
Proof.
  assert (H1 : fits doc_unclosed) by fits_small.
  assert (H2 : cursor_bytes doc_unclosed (name unclosed_node) = Some (bytes "a"))
    by reflexivity.
  assert (H3 : cursor_bytes doc_unclosed (doc_at_body unclosed_node) =
               Some (bytes "text")) by reflexivity.
  split; [exact H1 |]. split; [exact H2 |]. split; [exact H3 |].
  exact (proj1 (node_as_body_fails_exactly_without_closing_tag
                  doc_unclosed unclosed_node
                  (aws_xml_parser_init (doc_at_body unclosed_node))
                  (bytes "a") (bytes "text") H1 H2 H3)).
Defined.

(** C5 (as amended): a declaration whose tokens fit the split scratch array
    decodes without error; its first token is the node's name, and every later
    token adds to the attribute list what [attribute_entry] says, in order,
    until the attribute array is full.  A token without [=] is not dropped: it
    adds an attribute named by the whole token with an empty value.  A token
    [key=value] adds the pair, and the tokens that add nothing are those with
    two or more [=]. *)
Theorem tokens_without_equals_become_attributes
  (buf : list byte) (sc ac : nat) (decl body : aws_byte_cursor) (d : list byte) :
  cursor_bytes buf decl = Some d ->
  (length (split_on " "%byte d) <= sc)%nat ->
  (exists node,
      s_load_node_decl buf sc ac decl (empty_node body) = AWS_OP_SUCCESS node /\
      cursor_bytes buf (name node) = Some (hd [] (split_on " "%byte d)) /\
      Forall2 (attribute_is buf) (attributes node)
        (firstn ac (flat_map attribute_entry (tl (split_on " "%byte d))))) /\
  (forall t, ~ In "="%byte t -> attribute_entry t = [(t, [])]) /\
  (forall k v, ~ In "="%byte k -> ~ In "="%byte v ->
               attribute_entry (pair_token (k, v)) =
               [(k, trim_bytes s_trim_quotes_fn v)]) /\
  (forall a b c, ~ In "="%byte a -> ~ In "="%byte b ->
                 attribute_entry (a ++ "="%byte :: b ++ "="%byte :: c) = []).
Proof.
  intros Hd Hss. split; [| split; [| split]].
  - destruct (s_load_node_decl_spec buf sc ac decl body d Hd Hss)
      as (node & Hn & Hname & _ & Hatts).
    exists node. auto.
  - apply attribute_entry_plain.
  - apply attribute_entry_pair.
  - apply attribute_entry_many.
Qed.

(** Counterexample to C5 as stated: in the declaration [a b] the token [b]
    has no [=], and the decoded node has one attribute, named [b], with an
    empty value. *)
Lemma token_without_equals_is_kept :
  attribute_bytes decl_plain
    (s_load_node_decl decl_plain 10 10 (whole decl_plain) (empty_node zero_cursor)) =
  [(Some (bytes "b"), Some [])] /\
  attribute_bytes decl_plain
    (s_load_node_decl decl_plain 10 10 (whole decl_plain) (empty_node zero_cursor)) <> [].
Proof. split; [vm_compute; reflexivity | vm_compute; discriminate]. Qed.

(** An instance of C5 on a small document, with every premise checked. *)
Lemma tokens_without_equals_become_attributes_witness :
  cursor_bytes decl_plain (whole decl_plain) = Some decl_plain /\
  (length (split_on " "%byte decl_plain) <= 10)%nat /\
  exists node,
    s_load_node_decl decl_plain 10 10 (whole decl_plain) (empty_node zero_cursor) =
    AWS_OP_SUCCESS node /\
    cursor_bytes decl_plain (name node) = Some (bytes "a") /\
    Forall2 (attribute_is decl_plain) (attributes node) [(bytes "b", [])].
Proof.
  assert (H1 : cursor_bytes decl_plain (whole decl_plain) = Some decl_plain)
    by reflexivity.
  assert (H2 : (length (split_on " "%byte decl_plain) <= 10)%nat) by (simpl; lia).
  split; [exact H1 |]. split; [exact H2 |].
  exact (proj1 (tokens_without_equals_become_attributes
                  decl_plain 10 10 (whole decl_plain) zero_cursor decl_plain H1 H2)).
Defined.

(** C6 (as amended): in a declaration [name k1=v1 k2=v2 ...] every attribute
    comes out with the bytes of its key and with its value trimmed by
    [s_trim_quotes_fn], which matches the double quote only: a value between
    double quotes loses them, and a value without double quotes, such as one
    between single quotes, is delivered as it stands. *)
Theorem attribute_values_lose_double_quotes
  (buf : list byte) (sc ac : nat) (decl body : aws_byte_cursor)
  (nm : list byte) (kvs : list (list byte * list byte)) :
  cursor_bytes buf decl = Some (join " "%byte (nm :: map pair_token kvs)) ->
  ~ In " "%byte nm ->
  Forall (fun kv => ~ In " "%byte (pair_token kv) /\
                    ~ In "="%byte (fst kv) /\ ~ In "="%byte (snd kv)) kvs ->
  (length kvs < sc)%nat ->
  (length kvs <= ac)%nat ->
  (exists node,
      s_load_node_decl buf sc ac decl (empty_node body) = AWS_OP_SUCCESS node /\
      cursor_bytes buf (name node) = Some nm /\
      Forall2 (attribute_is buf) (attributes node)
        (map (fun kv => (fst kv, trim_bytes s_trim_quotes_fn (snd kv))) kvs)) /\
  (forall w, ~ In x22 w -> trim_bytes s_trim_quotes_fn (x22 :: w ++ [x22]) = w) /\
  (forall w, ~ In x22 w -> trim_bytes s_trim_quotes_fn w = w) /\
  s_trim_quotes_fn "'"%byte = false.
Proof.
  intros Hd Hnm Hkvs Hss Has.
  assert (Hq : forall w x, ~ In x22 w -> In x w -> s_trim_quotes_fn x = false).
  { intros w x Hw Hx. unfold s_trim_quotes_fn.
    destruct (Byte.eqb x x22) eqn:E; [| reflexivity].
    apply Byte.byte_dec_bl in E. subst x. tauto. }
  split; [| split; [| split]].
  - assert (Hsplit : split_on " "%byte (join " "%byte (nm :: map pair_token kvs)) =
                     nm :: map pair_token kvs).
    { apply split_on_join; [discriminate |].
      constructor; [assumption |].
      apply Forall_map. eapply Forall_impl; [| exact Hkvs].
      simpl. tauto. }
    destruct (s_load_node_decl_spec buf sc ac decl body _ Hd)
      as (node & Hn & Hname & _ & Hatts).
    { rewrite Hsplit. simpl. rewrite length_map. lia. }
    rewrite Hsplit in Hname, Hatts. simpl in Hname, Hatts.
    rewrite flat_map_pair_tokens in Hatts
      by (eapply Forall_impl; [| exact Hkvs]; simpl; tauto).
    rewrite firstn_all2 in Hatts by (rewrite length_map; lia).
    exists node. auto.
  - intros w Hw. apply trim_bytes_quoted; [reflexivity | eauto].
  - intros w Hw. apply trim_bytes_none. eauto.
  - reflexivity.
Qed.

(** Counterexample to C6 as stated: in the declaration [a k='v'] the value
    of [k] comes out as ['v'], single quotes included. *)
Lemma single_quotes_are_kept :
  attribute_bytes decl_single_quoted
    (s_load_node_decl decl_single_quoted 10 10 (whole decl_single_quoted)
       (empty_node zero_cursor)) =
  [(Some (bytes "k"), Some (bytes "'v'"))] /\
  bytes "'v'" <> bytes "v".
Proof. split; [vm_compute; reflexivity | discriminate]. Qed.

(** An instance of C6 on a small document, with every premise checked. *)
Lemma attribute_values_lose_double_quotes_witness :
  cursor_bytes decl_double_quoted (whole decl_double_quoted) =
  Some (join " "%byte
          (bytes "a" :: map pair_token [(bytes "k", [x22] ++ bytes "v" ++ [x22])])) /\
  ~ In " "%byte (bytes "a") /\
  exists node,
    s_load_node_decl decl_double_quoted 10 10 (whole decl_double_quoted)
      (empty_node zero_cursor) = AWS_OP_SUCCESS node /\
    cursor_bytes decl_double_quoted (name node) = Some (bytes "a") /\
    Forall2 (attribute_is decl_double_quoted) (attributes node)
      [(bytes "k", bytes "v")].
Proof.
  assert (H1 : cursor_bytes decl_double_quoted (whole decl_double_quoted) =
               Some (join " "%byte
                       (bytes "a" ::
                          map pair_token [(bytes "k", [x22] ++ bytes "v" ++ [x22])])))
    by reflexivity.
  assert (H2 : ~ In " "%byte (bytes "a")) by not_in.
  assert (H3 : Forall (fun kv => ~ In " "%byte (pair_token kv) /\
                                 ~ In "="%byte (fst kv) /\ ~ In "="%byte (snd kv))
                 [(bytes "k", [x22] ++ bytes "v" ++ [x22])]).
  { constructor; [| constructor]. repeat split; not_in. }
  assert (H4 : (length [(bytes "k", [x22] ++ bytes "v" ++ [x22])] < 10)%nat)
    by (simpl; lia).
  assert (H5 : (length [(bytes "k", [x22] ++ bytes "v" ++ [x22])] <= 10)%nat)
    by (simpl; lia).
  split; [exact H1 |]. split; [exact H2 |].
  exact (proj1 (attribute_values_lose_double_quotes
                  decl_double_quoted 10 10 (whole decl_double_quoted) zero_cursor
                  (bytes "a") [(bytes "k", [x22] ++ bytes "v" ++ [x22])]
                  H1 H2 H3 H4 H5)).
Defined.

(** C7 (as amended): the single-level sibling walk has no test for [/].  At
    a tag [</...>] it skips the bracketed span like any other, decodes the
    text between the brackets into a node whose name starts with [/], and
    invokes the callback on top of the stack with that node; with a callback
    that returns at once the walk ends in success with the node in the
    trace. *)
Theorem sibling_walk_decodes_closing_tag_as_node
  (buf : list byte) (sc ac fuel : nat) (p : aws_xml_parser)
  (pre ws decl rest : list byte) (cb : handler) (stack : list handler) :
  fits buf ->
  buf = pre ++ ws ++ "<"%byte :: ("/"%byte :: decl) ++ ">"%byte :: rest ->
  ~ In "<"%byte ws ->
  ~ In ">"%byte decl ->
  doc p = cur_at pre (ws ++ "<"%byte :: ("/"%byte :: decl) ++ ">"%byte :: rest) ->
  cb_stack p = cb :: stack ->
  (length (split_on " "%byte ("/"%byte :: decl)) <= sc)%nat ->
  let p2 :=
    set_doc p (cur_at (pre ++ ws ++ "<"%byte :: ("/"%byte :: decl) ++ [">"%byte]) rest) in
  exists node nm,
    cursor_bytes buf (name node) = Some ("/"%byte :: nm) /\
    doc_at_body node = doc p2 /\
    s_node_next_sibling buf sc ac fuel p =
    ignore_return
      (run_handler buf sc ac fuel (cb node)
         (record (Ev_node From_next_sibling node) p2)) /\
    match cb node, fuel with
    | Return _, S _ =>
        s_node_next_sibling buf sc ac fuel p =
        (AWS_OP_SUCCESS tt, record (Ev_node From_next_sibling node) p2)
    | _, _ => True
    end.
Proof.
  intros Hf Hb Hws Hdecl Hd Hcb Hss p2.
  assert (Hgt : ~ In ">"%byte ("/"%byte :: decl)).
  { simpl. intros [H | H]; [discriminate | tauto]. }
  pose proof (next_sibling_steps buf sc ac fuel p pre ws ("/"%byte :: decl) rest
                Hf Hb Hws Hgt Hd) as Hstep.
  cbv zeta in Hstep. fold p2 in Hstep.
  assert (Hbytes : cursor_bytes buf (cur_at (pre ++ ws ++ ["<"%byte]) ("/"%byte :: decl)) =
                   Some ("/"%byte :: decl)).
  { apply cursor_bytes_cur_at with (post := ">"%byte :: rest).
    rewrite Hb, <- !app_assoc. reflexivity. }
  destruct (s_load_node_decl_spec buf sc ac _ (doc p2) _ Hbytes Hss)
    as (node & Hnode & Hname & Hbody & _).
  destruct (split_on_hd_cons " "%byte "/"%byte decl) as (nm & Hnm); [discriminate |].
  rewrite Hnm in Hname.
  rewrite Hnode, Hcb in Hstep.
  exists node, nm. repeat split; try assumption.
  destruct (cb node) eqn:Ecb; try exact I.
  destruct fuel as [| fuel]; [exact I |].
  rewrite Hstep, run_handler_return. reflexivity.
Qed.

(** Counterexample to C7 as stated: on [</a>] the sibling walk does not stop
    short of the callback; it invokes it with a node named [/a]. *)
Lemma closing_tag_reaches_the_callback :
  s_node_next_sibling doc_closing_first 10 10 1
    {| doc := whole doc_closing_first; cb_stack := [always true]; trace := [] |} =
  (AWS_OP_SUCCESS tt,
   {| doc := {| len := 0; ptr := Addr 4 |};
      cb_stack := [always true];
      trace := [Ev_node From_next_sibling closing_first_node] |}) /\
  cursor_bytes doc_closing_first (name closing_first_node) = Some (bytes "/a").
Proof. vm_compute. auto. Qed.

(** An instance of C7 on a small document, with every premise checked. *)
Lemma sibling_walk_decodes_closing_tag_as_node_witness :
  fits doc_closing_first /\
  doc_closing_first = [] ++ [] ++ "<"%byte :: ("/"%byte :: bytes "a") ++ ">"%byte :: [] /\
  exists node nm,
    cursor_bytes doc_closing_first (name node) = Some ("/"%byte :: nm) /\
    doc_at_body node = {| len := 0; ptr := Addr 4 |} /\
    s_node_next_sibling doc_closing_first 10 10 1
      {| doc := whole doc_closing_first; cb_stack := [always true]; trace := [] |} =
    ignore_return
      (run_handler doc_closing_first 10 10 1 (always true node)
         {| doc := {| len := 0; ptr := Addr 4 |};
            cb_stack := [always true];
            trace := [Ev_node From_next_sibling node] |}) /\
    s_node_next_sibling doc_closing_first 10 10 1
      {| doc := whole doc_closing_first; cb_stack := [always true]; trace := [] |} =
    (AWS_OP_SUCCESS tt,
     {| doc := {| len := 0; ptr := Addr 4 |};
        cb_stack := [always true];
        trace := [Ev_node From_next_sibling node] |}).
Proof.
  assert (H1 : fits doc_closing_first) by fits_small.
  assert (H2 : doc_closing_first =
               [] ++ [] ++ "<"%byte :: ("/"%byte :: bytes "a") ++ ">"%byte :: [])
    by reflexivity.
  assert (H3 : ~ In "<"%byte []) by not_in.
  assert (H4 : ~ In ">"%byte (bytes "a")) by not_in.
  assert (H5 : (length (split_on " "%byte ("/"%byte :: bytes "a")) <= 10)%nat)
    by (simpl; lia).
  split; [exact H1 |]. split; [exact H2 |].
  exact (sibling_walk_decodes_closing_tag_as_node
           doc_closing_first 10 10 1
           {| doc := whole doc_closing_first; cb_stack := [always true]; trace := [] |}
           [] [] (bytes "a") [] (always true) [] H1 H2 H3 H4 eq_refl eq_refl H5).
Defined.

(** C8 (as amended): [aws_xml_parser_parse] burns every leading declaration
    that starts with [<?] or [<!], up to and including its first [>].  The
    first node decoded and handed to the root callback is the one decoded
    from the first tag that starts with neither: its declaration is the text
    between the brackets, so for [<?xml version="1.0"?><root/>] the name of
    the node is the five bytes [root/].  When what is left after the
    declarations is not empty and holds no [<], or no [>], the call fails with
    [AWS_ERROR_MALFORMED_INPUT_STRING] and no callback runs; when nothing is
    left, it succeeds and no callback runs. *)
Theorem parse_skips_preamble_declarations
  (buf : list byte) (sc ac fuel : nat) (h : handler)
  (rs : list preamble_decl) (tail : list byte) :
  fits buf ->
  buf = preamble rs ++ tail ->
  Forall is_preamble rs ->
  (length rs < fuel)%nat ->
  (forall ws decl rest,
      tail = ws ++ "<"%byte :: decl ++ ">"%byte :: rest ->
      ~ In "<"%byte ws ->
      ~ In ">"%byte decl ->
      hd ">"%byte decl <> "?"%byte ->
      hd ">"%byte decl <> "!"%byte ->
      aws_xml_parser_parse buf sc ac fuel h (aws_xml_parser_init (whole buf)) =
      let p2 :=
        {| doc := cur_at (preamble rs ++ ws ++ "<"%byte :: decl ++ [">"%byte]) rest;
           cb_stack := [h];
           trace := [] |} in
      match s_load_node_decl buf sc ac (cur_at (preamble rs ++ ws ++ ["<"%byte]) decl)
              (empty_node (doc p2)) with
      | AWS_OP_SUCCESS root =>
          ignore_return
            (run_handler buf sc ac fuel (h root)
               (record (Ev_node From_next_sibling root) p2))
      | AWS_OP_ERR e => (AWS_OP_ERR e, p2)
      | Undefined => (Undefined, p2)
      | OutOfFuel => (OutOfFuel, p2)
      end) /\
  (tail <> [] ->
   ~ In "<"%byte tail \/ ~ In ">"%byte tail ->
   aws_xml_parser_parse buf sc ac fuel h (aws_xml_parser_init (whole buf)) =
   (malformed,
    {| doc := cur_at (preamble rs) tail; cb_stack := []; trace := [] |})) /\
  (tail = [] ->
   aws_xml_parser_parse buf sc ac fuel h (aws_xml_parser_init (whole buf)) =
   (AWS_OP_SUCCESS tt,
    {| doc := cur_at (preamble rs) []; cb_stack := [h]; trace := [] |})) /\
  (aws_xml_parser_parse doc_preamble 10 10 2 (always true)
     (aws_xml_parser_init (whole doc_preamble)) =
   (AWS_OP_SUCCESS tt,
    {| doc := {| len := 0; ptr := Addr 28 |};
       cb_stack := [always true];
       trace := [Ev_node From_next_sibling preamble_root] |}) /\
   cursor_bytes doc_preamble (name preamble_root) = Some (bytes "root/")).
Proof.
  intros Hf Hb Hrs Hfuel.
  split; [| split; [| split]].
  - intros ws decl rest Htail Hws Hdecl Hq Hx.
    apply parse_steps; try assumption. rewrite Hb, Htail. reflexivity.
  - intros Hne Hno.
    destruct (Nat.le_exists_sub (S (length rs)) fuel Hfuel) as (f & Hfu & _).
    replace fuel with (length rs + S f)%nat by lia.
    unfold aws_xml_parser_parse, aws_xml_parser_init, set_stack.
    cbn [doc cb_stack trace].
    rewrite (skip_preamble_all buf rs (S f) _ [] tail Hf Hb Hrs)
      by (rewrite Hb; reflexivity).
    rewrite app_nil_l.
    rewrite (skip_preamble_malformed buf f _ (preamble rs) tail []);
      [reflexivity | rewrite app_nil_r; exact Hb | reflexivity | exact Hne | exact Hno].
  - intros ->.
    destruct (Nat.le_exists_sub (S (length rs)) fuel Hfuel) as (f & Hfu & _).
    replace fuel with (length rs + S f)%nat by lia.
    unfold aws_xml_parser_parse, aws_xml_parser_init, set_stack.
    cbn [doc cb_stack trace].
    rewrite (skip_preamble_all buf rs (S f) _ [] [] Hf Hb Hrs)
      by (rewrite Hb; reflexivity).
    rewrite app_nil_l.
    rewrite (skip_preamble_empty buf f _ (preamble rs)) by reflexivity.
    rewrite (next_sibling_at_end buf sc ac _ _ (preamble rs)) by reflexivity.
    reflexivity.
  - vm_compute. auto.
Qed.

(** Counterexample to C8 as stated: on [<?xml version="1.0"?><root/>] the
    node handed to the root callback is not named [root]; its name is the
    five bytes [root/]. *)
Lemma self_closing_root_keeps_its_slash :
  aws_xml_parser_parse doc_preamble 10 10 2 (always true)
    (aws_xml_parser_init (whole doc_preamble)) =
  (AWS_OP_SUCCESS tt,
   {| doc := {| len := 0; ptr := Addr 28 |};
      cb_stack := [always true];
      trace := [Ev_node From_next_sibling preamble_root] |}) /\
  cursor_bytes doc_preamble (name preamble_root) = Some (bytes "root/") /\
  cursor_bytes doc_preamble (name preamble_root) <> Some (bytes "root").
Proof. vm_compute. repeat split; discriminate. Qed.

(** An instance of C8 on a small document, with every premise checked. *)
Lemma parse_skips_preamble_declarations_witness :
  fits doc_preamble /\
  doc_preamble = preamble [xml_declaration] ++ bytes "<root/>" /\
  Forall is_preamble [xml_declaration] /\
  aws_xml_parser_parse doc_preamble 10 10 2 (always true)
    (aws_xml_parser_init (whole doc_preamble)) =
  (AWS_OP_SUCCESS tt,
   {| doc := {| len := 0; ptr := Addr 28 |};
      cb_stack := [always true];
      trace := [Ev_node From_next_sibling preamble_root] |}).
Proof.
  assert (H1 : fits doc_preamble) by fits_small.
  assert (H2 : doc_preamble = preamble [xml_declaration] ++ bytes "<root/>")
    by reflexivity.
  assert (H3 : Forall is_preamble [xml_declaration]).
  { constructor; [| constructor].
    unfold is_preamble. repeat split; try not_in. left; reflexivity. }
  assert (H4 : (length [xml_declaration] < 2)%nat) by (simpl; lia).
  assert (H5 : ~ In "<"%byte []) by not_in.
  assert (H6 : ~ In ">"%byte (bytes "root/")) by not_in.
  assert (H7 : hd ">"%byte (bytes "root/") <> "?"%byte) by discriminate.
  assert (H8 : hd ">"%byte (bytes "root/") <> "!"%byte) by discriminate.
  split; [exact H1 |]. split; [exact H2 |]. split; [exact H3 |].
  exact (proj1 (parse_skips_preamble_declarations
                  doc_preamble 10 10 2 (always true) [xml_declaration]
                  (bytes "<root/>") H1 H2 H3 H4)
           [] (bytes "root/") [] eq_refl H5 H6 H7 H8).
Defined.

(** C9: every operation leaves the document cursor where it was or moves it
    forward inside itself: the new cursor is the old one with some [n] bytes,
    [0 <= n <= len], taken from its front, so its length never grows, its
    start never moves back and its end stays.  This holds for
    [aws_xml_parser_parse], [aws_xml_node_traverse], [aws_xml_node_as_body],
    for the scans inside them and for the callbacks they run, whatever the
    outcome; and so after any sequence of calls the cursor is still inside
    the one bound by [aws_xml_parser_init]. *)
Theorem document_cursor_only_moves_forward
  (buf : list byte) (sc ac fuel : nat) :
  (forall h p,
      cursor_within (doc (snd (aws_xml_parser_parse buf sc ac fuel h p))) (doc p)) /\
  (forall node h p,
      cursor_within (doc (snd (aws_xml_node_traverse buf sc ac fuel node h p))) (doc p)) /\
  (forall node p,
      cursor_within (doc (snd (aws_xml_node_as_body buf node p))) (doc p)) /\
  (forall p, cursor_within (doc (snd (skip_preamble buf fuel p))) (doc p)) /\
  (forall p, cursor_within (doc (snd (s_node_next_sibling buf sc ac fuel p))) (doc p)) /\
  (forall node h p,
      cursor_within (doc (snd (traverse_loop buf sc ac fuel node h p))) (doc p)) /\
  (forall a p, cursor_within (doc (snd (run_handler buf sc ac fuel a p))) (doc p)) /\
  (forall document calls,
      cursor_within
        (doc (run_calls buf sc ac fuel calls (aws_xml_parser_init document)))
        document).
Proof.
  repeat split; intros.
  - apply parse_within.
  - apply traverse_within.
  - apply closing_tag_within.
  - apply skip_preamble_within.
  - apply next_sibling_within.
  - apply (proj2 (handler_and_loop_within buf sc ac fuel)).
  - apply (proj1 (handler_and_loop_within buf sc ac fuel)).
  - apply (run_calls_within buf sc ac fuel calls (aws_xml_parser_init document)).
Qed.

(** C10: the sibling walk that [aws_xml_parser_parse] enters drops the boolean
    the root callback returns.  Whatever is done to that boolean ([f]), the
    call gives the same result, the same cursor and the same trace; it invokes
    the root callback at most once; and when it reports an error no callback
    has run, so a call that reached the callback ends in success.  On a
    buffer of at most [SIZE_MAX >> 1] bytes the call comes to an end: from
    some amount of fuel on, it never stops for lack of fuel. *)
Theorem root_return_value_is_discarded
  (buf : list byte) (sc ac fuel : nat) (h : handler) (f : bool -> bool)
  (p : aws_xml_parser) :
  let r := aws_xml_parser_parse buf sc ac fuel h p in
  let r' :=
    aws_xml_parser_parse buf sc ac fuel (fun n => map_return f (h n)) p in
  fst r' = fst r /\
  doc (snd r') = doc (snd r) /\
  trace (snd r') = trace (snd r) /\
  (root_calls (trace (snd r)) <= root_calls (trace p) + 1)%nat /\
  match fst r with
  | AWS_OP_ERR _ => trace (snd r) = trace p
  | _ => True
  end /\
  (fits buf ->
   exists N, forall k, (N <= k)%nat ->
                       fst (aws_xml_parser_parse buf sc ac k h p) <> OutOfFuel).
Proof.
  destruct (parse_map_return buf sc ac fuel h f p) as (H1 & H2 & H3 & H4 & H5).
  cbv zeta. repeat (split; [assumption |]).
  intros Hf. apply parse_terminates. exact Hf.
Qed.

(** An instance of C10 on a small document, with every premise checked. *)
Lemma root_return_value_is_discarded_witness :
  fits doc_single /\
  exists N, forall k, (N <= k)%nat ->
                      fst (aws_xml_parser_parse doc_single 10 10 k take_body
                             (aws_xml_parser_init (whole doc_single))) <> OutOfFuel.
Proof.
  assert (H1 : fits doc_single) by fits_small.
  split; [exact H1 |].
  exact (proj2 (proj2 (proj2 (proj2 (proj2
           (root_return_value_is_discarded doc_single 10 10 0 take_body negb
              (aws_xml_parser_init (whole doc_single))))))) H1).
Defined.

(** * Further properties *)

(** ** Declarations *)

Lemma split_on_length c l :
  length (split_on c l) = S (count_occ Byte.byte_eq_dec l c).
Proof.
  induction l as [| x l IH]; [reflexivity |].
  simpl split_on. destruct (Byte.eqb x c) eqn:E.
  - apply Byte.byte_dec_bl in E. subst x.
    rewrite count_occ_cons_eq by reflexivity. simpl. rewrite IH. reflexivity.
  - apply Byte.eqb_false in E.
    rewrite count_occ_cons_neq by assumption.
    pose proof (split_on_not_nil c l) as Hn.
    destruct (split_on c l) as [| t ts]; [congruence |].
    simpl in *. exact IH.
Qed.

Lemma split_on_hd c l : hd [] (split_on c l) = before c l.
Proof.
  induction l as [| x l IH]; [reflexivity |].
  simpl. destruct (Byte.eqb x c); [reflexivity |].
  pose proof (split_on_not_nil c l) as Hn.
  destruct (split_on c l) as [| t ts]; [congruence |].
  simpl in *. congruence.
Qed.

Lemma attribute_entry_length t : (length (attribute_entry t) <= 1)%nat.
Proof.
  unfold attribute_entry.
  destruct (split_on "="%byte t) as [| n [| v [| w ws]]]; simpl; lia.
Qed.

Lemma flat_map_entries_length toks :
  (length (flat_map attribute_entry toks) <= length toks)%nat.
Proof.
  induction toks as [| t toks IH]; simpl; [lia |].
  rewrite length_app. pose proof (attribute_entry_length t). lia.
Qed.

(** X1: a declaration that lies in the buffer decodes unless it has too many
    tokens: [s_load_node_decl] fails with [AWS_ERROR_MALFORMED_INPUT_STRING]
    exactly when the declaration holds at least as many spaces as the split
    scratch array has entries, and succeeds otherwise.  The test
    [splits_count < 1] never fires. *)
Theorem declaration_fails_exactly_on_too_many_tokens
  (buf : list byte) (sc ac : nat) (decl body : aws_byte_cursor) (d : list byte) :
  cursor_bytes buf decl = Some d ->
  (s_load_node_decl buf sc ac decl (empty_node body) = malformed /\
   (sc <= spaces d)%nat) \/
  (exists node,
      s_load_node_decl buf sc ac decl (empty_node body) = AWS_OP_SUCCESS node /\
      (spaces d < sc)%nat).
Proof.
  intros Hd. unfold spaces.
  pose proof (split_on_length " "%byte d) as Hl.
  destruct (le_lt_dec sc (count_occ Byte.byte_eq_dec d " "%byte)) as [Hle | Hlt].
  - left. split; [| exact Hle].
    apply (s_load_node_decl_overflow buf sc ac decl _ d Hd). lia.
  - right.
    destruct (s_load_node_decl_spec buf sc ac decl body d Hd) as (node & Hn & _);
      [lia |].
    exists node. auto.
Qed.

Lemma declaration_fails_exactly_on_too_many_tokens_witness :
  cursor_bytes (bytes "a b c") (whole (bytes "a b c")) = Some (bytes "a b c") /\
  ((s_load_node_decl (bytes "a b c") 2 10 (whole (bytes "a b c"))
      (empty_node zero_cursor) = malformed /\
    (2 <= spaces (bytes "a b c"))%nat) \/
   (exists node,
       s_load_node_decl (bytes "a b c") 2 10 (whole (bytes "a b c"))
         (empty_node zero_cursor) = AWS_OP_SUCCESS node /\
       (spaces (bytes "a b c") < 2)%nat)).
Proof.
  assert (H1 : cursor_bytes (bytes "a b c") (whole (bytes "a b c")) =
               Some (bytes "a b c")) by reflexivity.
  split; [exact H1 |].
  exact (declaration_fails_exactly_on_too_many_tokens
           (bytes "a b c") 2 10 (whole (bytes "a b c")) zero_cursor (bytes "a b c") H1).
Defined.


(** X2: the attribute list of a decoded node never outgrows the attribute
    array of the parser, and holds at most one attribute per space of the
    declaration. *)
Theorem attributes_stay_within_the_array
  (buf : list byte) (sc ac : nat) (decl body : aws_byte_cursor) (d : list byte)
  (node : aws_xml_node) :
  cursor_bytes buf decl = Some d ->
  s_load_node_decl buf sc ac decl (empty_node body) = AWS_OP_SUCCESS node ->
  (length (attributes node) <= ac)%nat /\
  (length (attributes node) <= spaces d)%nat.
Proof.
  intros Hd Hnode.
  pose proof (split_on_length " "%byte d) as Hl. fold (spaces d) in Hl.
  destruct (le_lt_dec sc (spaces d)) as [Hle | Hlt].
  - rewrite (s_load_node_decl_overflow buf sc ac decl _ d Hd) in Hnode by lia.
    discriminate.
  - destruct (s_load_node_decl_spec buf sc ac decl body d Hd)
      as (n & Hn' & _ & _ & Hatts); [lia |].
    assert (n = node) by congruence. subst n.
    apply Forall2_length in Hatts. rewrite Hatts, length_firstn.
    pose proof (flat_map_entries_length (tl (split_on " "%byte d))) as Hf.
    assert (Htl : length (tl (split_on " "%byte d)) = spaces d).
    { destruct (split_on " "%byte d); simpl in *; lia. }
    lia.
Qed.

Lemma attributes_stay_within_the_array_witness :
  cursor_bytes decl_double_quoted (whole decl_double_quoted) = Some decl_double_quoted /\
  s_load_node_decl decl_double_quoted 10 10 (whole decl_double_quoted)
    (empty_node zero_cursor) =
  AWS_OP_SUCCESS
    {| name := {| len := 1; ptr := Addr 0 |};
       attributes := [{| att_name := {| len := 1; ptr := Addr 2 |};
                         att_value := {| len := 1; ptr := Addr 5 |} |}];
       doc_at_body := zero_cursor |} /\
  (1 <= 10)%nat /\ (1 <= spaces decl_double_quoted)%nat.
Proof.
  assert (H1 : cursor_bytes decl_double_quoted (whole decl_double_quoted) =
               Some decl_double_quoted) by reflexivity.
  assert (H2 : s_load_node_decl decl_double_quoted 10 10 (whole decl_double_quoted)
                 (empty_node zero_cursor) =
               AWS_OP_SUCCESS
                 {| name := {| len := 1; ptr := Addr 0 |};
                    attributes := [{| att_name := {| len := 1; ptr := Addr 2 |};
                                      att_value := {| len := 1; ptr := Addr 5 |} |}];
                    doc_at_body := zero_cursor |}) by reflexivity.
  split; [exact H1 |]. split; [exact H2 |].
  exact (attributes_stay_within_the_array
           decl_double_quoted 10 10 (whole decl_double_quoted) zero_cursor
           decl_double_quoted _ H1 H2).
Defined.


(** X3: the name of a decoded node is the declaration up to its first space
    (the whole declaration when it has none): a view that starts where the
    declaration starts.  The body cursor handed in is kept. *)
Theorem node_name_is_the_declaration_up_to_the_first_space
  (buf : list byte) (sc ac : nat) (decl body : aws_byte_cursor) (d : list byte)
  (node : aws_xml_node) :
  cursor_bytes buf decl = Some d ->
  s_load_node_decl buf sc ac decl (empty_node body) = AWS_OP_SUCCESS node ->
  name node =
    {| len := Z.of_nat (length (before " "%byte d)); ptr := ptr decl |} /\
  cursor_bytes buf (name node) = Some (before " "%byte d) /\
  doc_at_body node = body.
Proof.
  intros Hd Hnode.
  pose proof (split_on_length " "%byte d) as Hl. fold (spaces d) in Hl.
  destruct (le_lt_dec sc (spaces d)) as [Hle | Hlt].
  - rewrite (s_load_node_decl_overflow buf sc ac decl _ d Hd) in Hnode by lia.
    discriminate.
  - destruct (s_load_node_decl_spec buf sc ac decl body d Hd)
      as (n & Hn' & Hname & Hbody & _); [lia |].
    assert (n = node) by congruence. subst n.
    rewrite split_on_hd in Hname.
    split; [| split; assumption].
    pose proof (split_on_hd " "%byte d) as Hhd.
    unfold s_load_node_decl, aws_byte_cursor_split_on_char in Hnode.
    rewrite Hd in Hnode.
    destruct (split_on " "%byte d) as [| t ts] eqn:Hs; [simpl in Hl; lia |].
    simpl in Hhd. subst t.
    destruct sc as [| sc']; [lia |].
    cbn [cursors_of firstn length nth] in Hnode.
    destruct (_ <=? _)%nat; [| discriminate].
    cbn [Nat.ltb Nat.leb] in Hnode.
    match type of Hnode with
    | (if ?b then _ else _) = _ => destruct b
    end.
    + destruct (load_attributes _ _ _ _); [| discriminate].
      injection Hnode as <-. reflexivity.
    + injection Hnode as <-. reflexivity.
Qed.

Lemma node_name_is_the_declaration_up_to_the_first_space_witness :
  cursor_bytes decl_double_quoted (whole decl_double_quoted) = Some decl_double_quoted /\
  s_load_node_decl decl_double_quoted 10 10 (whole decl_double_quoted)
    (empty_node zero_cursor) =
  AWS_OP_SUCCESS
    {| name := {| len := 1; ptr := Addr 0 |};
       attributes := [{| att_name := {| len := 1; ptr := Addr 2 |};
                         att_value := {| len := 1; ptr := Addr 5 |} |}];
       doc_at_body := zero_cursor |} /\
  {| len := 1; ptr := Addr 0 |} =
    {| len := Z.of_nat (length (before " "%byte decl_double_quoted)); ptr := Addr 0 |} /\
  cursor_bytes decl_double_quoted {| len := 1; ptr := Addr 0 |} =
    Some (before " "%byte decl_double_quoted) /\
  zero_cursor = zero_cursor.
Proof.
  assert (H1 : cursor_bytes decl_double_quoted (whole decl_double_quoted) =
               Some decl_double_quoted) by reflexivity.
  assert (H2 : s_load_node_decl decl_double_quoted 10 10 (whole decl_double_quoted)
                 (empty_node zero_cursor) =
               AWS_OP_SUCCESS
                 {| name := {| len := 1; ptr := Addr 0 |};
                    attributes := [{| att_name := {| len := 1; ptr := Addr 2 |};
                                      att_value := {| len := 1; ptr := Addr 5 |} |}];
                    doc_at_body := zero_cursor |}) by reflexivity.
  split; [exact H1 |]. split; [exact H2 |].
  exact (node_name_is_the_declaration_up_to_the_first_space
           decl_double_quoted 10 10 (whole decl_double_quoted) zero_cursor
           decl_double_quoted _ H1 H2).
Defined.


(** ** One step of the scans *)

Lemma advance_too_far c n : len c < n -> aws_byte_cursor_advance c n = c.
Proof.
  intros H. unfold aws_byte_cursor_advance.
  replace (n >? len c) with true by (symmetry; apply Z.gtb_lt; lia).
  rewrite orb_true_r. reflexivity.
Qed.

Lemma byte_eqb_neq (x y : byte) : x <> y -> Byte.eqb x y = false.
Proof.
  intros H. destruct (Byte.eqb x y) eqn:E; [| reflexivity].
  apply Byte.byte_dec_bl in E. contradiction.
Qed.

(** One round of the loop of [aws_xml_node_traverse] on a document whose
    next tag is [<decl>], after text [ws] without [<] and [>]. *)
Lemma traverse_loop_steps buf sc ac fuel node h p pre ws decl rest :
  fits buf ->
  buf = pre ++ ws ++ "<"%byte :: decl ++ ">"%byte :: rest ->
  ~ In "<"%byte ws ->
  ~ In ">"%byte ws ->
  ~ In ">"%byte decl ->
  doc p = cur_at pre (ws ++ "<"%byte :: decl ++ ">"%byte :: rest) ->
  traverse_loop buf sc ac (S fuel) node h p =
  let p1 := set_doc p (cur_at (pre ++ ws ++ "<"%byte :: decl ++ [">"%byte]) rest) in
  if Byte.eqb (hd ">"%byte decl) "/"%byte
  then (AWS_OP_SUCCESS tt, set_stack p1 (tl (cb_stack p1)))
  else
    match s_load_node_decl buf sc ac (cur_at (pre ++ ws ++ ["<"%byte]) decl)
            (empty_node (doc p1)) with
    | AWS_OP_SUCCESS next_node =>
        match run_handler buf sc ac fuel (h next_node)
                (record (Ev_node From_traverse next_node) p1) with
        | (AWS_OP_SUCCESS false, p2) => (AWS_OP_SUCCESS tt, p2)
        | (AWS_OP_SUCCESS true, p2) =>
            match s_advance_to_closing_tag buf node p2 with
            | (AWS_OP_SUCCESS _, p3) => traverse_loop buf sc ac fuel node h p3
            | (AWS_OP_ERR e, p3) => (AWS_OP_ERR e, p3)
            | (Undefined, p3) => (Undefined, p3)
            | (OutOfFuel, p3) => (OutOfFuel, p3)
            end
        | (AWS_OP_ERR e, p2) => (AWS_OP_ERR e, p2)
        | (Undefined, p2) => (Undefined, p2)
        | (OutOfFuel, p2) => (OutOfFuel, p2)
        end
    | AWS_OP_ERR e => (AWS_OP_ERR e, p1)
    | Undefined => (Undefined, p1)
    | OutOfFuel => (OutOfFuel, p1)
    end.
Proof.
  intros Hf Hb Hws Hws' Hdecl Hd.
  rewrite traverse_loop_S.
  destruct p as [d stack t]. simpl in Hd. subst d.
  unfold advance_doc, set_doc. cbn [doc cb_stack trace].
  set (T := "<"%byte :: decl ++ ">"%byte :: rest) in *.
  change (ptr (cur_at pre (ws ++ T))) with (Addr (Z.of_nat (length pre))).
  change (len (cur_at pre (ws ++ T))) with (Z.of_nat (length (ws ++ T))).
  assert (HlT : length T = S (length decl + S (length rest))).
  { unfold T. simpl. rewrite length_app. reflexivity. }
  assert (Hlen : length buf = (length pre + length ws + length T)%nat).
  { subst buf. rewrite !length_app. lia. }
  unfold T at 1.
  rewrite (memchr_first buf pre ws "<"%byte (decl ++ ">"%byte :: rest) [])
    by (rewrite ?app_nil_r; assumption).
  fold T.
  assert (HT2 : ws ++ T = (ws ++ "<"%byte :: decl) ++ ">"%byte :: rest).
  { unfold T. rewrite <- app_assoc. reflexivity. }
  assert (Hgt : ~ In ">"%byte (ws ++ "<"%byte :: decl)).
  { rewrite in_app_iff. simpl. intros [H | [H | H]]; [tauto | discriminate | tauto]. }
  rewrite HT2 at 1.
  rewrite (memchr_first buf pre (ws ++ "<"%byte :: decl) ">"%byte rest [])
    by (rewrite ?app_nil_r, <- ?HT2; assumption).
  assert (Hload : load buf (ptr_add (Addr (Z.of_nat (length pre) + Z.of_nat (length ws))) 1)
                  = Some (hd ">"%byte decl)).
  { unfold ptr_add.
    replace (Z.of_nat (length pre) + Z.of_nat (length ws) + 1)
      with (Z.of_nat (length (pre ++ ws ++ ["<"%byte])))
      by (rewrite !length_app; simpl; lia).
    apply load_at with (rest := tl (decl ++ ">"%byte :: rest)).
    rewrite <- hd_tl_close. subst buf. unfold T. rewrite <- !app_assoc. reflexivity. }
  rewrite Hload.
  assert (HT3 : ws ++ T = (ws ++ "<"%byte :: decl ++ [">"%byte]) ++ rest).
  { unfold T. rewrite <- !app_assoc. simpl. rewrite <- app_assoc. reflexivity. }
  rewrite HT3.
  rewrite (advance_cur_at buf pre (ws ++ "<"%byte :: decl ++ [">"%byte]) rest _ Hf)
    by (rewrite <- ?HT3, ?length_app; unfold ptr_diff; simpl length;
        rewrite ?length_app; simpl length; lia).
  assert (H3 : aws_byte_cursor_from_array
                 (ptr_add (Addr (Z.of_nat (length pre) + Z.of_nat (length ws))) 1)
                 (to_size_t
                    (to_size_t
                       (ptr_diff
                          (Addr (Z.of_nat (length pre) +
                                 Z.of_nat (length (ws ++ "<"%byte :: decl))))
                          (Addr (Z.of_nat (length pre) + Z.of_nat (length ws)))) - 1)) =
               cur_at (pre ++ ws ++ ["<"%byte]) decl).
  { unfold ptr_diff, ptr_add. rewrite length_app. simpl length.
    replace (Z.of_nat (length pre) + Z.of_nat (length ws + S (length decl)) -
               (Z.of_nat (length pre) + Z.of_nat (length ws)))
      with (Z.of_nat (length decl) + 1) by lia.
    rewrite (to_size_t_fits buf (Z.of_nat (length decl) + 1)) by (auto; lia).
    rewrite (to_size_t_fits buf) by (auto; lia).
    unfold aws_byte_cursor_from_array, cur_at.
    rewrite !length_app. simpl length. f_equal; [lia | f_equal; lia]. }
  rewrite H3. reflexivity.
Qed.



(** *** Where the closing tag of the parent is found *)









(** *** A traversal whose callback takes the body of every child *)


(** ** The sibling walk at the end of the input *)

(** X4: when no [<] is left in the document, [s_node_next_sibling] reports
    success, invokes no callback and leaves the parser as it was: for the
    sibling walk, running out of tags is a clean end. *)
Theorem sibling_walk_without_tag_is_a_clean_end
  (buf : list byte) (sc ac fuel : nat) (p : aws_xml_parser)
  (pre l post : list byte) :
  buf = pre ++ l ++ post ->
  doc p = cur_at pre l ->
  ~ In "<"%byte l ->
  s_node_next_sibling buf sc ac fuel p = (AWS_OP_SUCCESS tt, p).
Proof.
  intros Hb Hd Hl. unfold s_node_next_sibling. rewrite Hd.
  change (ptr (cur_at pre l)) with (Addr (Z.of_nat (length pre))).
  change (len (cur_at pre l)) with (Z.of_nat (length l)).
  rewrite (memchr_none buf pre l "<"%byte post Hb Hl). reflexivity.
Qed.

Lemma sibling_walk_without_tag_is_a_clean_end_witness :
  bytes "<a>text" = bytes "<a>" ++ bytes "text" ++ [] /\
  ~ In "<"%byte (bytes "text") /\
  s_node_next_sibling (bytes "<a>text") 10 10 2
    {| doc := cur_at (bytes "<a>") (bytes "text");
       cb_stack := [take_body]; trace := [] |} =
  (AWS_OP_SUCCESS tt,
   {| doc := cur_at (bytes "<a>") (bytes "text");
      cb_stack := [take_body]; trace := [] |}).
Proof.
  assert (H1 : bytes "<a>text" = bytes "<a>" ++ bytes "text" ++ []) by reflexivity.
  assert (H2 : ~ In "<"%byte (bytes "text")) by not_in.
  split; [exact H1 |]. split; [exact H2 |].
  exact (sibling_walk_without_tag_is_a_clean_end
           (bytes "<a>text") 10 10 2
           {| doc := cur_at (bytes "<a>") (bytes "text");
              cb_stack := [take_body]; trace := [] |}
           (bytes "<a>") (bytes "text") [] H1 eq_refl H2).
Defined.

(** X5: when a [<] is left but no [>] follows it, [s_node_next_sibling]
    fails with [AWS_ERROR_MALFORMED_INPUT_STRING]; no callback is invoked,
    and the cursor is left on that [<]. *)
Theorem sibling_walk_fails_on_unterminated_tag
  (buf : list byte) (sc ac fuel : nat) (p : aws_xml_parser)
  (pre ws t post : list byte) :
  fits buf ->
  buf = pre ++ (ws ++ "<"%byte :: t) ++ post ->
  doc p = cur_at pre (ws ++ "<"%byte :: t) ->
  ~ In "<"%byte ws ->
  ~ In ">"%byte t ->
  s_node_next_sibling buf sc ac fuel p =
  (malformed, set_doc p (cur_at (pre ++ ws) ("<"%byte :: t))).
Proof.
  intros Hf Hb Hd Hws Ht.
  destruct p as [d stack tr]. simpl in Hd. subst d.
  unfold s_node_next_sibling, advance_doc, set_doc. cbn [doc cb_stack trace].
  change (ptr (cur_at pre (ws ++ "<"%byte :: t))) with (Addr (Z.of_nat (length pre))).
  change (len (cur_at pre (ws ++ "<"%byte :: t)))
    with (Z.of_nat (length (ws ++ "<"%byte :: t))).
  rewrite (memchr_first buf pre ws "<"%byte t post Hb Hws).
  rewrite (advance_cur_at buf pre ws ("<"%byte :: t) _ Hf)
    by (subst buf; rewrite ?length_app; unfold ptr_diff; simpl; lia).
  change (ptr (cur_at (pre ++ ws) ("<"%byte :: t)))
    with (Addr (Z.of_nat (length (pre ++ ws)))).
  change (len (cur_at (pre ++ ws) ("<"%byte :: t)))
    with (Z.of_nat (length ("<"%byte :: t))).
  rewrite (memchr_none buf (pre ++ ws) ("<"%byte :: t) ">"%byte post).
  - reflexivity.
  - rewrite Hb. rewrite <- !app_assoc. reflexivity.
  - simpl. intros [H | H]; [discriminate | tauto].
Qed.

Lemma sibling_walk_fails_on_unterminated_tag_witness :
  fits (bytes "x<a b") /\
  ~ In "<"%byte (bytes "x") /\
  ~ In ">"%byte (bytes "a b") /\
  s_node_next_sibling (bytes "x<a b") 10 10 2
    (aws_xml_parser_init (whole (bytes "x<a b"))) =
  (malformed,
   set_doc (aws_xml_parser_init (whole (bytes "x<a b")))
     (cur_at (bytes "x") (bytes "<a b"))).
Proof.
  assert (H1 : fits (bytes "x<a b")) by fits_small.
  assert (H2 : ~ In "<"%byte (bytes "x")) by not_in.
  assert (H3 : ~ In ">"%byte (bytes "a b")) by not_in.
  split; [exact H1 |]. split; [exact H2 |]. split; [exact H3 |].
  exact (sibling_walk_fails_on_unterminated_tag
           (bytes "x<a b") 10 10 2 (aws_xml_parser_init (whole (bytes "x<a b")))
           [] (bytes "x") (bytes "a b") [] H1 eq_refl eq_refl H2 H3).
Defined.

(** ** [aws_xml_node_traverse]: errors, early ends and the callback stack *)

(** X6: [aws_xml_node_traverse] fails with
    [AWS_ERROR_MALFORMED_INPUT_STRING] when the rest of the document holds no
    [<] or no [>].  No callback is invoked, and the callback pushed on entry
    is still on the stack when the call returns. *)
Theorem traverse_fails_without_a_tag
  (buf : list byte) (sc ac fuel : nat) (node : aws_xml_node) (h : handler)
  (p : aws_xml_parser) (pre l post : list byte) :
  buf = pre ++ l ++ post ->
  doc p = cur_at pre l ->
  ~ In "<"%byte l \/ ~ In ">"%byte l ->
  aws_xml_node_traverse buf sc ac (S fuel) node h p =
  (malformed, set_stack p (h :: cb_stack p)).
Proof.
  intros Hb Hd Hl. unfold aws_xml_node_traverse.
  rewrite traverse_loop_S.
  change (doc (set_stack p (h :: cb_stack p))) with (doc p). rewrite Hd.
  change (ptr (cur_at pre l)) with (Addr (Z.of_nat (length pre))).
  change (len (cur_at pre l)) with (Z.of_nat (length l)).
  destruct (in_dec Byte.byte_eq_dec "<"%byte l) as [Hin | Hnin].
  - destruct Hl as [Hl | Hl]; [contradiction |].
    destruct (memchr_in buf pre l "<"%byte post Hb Hin) as (a & ->).
    rewrite (memchr_none buf pre l ">"%byte post Hb Hl). reflexivity.
  - rewrite (memchr_none buf pre l "<"%byte post Hb Hnin). reflexivity.
Qed.

Lemma traverse_fails_without_a_tag_witness :
  (~ In "<"%byte (bytes "text") \/ ~ In ">"%byte (bytes "text")) /\
  aws_xml_node_traverse doc_unclosed 10 10 1 unclosed_node take_body
    {| doc := cur_at (bytes "<a>") (bytes "text"); cb_stack := []; trace := [] |} =
  (malformed,
   {| doc := cur_at (bytes "<a>") (bytes "text");
      cb_stack := [take_body]; trace := [] |}).
Proof.
  assert (H1 : ~ In "<"%byte (bytes "text") \/ ~ In ">"%byte (bytes "text"))
    by (left; not_in).
  split; [exact H1 |].
  exact (traverse_fails_without_a_tag
           doc_unclosed 10 10 0 unclosed_node take_body
           {| doc := cur_at (bytes "<a>") (bytes "text"); cb_stack := []; trace := [] |}
           (bytes "<a>") (bytes "text") [] eq_refl eq_refl H1).
Defined.



(** X8: when the callback returns false for a child, [aws_xml_node_traverse]
    returns at once with success: the cursor stays just after the opening
    tag of that child, what follows is not visited, and the callback pushed
    on entry is left on the stack, which is one entry deeper than before the
    call. *)
Theorem traverse_stopped_by_callback_keeps_its_stack_entry
  (buf : list byte) (sc ac fuel : nat) (node : aws_xml_node)
  (p : aws_xml_parser) (pre ws decl rest : list byte) :
  fits buf ->
  buf = pre ++ ws ++ "<"%byte :: decl ++ ">"%byte :: rest ->
  doc p = cur_at pre (ws ++ "<"%byte :: decl ++ ">"%byte :: rest) ->
  ~ In "<"%byte ws ->
  ~ In ">"%byte ws ->
  ~ In ">"%byte decl ->
  hd ">"%byte decl <> "/"%byte ->
  (spaces decl < sc)%nat ->
  exists child,
    s_load_node_decl buf sc ac (cur_at (pre ++ ws ++ ["<"%byte]) decl)
      (empty_node (cur_at (pre ++ ws ++ "<"%byte :: decl ++ [">"%byte]) rest)) =
    AWS_OP_SUCCESS child /\
    aws_xml_node_traverse buf sc ac (S (S fuel)) node (always false) p =
    (AWS_OP_SUCCESS tt,
     {| doc := cur_at (pre ++ ws ++ "<"%byte :: decl ++ [">"%byte]) rest;
        cb_stack := always false :: cb_stack p;
        trace := trace p ++ [Ev_node From_traverse child] |}).
Proof.
  intros Hf Hb Hd Hws Hws' Hdecl Hhd Hsp.
  assert (Hcb : cursor_bytes buf (cur_at (pre ++ ws ++ ["<"%byte]) decl) = Some decl).
  { apply cursor_bytes_cur_at with (post := ">"%byte :: rest).
    rewrite Hb. rewrite <- !app_assoc. reflexivity. }
  pose proof (split_on_length " "%byte decl) as Hl. fold (spaces decl) in Hl.
  destruct (s_load_node_decl_spec buf sc ac _
              (cur_at (pre ++ ws ++ "<"%byte :: decl ++ [">"%byte]) rest) decl Hcb)
    as (child & Hchild & _); [lia |].
  exists child. split; [exact Hchild |].
  unfold aws_xml_node_traverse.
  rewrite (traverse_loop_steps buf sc ac (S fuel) node (always false) _ pre ws decl rest
             Hf Hb Hws Hws' Hdecl); [| exact Hd].
  cbv zeta. rewrite (byte_eqb_neq _ _ Hhd). cbv iota.
  rewrite set_doc_doc. rewrite Hchild.
  unfold always. rewrite run_handler_return.
  destruct p as [d stack t]. reflexivity.
Qed.

Lemma traverse_stopped_by_callback_keeps_its_stack_entry_witness :
  fits doc_siblings /\
  ~ In "<"%byte [] /\ ~ In ">"%byte [] /\ ~ In ">"%byte (bytes "a") /\
  hd ">"%byte (bytes "a") <> "/"%byte /\
  (spaces (bytes "a") < 10)%nat /\
  exists child,
    s_load_node_decl doc_siblings 10 10 (cur_at (bytes "<p>" ++ [] ++ bytes "<") (bytes "a"))
      (empty_node (cur_at (bytes "<p>" ++ [] ++ bytes "<a>") (bytes "x</a><b>y</b></p>"))) =
    AWS_OP_SUCCESS child /\
    aws_xml_node_traverse doc_siblings 10 10 2 siblings_parent (always false)
      {| doc := cur_at (bytes "<p>") (bytes "<a>x</a><b>y</b></p>");
         cb_stack := []; trace := [] |} =
    (AWS_OP_SUCCESS tt,
     {| doc := cur_at (bytes "<p>" ++ [] ++ bytes "<a>") (bytes "x</a><b>y</b></p>");
        cb_stack := [always false];
        trace := [Ev_node From_traverse child] |}).
Proof.
  assert (H1 : fits doc_siblings) by fits_small.
  assert (H2 : ~ In "<"%byte []) by (intros []).
  assert (H3 : ~ In ">"%byte []) by (intros []).
  assert (H4 : ~ In ">"%byte (bytes "a")) by not_in.
  assert (H5 : hd ">"%byte (bytes "a") <> "/"%byte) by discriminate.
  assert (H6 : (spaces (bytes "a") < 10)%nat) by (vm_compute; lia).
  split; [exact H1 |]. split; [exact H2 |]. split; [exact H3 |].
  split; [exact H4 |]. split; [exact H5 |]. split; [exact H6 |].
  exact (traverse_stopped_by_callback_keeps_its_stack_entry
           doc_siblings 10 10 0 siblings_parent
           {| doc := cur_at (bytes "<p>") (bytes "<a>x</a><b>y</b></p>");
              cb_stack := []; trace := [] |}
           (bytes "<p>") [] (bytes "a") (bytes "x</a><b>y</b></p>")
           H1 eq_refl eq_refl H2 H3 H4 H5 H6).
Defined.

(** ** Walking a whole level *)





(** ** Taking the body of a node more than once *)

(** X11: [aws_xml_node_as_body] looks for the closing tag in the body held
    by the node, not at the parser cursor, and then advances the parser
    cursor by the distance found.  Called a second time on the same node it
    returns the same body again; the cursor, already past the closing tag,
    is moved forward once more by the same number of bytes when that many
    are left, skipping what follows the node, and stays where it is
    otherwise. *)
Theorem node_as_body_twice_returns_the_body_and_skips_again
  (buf : list byte) (node : aws_xml_node) (p : aws_xml_parser)
  (pre nm text rest : list byte) :
  fits buf ->
  buf = pre ++ text ++ closing_tag nm ++ rest ->
  cursor_bytes buf (name node) = Some nm ->
  (length nm <= 256)%nat ->
  ~ In "<"%byte text ->
  doc_at_body node = cur_at pre (text ++ closing_tag nm ++ rest) ->
  doc p = doc_at_body node ->
  let k := (length text + length (closing_tag nm))%nat in
  let p1 := set_doc p (cur_at (pre ++ text ++ closing_tag nm) rest) in
  aws_xml_node_as_body buf node p = (AWS_OP_SUCCESS (cur_at pre text), p1) /\
  aws_xml_node_as_body buf node p1 =
  (AWS_OP_SUCCESS (cur_at pre text),
   if (k <=? length rest)%nat
   then set_doc p
          (cur_at (pre ++ text ++ closing_tag nm ++ firstn k rest) (skipn k rest))
   else p1).
Proof.
  intros Hf Hb Hn Hlen Htext Hbody Hd k p1.
  assert (Hcb : cursor_bytes buf (doc_at_body node) =
                Some (text ++ closing_tag nm ++ rest)).
  { rewrite Hbody. apply cursor_bytes_cur_at with (post := []).
    rewrite app_nil_r. exact Hb. }
  assert (Hfind : find_sub (closing_tag nm) (text ++ closing_tag nm ++ rest) =
                  Some (length text)).
  { rewrite closing_tag_cons. apply find_sub_first. assumption. }
  assert (Hspec : forall q,
             aws_xml_node_as_body buf node q =
             (AWS_OP_SUCCESS (cur_at pre text),
              set_doc q (aws_byte_cursor_advance (doc q) (Z.of_nat k)))).
  { intros q. unfold aws_xml_node_as_body.
    rewrite (closing_tag_spec buf node q nm _ Hf Hn Hcb).
    replace (256 <? length nm)%nat with false by (symmetry; apply Nat.ltb_ge; lia).
    rewrite Hfind, Hbody. reflexivity. }
  assert (Hk : Z.of_nat k <= Z.of_nat (length buf)).
  { subst buf. unfold k. rewrite !length_app. lia. }
  split.
  - rewrite Hspec. f_equal. unfold p1. f_equal.
    rewrite Hd, Hbody.
    rewrite <- (to_size_t_fits buf (Z.of_nat k)) by (auto; lia).
    rewrite (app_assoc text).
    apply (advance_cur_at buf); auto.
    + subst buf. rewrite !length_app. lia.
    + unfold k. rewrite length_app. reflexivity.
  - rewrite Hspec. f_equal. unfold p1. rewrite set_doc_doc, set_doc_twice.
    destruct (k <=? length rest)%nat eqn:E.
    + apply Nat.leb_le in E. f_equal.
      rewrite <- (to_size_t_fits buf (Z.of_nat k)) by (auto; lia).
      rewrite <- (firstn_skipn k rest) at 1.
      rewrite (advance_cur_at buf (pre ++ text ++ closing_tag nm)
                 (firstn k rest) (skipn k rest) _ Hf).
      * f_equal. rewrite <- !app_assoc. reflexivity.
      * rewrite firstn_skipn. subst buf. rewrite !length_app. lia.
      * rewrite length_firstn. lia.
    + apply Nat.leb_gt in E.
      rewrite advance_too_far by (cbn [len cur_at]; lia).
      reflexivity.
Qed.

Lemma node_as_body_twice_returns_the_body_and_skips_again_witness :
  fits doc_siblings /\
  ~ In "<"%byte (bytes "x") /\
  aws_xml_node_as_body doc_siblings siblings_first
    {| doc := doc_at_body siblings_first; cb_stack := []; trace := [] |} =
  (AWS_OP_SUCCESS (cur_at (bytes "<p><a>") (bytes "x")),
   {| doc := cur_at (bytes "<p><a>x</a>") (bytes "<b>y</b></p>");
      cb_stack := []; trace := [] |}) /\
  aws_xml_node_as_body doc_siblings siblings_first
    {| doc := cur_at (bytes "<p><a>x</a>") (bytes "<b>y</b></p>");
       cb_stack := []; trace := [] |} =
  (AWS_OP_SUCCESS (cur_at (bytes "<p><a>") (bytes "x")),
   {| doc := cur_at (bytes "<p><a>x</a><b>y<") (bytes "/b></p>");
      cb_stack := []; trace := [] |}).
Proof.
  assert (H1 : fits doc_siblings) by fits_small.
  assert (H2 : (length (bytes "a") <= 256)%nat) by (simpl; lia).
  assert (H3 : ~ In "<"%byte (bytes "x")) by not_in.
  split; [exact H1 |]. split; [exact H3 |].
  exact (node_as_body_twice_returns_the_body_and_skips_again
           doc_siblings siblings_first
           {| doc := doc_at_body siblings_first; cb_stack := []; trace := [] |}
           (bytes "<p><a>") (bytes "a") (bytes "x") (bytes "<b>y</b></p>")
           H1 eq_refl eq_refl H2 H3 eq_refl eq_refl).
Defined.

(** ** The callback stack *)

Lemma stack_below_refl s : stack_below s s.
Proof. exists []. reflexivity. Qed.

Lemma stack_below_trans s1 s2 s3 :
  stack_below s1 s2 -> stack_below s2 s3 -> stack_below s1 s3.
Proof.
  intros [u ->] [v ->]. exists (v ++ u). rewrite app_assoc. reflexivity.
Qed.

Lemma stack_below_tl s : stack_below (tl s) s.
Proof.
  destruct s as [| x s]; [apply stack_below_refl |].
  exists [x]. reflexivity.
Qed.

Lemma stack_below_tl_mono s s' :
  stack_below s s' -> stack_below (tl s) (tl s').
Proof.
  intros [[| x u] ->]; [apply stack_below_refl |].
  simpl. eapply stack_below_trans; [apply stack_below_tl |].
  exists u. reflexivity.
Qed.

Lemma closing_tag_stack buf node p :
  cb_stack (snd (s_advance_to_closing_tag buf node p)) = cb_stack p.
Proof.
  unfold s_advance_to_closing_tag.
  repeat match goal with
         | |- context [match ?x with _ => _ end] => destruct x
         | |- context [if ?x then _ else _] => destruct x
         end; reflexivity.
Qed.

Lemma handler_and_loop_stack buf sc ac fuel :
  (forall a p,
      stack_below (cb_stack p) (cb_stack (snd (run_handler buf sc ac fuel a p)))) /\
  (forall node h p,
      stack_below (tl (cb_stack p))
        (cb_stack (snd (traverse_loop buf sc ac fuel node h p)))).
Proof.
  induction fuel as [| fuel [IHh IHt]];
    [split; intros; simpl; [apply stack_below_refl | apply stack_below_tl] |].
  split.
  - intros a p. simpl. destruct a as [b | n k | n h k].
    + apply stack_below_refl.
    + pose proof (closing_tag_stack buf n p) as Hb.
      unfold aws_xml_node_as_body.
      destruct (s_advance_to_closing_tag buf n p) as [r p']; simpl in Hb.
      destruct r; cbn [snd]; try (rewrite Hb; apply stack_below_refl);
        (eapply stack_below_trans; [| apply IHh]);
        cbn [cb_stack record]; rewrite Hb; apply stack_below_refl.
    + pose proof (IHt n h (set_stack p (h :: cb_stack p))) as Ht.
      cbn [cb_stack set_stack tl] in Ht.
      destruct (traverse_loop _ _ _ _ _ _ _) as [r p']; simpl in Ht.
      destruct r; cbn [snd]; auto;
        (eapply stack_below_trans; [exact Ht | apply IHh]).
  - intros node h p. simpl.
    destruct (memchr buf _ _ _) as [[| nl] |]; cbn [snd]; try apply stack_below_tl.
    destruct (memchr buf _ _ _) as [[| el] |]; cbn [snd]; try apply stack_below_tl.
    destruct (load buf _); cbn [snd]; try apply stack_below_tl.
    set (p1 := advance_doc _ p).
    assert (H1 : cb_stack p1 = cb_stack p) by reflexivity.
    destruct (Byte.eqb _ _); simpl.
    { apply stack_below_refl. }
    destruct (s_load_node_decl _ _ _ _ _) as [next_node | | |]; cbn [snd];
      try (apply stack_below_tl).
    pose proof (IHh (h next_node) (record (Ev_node From_traverse next_node) p1)) as H2.
    cbn [cb_stack record] in H2. rewrite H1 in H2.
    destruct (run_handler _ _ _ _ _ _) as [r p2]; simpl in H2.
    assert (H12 : stack_below (tl (cb_stack p)) (cb_stack p2)).
    { eapply stack_below_trans; [apply stack_below_tl | exact H2]. }
    destruct r as [[|] | | |]; cbn [snd]; auto.
    pose proof (closing_tag_stack buf node p2) as H3.
    destruct (s_advance_to_closing_tag buf node p2) as [r3 p3]; simpl in H3.
    destruct r3; cbn [snd]; try (rewrite H3; exact H12).
    eapply stack_below_trans; [| apply IHt].
    apply stack_below_tl_mono. rewrite H3. exact H2.
Qed.

(** X12: [aws_xml_node_traverse] never takes away a callback that was on
    the stack when it was called, whatever the document and the callbacks
    do: on return the stack is the stack of entry, with zero or more entries
    left on top of it. *)
Theorem traverse_keeps_the_callers_stack_entries
  (buf : list byte) (sc ac fuel : nat) (node : aws_xml_node) (h : handler)
  (p : aws_xml_parser) :
  stack_below (cb_stack p)
    (cb_stack (snd (aws_xml_node_traverse buf sc ac fuel node h p))).
Proof.
  unfold aws_xml_node_traverse.
  exact (proj2 (handler_and_loop_stack buf sc ac fuel) node h
           (set_stack p (h :: cb_stack p))).
Qed.

(** ** Termination *)

(** X13: on a buffer of at most [SIZE_MAX >> 1] bytes the loop of
    [aws_xml_node_traverse] always comes to an end, whatever the document
    holds: the call has one result, reached with any large enough fuel. *)
Theorem traverse_always_returns
  (buf : list byte) (sc ac : nat) (node : aws_xml_node) (h : handler)
  (p : aws_xml_parser) :
  fits buf ->
  exists N r q,
    r <> OutOfFuel /\
    forall fuel, (N <= fuel)%nat ->
                 aws_xml_node_traverse buf sc ac fuel node h p = (r, q).
Proof.
  intros Hf.
  destruct (loop_terminates buf sc ac Hf (room (set_stack p (h :: cb_stack p)))
              node h (set_stack p (h :: cb_stack p)) (Nat.le_refl _)) as [N HN].
  unfold aws_xml_node_traverse.
  destruct (traverse_loop buf sc ac N node h (set_stack p (h :: cb_stack p)))
    as [r q] eqn:E.
  exists N, r, q. split; [exact HN |].
  intros fuel Hle.
  exact (proj2 (handler_and_loop_fuel buf sc ac N) node h _ r q E HN fuel Hle).
Qed.

Lemma traverse_always_returns_witness :
  fits doc_siblings /\
  exists N r q,
    r <> OutOfFuel /\
    forall fuel, (N <= fuel)%nat ->
                 aws_xml_node_traverse doc_siblings 10 10 fuel siblings_parent
                   (always true)
                   {| doc := doc_at_body siblings_parent;
                      cb_stack := []; trace := [] |} = (r, q).
Proof.
  assert (H1 : fits doc_siblings) by fits_small.
  split; [exact H1 |].
  exact (traverse_always_returns doc_siblings 10 10 siblings_parent (always true)
           {| doc := doc_at_body siblings_parent; cb_stack := []; trace := [] |} H1).
Defined.

(** ** Tags that do not decode *)

(** X14: a document whose first tag after the preamble holds at least as
    many spaces as the split scratch array has entries is rejected:
    [aws_xml_parser_parse] fails with [AWS_ERROR_MALFORMED_INPUT_STRING]
    once the cursor has moved past the tag, and the callback is never
    invoked. *)
Theorem parse_rejects_a_root_tag_with_too_many_tokens
  (buf : list byte) (sc ac fuel : nat) (h : handler)
  (rs : list preamble_decl) (ws decl rest : list byte) :
  fits buf ->
  buf = preamble rs ++ ws ++ "<"%byte :: decl ++ ">"%byte :: rest ->
  Forall is_preamble rs ->
  ~ In "<"%byte ws ->
  ~ In ">"%byte decl ->
  hd ">"%byte decl <> "?"%byte ->
  hd ">"%byte decl <> "!"%byte ->
  (length rs < fuel)%nat ->
  (sc <= spaces decl)%nat ->
  aws_xml_parser_parse buf sc ac fuel h (aws_xml_parser_init (whole buf)) =
  (malformed,
   {| doc := cur_at (preamble rs ++ ws ++ "<"%byte :: decl ++ [">"%byte]) rest;
      cb_stack := [h];
      trace := [] |}).
Proof.
  intros Hf Hb Hrs Hws Hdecl Hq Hbang Hfuel Hsp.
  rewrite (parse_steps buf sc ac fuel h rs ws decl rest Hf Hb Hrs Hws Hdecl Hq Hbang Hfuel).
  cbv zeta.
  rewrite (s_load_node_decl_overflow buf sc ac _ _ decl).
  - reflexivity.
  - apply cursor_bytes_cur_at with (post := ">"%byte :: rest).
    rewrite Hb. rewrite <- !app_assoc. reflexivity.
  - rewrite split_on_length. unfold spaces in Hsp. lia.
Qed.

Lemma parse_rejects_a_root_tag_with_too_many_tokens_witness :
  fits (bytes "<a b c>t</a>") /\
  ~ In ">"%byte (bytes "a b c") /\
  (2 <= spaces (bytes "a b c"))%nat /\
  aws_xml_parser_parse (bytes "<a b c>t</a>") 2 10 1 take_body
    (aws_xml_parser_init (whole (bytes "<a b c>t</a>"))) =
  (malformed,
   {| doc := cur_at (bytes "<a b c>") (bytes "t</a>");
      cb_stack := [take_body];
      trace := [] |}).
Proof.
  assert (H1 : fits (bytes "<a b c>t</a>")) by fits_small.
  assert (H2 : Forall is_preamble []) by constructor.
  assert (H3 : ~ In "<"%byte []) by (intros []).
  assert (H4 : ~ In ">"%byte (bytes "a b c")) by not_in.
  assert (H5 : hd ">"%byte (bytes "a b c") <> "?"%byte) by discriminate.
  assert (H6 : hd ">"%byte (bytes "a b c") <> "!"%byte) by discriminate.
  assert (H7 : (length (@nil preamble_decl) < 1)%nat) by (simpl; lia).
  assert (H8 : (2 <= spaces (bytes "a b c"))%nat) by (vm_compute; lia).
  split; [exact H1 |]. split; [exact H4 |]. split; [exact H8 |].
  exact (parse_rejects_a_root_tag_with_too_many_tokens
           (bytes "<a b c>t</a>") 2 10 1 take_body [] [] (bytes "a b c") (bytes "t</a>")
           H1 eq_refl H2 H3 H4 H5 H6 H7 H8).
Defined.

Lemma to_size_t_neg z : - (SIZE_MAX + 1) <= z < 0 -> to_size_t z = z + SIZE_MAX + 1.
Proof.
  intros H. unfold to_size_t.
  replace z with (z + SIZE_MAX + 1 + (-1) * (SIZE_MAX + 1)) at 1 by lia.
  rewrite Z_mod_plus_full. apply Z.mod_small. lia.
Qed.




(** ** The preamble scan and text that holds [>] *)

Lemma advance_zero c : aws_byte_cursor_advance c 0 = c.
Proof.
  unfold aws_byte_cursor_advance. destruct (_ || _); [reflexivity |].
  destruct c as [l q]. cbn [len ptr]. rewrite ptr_add_0. f_equal. lia.
Qed.

Lemma advance_wrapped c z :
  - Z.shiftr SIZE_MAX 1 <= z <= 0 -> aws_byte_cursor_advance c (to_size_t z) = c.
Proof.
  intros H. rewrite half_size_max in H.
  destruct (Z.eq_dec z 0) as [-> | Hz].
  - rewrite to_size_t_small by (rewrite size_max_val; lia). apply advance_zero.
  - rewrite to_size_t_neg by (rewrite size_max_val; lia).
    unfold aws_byte_cursor_advance.
    replace (z + SIZE_MAX + 1 >? Z.shiftr SIZE_MAX 1) with true
      by (symmetry; apply Z.gtb_lt; rewrite half_size_max, size_max_val; lia).
    rewrite orb_true_r. reflexivity.
Qed.

(** A round of the preamble loop on a declaration whose leading text holds a
    [>]: the cursor moves to the [<], and the second advance, by a distance
    that is zero or wraps around, moves nothing. *)
Lemma skip_preamble_gt_round buf fuel p pre l1 l2 c T :
  fits buf ->
  buf = pre ++ (l1 ++ ">"%byte :: l2) ++ "<"%byte :: c :: T ->
  doc p = cur_at pre ((l1 ++ ">"%byte :: l2) ++ "<"%byte :: c :: T) ->
  ~ In "<"%byte (l1 ++ ">"%byte :: l2) ->
  ~ In ">"%byte l1 ->
  c = "?"%byte \/ c = "!"%byte ->
  skip_preamble buf (S fuel) p =
  skip_preamble buf fuel
    (set_doc p (cur_at (pre ++ l1 ++ ">"%byte :: l2) ("<"%byte :: c :: T))).
Proof.
  intros Hf Hb Hd Hlead Hl1 Hmark.
  rewrite skip_preamble_S.
  destruct p as [d stack t]. simpl in Hd. subst d.
  unfold advance_doc, set_doc. cbn [doc cb_stack trace].
  set (L := l1 ++ ">"%byte :: l2) in *.
  set (D := L ++ "<"%byte :: c :: T) in *.
  change (ptr (cur_at pre D)) with (Addr (Z.of_nat (length pre))).
  change (len (cur_at pre D)) with (Z.of_nat (length D)).
  assert (HlL : length L = (length l1 + S (length l2))%nat).
  { unfold L. rewrite length_app. reflexivity. }
  assert (HlD : length D = (length L + S (S (length T)))%nat).
  { unfold D. rewrite length_app. reflexivity. }
  assert (Hlen : length buf = (length pre + length D)%nat).
  { rewrite Hb. rewrite !length_app. reflexivity. }
  replace (Z.of_nat (length D) =? 0) with false
    by (symmetry; apply Z.eqb_neq; lia).
  assert (Hm1 : memchr buf (Addr (Z.of_nat (length pre))) "<"%byte
                  (Z.of_nat (length D)) =
                Some (Addr (Z.of_nat (length pre) + Z.of_nat (length L)))).
  { apply (memchr_first buf pre L "<"%byte (c :: T) []);
      [rewrite app_nil_r; exact Hb | exact Hlead]. }
  assert (HD2 : D = l1 ++ ">"%byte :: (l2 ++ "<"%byte :: c :: T)).
  { unfold D, L. rewrite <- app_assoc. reflexivity. }
  assert (Hm2 : memchr buf (Addr (Z.of_nat (length pre))) ">"%byte
                  (Z.of_nat (length D)) =
                Some (Addr (Z.of_nat (length pre) + Z.of_nat (length l1)))).
  { rewrite HD2.
    apply (memchr_first buf pre l1 ">"%byte (l2 ++ "<"%byte :: c :: T) []);
      [rewrite app_nil_r, <- HD2; exact Hb | exact Hl1]. }
  rewrite Hm1, Hm2.
  assert (Hadv : aws_byte_cursor_advance (cur_at pre D)
                    (to_size_t
                       (ptr_diff (Addr (Z.of_nat (length pre) + Z.of_nat (length L)))
                          (Addr (Z.of_nat (length pre))))) =
                  cur_at (pre ++ L) ("<"%byte :: c :: T)).
  { unfold D. apply (advance_cur_at buf pre L ("<"%byte :: c :: T) _ Hf).
    - fold D. rewrite length_app. lia.
    - unfold ptr_diff. lia. }
  rewrite Hadv.
  change (ptr (cur_at (pre ++ L) ("<"%byte :: c :: T)))
    with (Addr (Z.of_nat (length (pre ++ L)))).
  assert (Hload : load buf (ptr_add (Addr (Z.of_nat (length (pre ++ L)))) 1) = Some c).
  { unfold ptr_add.
    replace (Z.of_nat (length (pre ++ L)) + 1)
      with (Z.of_nat (length (pre ++ L ++ ["<"%byte])))
      by (rewrite !length_app; simpl; lia).
    apply load_at with (rest := T).
    rewrite Hb. unfold D. rewrite <- !app_assoc. reflexivity. }
  rewrite Hload.
  replace (Byte.eqb c "?"%byte || Byte.eqb c "!"%byte) with true
    by (destruct Hmark; subst c; reflexivity).
  rewrite advance_wrapped.
  - reflexivity.
  - unfold fits in Hf. unfold ptr_diff. rewrite length_app. lia.
Qed.

(** X16: a [>] in the text before a preamble declaration does not disturb
    [aws_xml_parser_parse]: the first round of the preamble loop only moves
    the cursor to the [<] of the declaration, since the distance to that
    [>] is not positive and the advance by it moves nothing, and the next
    round burns the declaration.  The root is then decoded from the first
    tag after it, as when the text holds no [>]. *)
Theorem parse_tolerates_gt_before_a_preamble_declaration
  (buf : list byte) (sc ac fuel : nat) (h : handler)
  (l1 l2 body ws decl rest : list byte) (c : byte) :
  let before_root :=
    (l1 ++ ">"%byte :: l2) ++ "<"%byte :: c :: body ++ [">"%byte] in
  fits buf ->
  buf = before_root ++ ws ++ "<"%byte :: decl ++ ">"%byte :: rest ->
  ~ In "<"%byte (l1 ++ ">"%byte :: l2) ->
  ~ In ">"%byte l1 ->
  c = "?"%byte \/ c = "!"%byte ->
  ~ In ">"%byte body ->
  ~ In "<"%byte ws ->
  ~ In ">"%byte decl ->
  hd ">"%byte decl <> "?"%byte ->
  hd ">"%byte decl <> "!"%byte ->
  (3 <= fuel)%nat ->
  aws_xml_parser_parse buf sc ac fuel h (aws_xml_parser_init (whole buf)) =
  let p2 :=
    {| doc := cur_at (before_root ++ ws ++ "<"%byte :: decl ++ [">"%byte]) rest;
       cb_stack := [h];
       trace := [] |} in
  match s_load_node_decl buf sc ac (cur_at (before_root ++ ws ++ ["<"%byte]) decl)
          (empty_node (doc p2)) with
  | AWS_OP_SUCCESS root =>
      ignore_return
        (run_handler buf sc ac fuel (h root)
           (record (Ev_node From_next_sibling root) p2))
  | AWS_OP_ERR e => (AWS_OP_ERR e, p2)
  | Undefined => (Undefined, p2)
  | OutOfFuel => (OutOfFuel, p2)
  end.
Proof.
  intros before_root Hf Hb Hl Hl1 Hmark Hbody Hws Hdecl Hq Hx Hfuel.
  destruct fuel as [| [| [| f]]]; try lia.
  unfold aws_xml_parser_parse, aws_xml_parser_init, set_stack.
  cbn [doc cb_stack trace].
  set (L := l1 ++ ">"%byte :: l2) in *.
  set (tail := ws ++ "<"%byte :: decl ++ ">"%byte :: rest) in *.
  set (r := {| lead := []; mark := c; inside := body |}).
  assert (Hr : before_root = L ++ region r) by reflexivity.
  assert (Hb1 : buf = [] ++ L ++ "<"%byte :: c :: (body ++ ">"%byte :: tail)).
  { rewrite Hb. unfold before_root. simpl. rewrite <- !app_assoc. simpl.
    rewrite <- app_assoc. reflexivity. }
  rewrite (skip_preamble_gt_round buf (S (S f)) _ [] l1 l2 c (body ++ ">"%byte :: tail)
             Hf Hb1);
    [| cbn [doc]; unfold whole, cur_at; rewrite Hb1; reflexivity
     | exact Hl | exact Hl1 | exact Hmark].
  unfold set_doc. cbn [doc cb_stack trace]. rewrite app_nil_l.
  fold L.
  assert (Hb2 : buf = L ++ region r ++ tail).
  { rewrite Hb, Hr, <- app_assoc. reflexivity. }
  rewrite (skip_preamble_region buf (S f) _ L r tail Hf Hb2).
  2:{ unfold is_preamble, r. cbn [lead mark inside].
      repeat split; [intros [] | intros [] | exact Hmark | exact Hbody]. }
  2:{ cbn [doc]. f_equal. unfold region, r. cbn [lead mark inside]. simpl.
      rewrite <- app_assoc. reflexivity. }
  unfold set_doc. cbn [doc cb_stack trace].
  assert (Htail : tail = ws ++ "<"%byte :: hd ">"%byte decl ::
                           tl (decl ++ ">"%byte :: rest)).
  { unfold tail. rewrite <- hd_tl_close. reflexivity. }
  rewrite (skip_preamble_stop buf f _ (L ++ region r) ws (hd ">"%byte decl)
             (tl (decl ++ ">"%byte :: rest)) Hf);
    [ | rewrite <- Htail, <- app_assoc; exact Hb2 | exact Hws
      | rewrite <- Htail; unfold tail;
        apply in_or_app; right; right; apply in_or_app; right; left; reflexivity
      | exact Hq | exact Hx | cbn [doc]; rewrite Htail; reflexivity ].
  rewrite <- hd_tl_close.
  unfold set_doc. cbn [doc cb_stack trace].
  rewrite (next_sibling_steps buf sc ac _ _ ((L ++ region r) ++ ws) [] decl rest Hf);
    [ | rewrite <- !app_assoc; exact Hb2 | simpl; tauto | exact Hdecl | reflexivity ].
  cbv zeta. unfold set_doc. cbn [doc cb_stack trace].
  rewrite !app_nil_l, <- Hr, <- !app_assoc. reflexivity.
Qed.

Lemma parse_tolerates_gt_before_a_preamble_declaration_witness :
  fits (bytes "a>b<?x?><r>t</r>") /\
  ~ In "<"%byte (bytes "a" ++ ">"%byte :: bytes "b") /\
  ~ In ">"%byte (bytes "a") /\
  ~ In ">"%byte (bytes "x?") /\
  ~ In ">"%byte (bytes "r") /\
  aws_xml_parser_parse (bytes "a>b<?x?><r>t</r>") 10 10 3 take_body
    (aws_xml_parser_init (whole (bytes "a>b<?x?><r>t</r>"))) =
  (AWS_OP_SUCCESS tt,
   {| doc := cur_at (bytes "a>b<?x?><r>t</r>") [];
      cb_stack := [take_body];
      trace :=
        [Ev_node From_next_sibling
           {| name := cur_at (bytes "a>b<?x?><") (bytes "r");
              attributes := [];
              doc_at_body := cur_at (bytes "a>b<?x?><r>") (bytes "t</r>") |};
         Ev_body
           {| name := cur_at (bytes "a>b<?x?><") (bytes "r");
              attributes := [];
              doc_at_body := cur_at (bytes "a>b<?x?><r>") (bytes "t</r>") |}
           (AWS_OP_SUCCESS (cur_at (bytes "a>b<?x?><r>") (bytes "t")))] |}).
Proof.
  assert (H1 : fits (bytes "a>b<?x?><r>t</r>")) by fits_small.
  assert (H2 : ~ In "<"%byte (bytes "a" ++ ">"%byte :: bytes "b")) by not_in.
  assert (H3 : ~ In ">"%byte (bytes "a")) by not_in.
  assert (H4 : "?"%byte = "?"%byte \/ "?"%byte = "!"%byte) by (left; reflexivity).
  assert (H5 : ~ In ">"%byte (bytes "x?")) by not_in.
  assert (H6 : ~ In "<"%byte []) by (intros []).
  assert (H7 : ~ In ">"%byte (bytes "r")) by not_in.
  assert (H8 : hd ">"%byte (bytes "r") <> "?"%byte) by discriminate.
  assert (H9 : hd ">"%byte (bytes "r") <> "!"%byte) by discriminate.
  assert (H10 : (3 <= 3)%nat) by lia.
  split; [exact H1 |]. split; [exact H2 |]. split; [exact H3 |].
  split; [exact H5 |]. split; [exact H7 |].
  exact (parse_tolerates_gt_before_a_preamble_declaration
           (bytes "a>b<?x?><r>t</r>") 10 10 3 take_body
           (bytes "a") (bytes "b") (bytes "x?") [] (bytes "r") (bytes "t</r>")
           "?"%byte H1 eq_refl H2 H3 H4 H5 H6 H7 H8 H9 H10).
Defined.
